(** * TradePulse: the trade-statistics and filtering core

    A shallow embedding of the computational core of the TradePulse
    dashboard (src/App.tsx, the TradeCharts, PortfolioOverview and
    TradeHistory components, and the shared type declarations), followed by
    the properties its specification states about it.

    Conventions of the embedding.
    - A JavaScript [number] that holds a price or an amount is an exact
      rational ([Q], compared with [==]).  The values a division or the
      statistics scan can produce besides ([-Infinity], [Infinity], [NaN])
      are explicit constructors of [JS.number].
    - The rounding of IEEE doubles is modelled where a property depends on
      the order of additions: module [Binary64] repeats the profit sums of
      the statistics and of the chart on binary64 numbers.
    - A time value (milliseconds since the epoch) is an [option Z]: [None]
      is the [NaN] time value of an Invalid Date.
    - The local time zone is a constant offset [tz] (milliseconds to add to
      UTC); daylight-saving transitions are not modelled.
    - Strings are byte strings; [toUpperCase] and the default string order
      are the ASCII ones.
    - A plain JavaScript object used as a dictionary is an association list
      in insertion order, because [Object.keys] exposes that order. *)

From Stdlib Require Import List ZArith QArith Qround Bool Lia Lqa.
From Stdlib Require Import Ascii String Permutation Sorted Setoid Morphisms.
From Stdlib Require Floats Uint63.
Import ListNotations.

Set Implicit Arguments.

(* ================================================================== *)
(** * Part I.  Definitions                                              *)
(* ================================================================== *)

(** ** The JavaScript platform pieces the core relies on *)

Module JS.

(** A [number] as the statistics use it: a finite value, one of the two
    infinities, or [NaN]. *)
Inductive number : Type :=
| NegInfinity
| Num (q : Q)
| Infinity
| NaN.

(** [x < y] on rationals, as a boolean. *)
Definition Qltb (x y : Q) : bool := negb (Qle_bool y x).

(** [p > b] and [p < b] for a finite [p] against a possibly infinite [b]. *)
Definition gt (p : Q) (b : number) : bool :=
  match b with
  | NegInfinity => true
  | Num q => Qltb q p
  | Infinity => false
  | NaN => false
  end.

Definition lt (p : Q) (b : number) : bool :=
  match b with
  | NegInfinity => false
  | Num q => Qltb p q
  | Infinity => true
  | NaN => false
  end.

(** [b === -Infinity] and [b === Infinity]. *)
Definition isNegInfinity (b : number) : bool :=
  match b with NegInfinity => true | _ => false end.

Definition isInfinity (b : number) : bool :=
  match b with Infinity => true | _ => false end.

(** [x / y] on finite numbers: a zero divisor gives [NaN] for [0 / 0] and
    an infinity otherwise (the sign of a zero is not modelled). *)
Definition div (x y : Q) : number :=
  if Qeq_bool y 0 then
    if Qeq_bool x 0 then NaN
    else if Qltb 0 x then Infinity else NegInfinity
  else Num (x / y).

(** [n * c] for a finite [c]. *)
Definition times (n : number) (c : Q) : number :=
  match n with
  | Num q => Num (q * c)
  | NaN => NaN
  | Infinity =>
      if Qltb 0 c then Infinity else if Qltb c 0 then NegInfinity else NaN
  | NegInfinity =>
      if Qltb 0 c then NegInfinity else if Qltb c 0 then Infinity else NaN
  end.

(** [x as number] for a [number | null]: in arithmetic [null] counts as
    [+0]. *)
Definition asNumber (x : option Q) : Q :=
  match x with Some q => q | None => 0%Q end.

(** [Array.prototype.length] as a number. *)
Definition len {A} (l : list A) : Z := Z.of_nat (List.length l).

(** [String.prototype.toUpperCase], on ASCII letters. *)
Definition upperChar (c : ascii) : ascii :=
  let n := nat_of_ascii c in
  if (97 <=? n)%nat && (n <=? 122)%nat then ascii_of_nat (n - 32) else c.

Fixpoint toUpperCase (s : string) : string :=
  match s with
  | EmptyString => EmptyString
  | String c s' => String (upperChar c) (toUpperCase s')
  end.

(** [hay.includes(needle)]: [needle] occurs in [hay] as a contiguous
    substring. *)
Fixpoint includes (hay needle : string) : bool :=
  if String.prefix needle hay then true
  else match hay with
       | EmptyString => false
       | String _ hay' => includes hay' needle
       end.

(** A string is truthy exactly when it is not empty. *)
Definition truthy (s : string) : bool :=
  match s with EmptyString => false | _ => true end.

(** [Array.prototype.sort(comparefn)].  The comparator's result is read by
    its sign: [Lt] puts the first argument first, [Gt] the second, and [Eq]
    (a zero or [NaN] result) keeps the two in their current order, the sort
    being stable.  For a comparator that is a total preorder every stable
    sort returns the same array; insertion sort stands for all of them. *)
Section Sort.
Variable A : Type.
Variable comparefn : A -> A -> comparison.

Fixpoint insert (x : A) (l : list A) : list A :=
    match l with
    | [] => [x]
    | y :: l' =>
        match comparefn x y with
        | Gt => y :: insert x l'
        | _ => x :: l
        end
    end.

Definition sort (l : list A) : list A := fold_right insert [] l.
End Sort.

(** The sign of a comparator result, for the three kinds of result the
    code produces. *)
Definition signQ (v : Q) : comparison := (v ?= 0)%Q.

Definition signTime (v : option Z) : comparison :=
  match v with Some z => (z ?= 0)%Z | None => Eq end.

(** Subtraction and the relational operators on time values; anything
    involving [NaN] is [NaN], respectively [false]. *)
Definition subT (a b : option Z) : option Z :=
  match a, b with Some x, Some y => Some (x - y)%Z | _, _ => None end.

Definition geT (a b : option Z) : bool :=
  match a, b with Some x, Some y => (y <=? x)%Z | _, _ => false end.

Definition leT (a b : option Z) : bool :=
  match a, b with Some x, Some y => (x <=? y)%Z | _, _ => false end.

(** [arr.slice(0, n)]: a fresh array holding the first [n] elements. *)
Definition slice0 {A} (n : nat) (l : list A) : list A := firstn n l.

(** [Array.from(new Set(xs))] for strings: the distinct elements in the
    order of their first occurrence; [seen] is what the set already
    holds. *)
Fixpoint distinctFrom (seen : list string) (xs : list string)
  : list string :=
  match xs with
  | [] => []
  | x :: xs' =>
      if existsb (String.eqb x) seen then distinctFrom seen xs'
      else x :: distinctFrom (x :: seen) xs'
  end.

Definition setToArray (xs : list string) : list string := distinctFrom [] xs.

End JS.

(** ** The [Date] object

    Time values follow the ECMAScript abstract operations ([Day],
    [TimeWithinDay], [MakeDay], [MakeDate], [MakeTime], [TimeClip],
    [LocalTime], [UTC]).  A [Date] is its time value. *)

Module JSDate.

Local Open Scope Z_scope.

Definition msPerDay : Z := 86400000.

(** [new Date(8640000000000000)]: the largest time value. *)
Definition maxTime : Z := 8640000000000000.

Definition Day (t : Z) : Z := t / msPerDay.
Definition TimeWithinDay (t : Z) : Z := t mod msPerDay.

(** Day number of the proleptic Gregorian date [y]-[m]-[d], [m] in 1..12,
    counted from 1970-01-01. *)
Definition daysFromCivil (y m d : Z) : Z :=
  let y' := if m <=? 2 then y - 1 else y in
  let era := y' / 400 in
  let yoe := y' - era * 400 in
  let mp := (m + 9) mod 12 in
  let doy := (153 * mp + 2) / 5 + d - 1 in
  let doe := yoe * 365 + yoe / 4 - yoe / 100 + doy in
  era * 146097 + doe - 719468.

(** The inverse: year, month (1..12) and day of month of a day number. *)
Definition civilFromDays (z : Z) : Z * Z * Z :=
  let z := z + 719468 in
  let era := z / 146097 in
  let doe := z - era * 146097 in
  let yoe := (doe - doe / 1460 + doe / 36524 - doe / 146096) / 365 in
  let y := yoe + era * 400 in
  let doy := doe - (365 * yoe + yoe / 4 - yoe / 100) in
  let mp := (5 * doy + 2) / 153 in
  let d := doy - (153 * mp + 2) / 5 + 1 in
  let m := if mp <? 10 then mp + 3 else mp - 9 in
  (if m <=? 2 then y + 1 else y, m, d).

Definition YearFromTime (t : Z) : Z := fst (fst (civilFromDays (Day t))).
(** Months are numbered from 0. *)
Definition MonthFromTime (t : Z) : Z := snd (fst (civilFromDays (Day t))) - 1.
Definition DateFromTime (t : Z) : Z := snd (civilFromDays (Day t)).

(** [MakeDay(year, month, date)] with a 0-based, possibly out-of-range
    month and any day of month. *)
Definition MakeDay (year month dt : Z) : Z :=
  let ym := year + month / 12 in
  let mn := month mod 12 in
  daysFromCivil ym (mn + 1) 1 + dt - 1.

Definition MakeDate (day time : Z) : Z := day * msPerDay + time.

Definition MakeTime (hour min sec ms : Z) : Z :=
  hour * 3600000 + min * 60000 + sec * 1000 + ms.

Definition TimeClip (t : Z) : option Z :=
  if maxTime <? Z.abs t then None else Some t.

Section Zone.
  (** The local time zone adjustment, in milliseconds. *)
Variable tz : Z.

Definition LocalTime (t : Z) : Z := t + tz.
Definition UTC (t : Z) : Z := t - tz.

  (** [d.getFullYear()], [d.getMonth()], [d.getDate()], [d.getTime()];
      each is [NaN] on an Invalid Date. *)
Definition getFullYear (d : option Z) : option Z :=
    option_map (fun t => YearFromTime (LocalTime t)) d.
Definition getMonth (d : option Z) : option Z :=
    option_map (fun t => MonthFromTime (LocalTime t)) d.
Definition getDate (d : option Z) : option Z :=
    option_map (fun t => DateFromTime (LocalTime t)) d.
Definition getTime (d : option Z) : option Z := d.

  (** [new Date(year, month, date)]: local midnight of that day; a year in
      0..99 means 1900 + year. *)
Definition ofYMD (year month dt : option Z) : option Z :=
    match year, month, dt with
    | Some y, Some m, Some d =>
        let yr := if (0 <=? y) && (y <=? 99) then 1900 + y else y in
        TimeClip (UTC (MakeDate (MakeDay yr m d) 0))
    | _, _, _ => None
    end.

  (** [d.setDate(dt)], returning the updated Date. *)
Definition setDate (d : option Z) (dt : option Z) : option Z :=
    match d, dt with
    | Some t, Some n =>
        let t := LocalTime t in
        TimeClip (UTC (MakeDate
          (MakeDay (YearFromTime t) (MonthFromTime t) n) (TimeWithinDay t)))
    | _, _ => None
    end.

  (** [d.setFullYear(year)]; an Invalid Date is restarted from [+0]. *)
Definition setFullYear (d : option Z) (year : option Z) : option Z :=
    match year with
    | Some y =>
        let t := match d with Some t => LocalTime t | None => 0 end in
        TimeClip (UTC (MakeDate
          (MakeDay y (MonthFromTime t) (DateFromTime t)) (TimeWithinDay t)))
    | None => None
    end.

  (** [d.setHours(hour, min, sec, ms)]. *)
Definition setHours (d : option Z) (hour min sec ms : Z) : option Z :=
    match d with
    | Some t =>
        let t := LocalTime t in
        TimeClip (UTC (MakeDate (Day t) (MakeTime hour min sec ms)))
    | None => None
    end.
End Zone.

(** [new Date(value)] for a numeric time value and [new Date(d)] for a
    Date. *)
Definition ofTime (t : Z) : option Z := TimeClip t.
Definition copy (d : option Z) : option Z := d.

(** Decimal digits. *)
Definition digitOf (c : ascii) : option Z :=
  let n := Z.of_nat (nat_of_ascii c) in
  if (48 <=? n) && (n <=? 57) then Some (n - 48) else None.

Fixpoint digitsOf (acc : Z) (s : string) : option Z :=
  match s with
  | EmptyString => Some acc
  | String c s' =>
      match digitOf c with
      | Some n => digitsOf (10 * acc + n) s'
      | None => None
      end
  end.

Definition isLeap (y : Z) : bool :=
  ((y mod 4 =? 0) && negb (y mod 100 =? 0)) || (y mod 400 =? 0).

Definition daysInMonth (y m : Z) : Z :=
  if m =? 2 then (if isLeap y then 29 else 28)
  else if (m =? 4) || (m =? 6) || (m =? 9) || (m =? 11) then 30
  else 31.

(** [new Date(s)] for the date-only form [YYYY-MM-DD], the form a date
    input produces: midnight UTC of that day.  The other forms [Date.parse]
    accepts are outside the model and read as an Invalid Date. *)
Definition parse (s : string) : option Z :=
  if (String.length s =? 10)%nat
     && (String.substring 4 1 s =? "-")%string
     && (String.substring 7 1 s =? "-")%string
  then
    match digitsOf 0 (String.substring 0 4 s),
          digitsOf 0 (String.substring 5 2 s),
          digitsOf 0 (String.substring 8 2 s) with
    | Some y, Some m, Some d =>
        if (1 <=? m) && (m <=? 12) && (1 <=? d) && (d <=? daysInMonth y m)
        then TimeClip (MakeDate (daysFromCivil y m d) 0)
        else None
    | _, _, _ => None
    end
  else None.

(** [n] in decimal, left-padded with zeros to [width] digits. *)
Definition digitChar (n : Z) : ascii := ascii_of_nat (Z.to_nat (48 + n mod 10)).

Fixpoint pad (width : nat) (n : Z) (acc : string) : string :=
  match width with
  | O => acc
  | S w => pad w (n / 10) (String (digitChar n) acc)
  end.

(** [d.toISOString().split('T')[0]] on a valid Date: the UTC calendar date,
    with the six-digit signed year outside 0..9999. *)
Definition toISODate (t : Z) : string :=
  let '(y, m, d) := civilFromDays (Day t) in
  let year :=
    if (0 <=? y) && (y <=? 9999) then pad 4 y ""
    else String (if y <? 0 then "-"%char else "+"%char)
                (pad 6 (Z.abs y) "") in
  (year ++ "-" ++ pad 2 m "" ++ "-" ++ pad 2 d "")%string.

End JSDate.

(** ** Plain objects used as dictionaries

    A [Record<string, V>] that starts as [{}] and is only ever written
    through [o[k] = v]: the own properties in insertion order.  Keys are
    taken not to collide with the properties inherited from
    [Object.prototype] (dates and upper-cased ticker symbols never do). *)

Module JSObject.

Definition t (V : Type) : Type := list (string * V).

Definition empty {V} : t V := [].

(** [o[k]]: [None] is [undefined]. *)
Fixpoint get {V} (o : t V) (k : string) : option V :=
  match o with
  | [] => None
  | (k', v) :: o' => if (k' =? k)%string then Some v else get o' k
  end.

(** [o[k] = v]: an existing property keeps its place, a new one is added
    last. *)
Fixpoint set {V} (o : t V) (k : string) (v : V) : t V :=
  match o with
  | [] => [(k, v)]
  | (k', v') :: o' =>
      if (k' =? k)%string then (k', v) :: o' else (k', v') :: set o' k v
  end.

(** An array index is the canonical decimal form of an integer in
    0 .. 2^32 - 2. *)
Definition arrayIndex (k : string) : option Z :=
  match k with
  | EmptyString => None
  | String c rest =>
      match JSDate.digitsOf 0 k with
      | Some n =>
          if (negb (Ascii.eqb c "0") || (String.length rest =? 0)%nat)
             && (n <=? 4294967294)%Z
          then Some n else None
      | None => None
      end
  end.

Definition isArrayIndex (k : string) : bool :=
  match arrayIndex k with Some _ => true | None => false end.

Definition indexOrder (a b : string) : comparison :=
  match arrayIndex a, arrayIndex b with
  | Some x, Some y => (x ?= y)%Z
  | _, _ => Eq
  end.

(** The order in which the own property keys are enumerated: array indices
    in ascending numeric order, then the other keys in insertion order. *)
Definition ownKeys {V} (o : t V) : list string :=
  let ks := map fst o in
  JS.sort indexOrder (filter isArrayIndex ks)
  ++ filter (fun k => negb (isArrayIndex k)) ks.

(** [Object.keys(o)] and [Object.values(o)]. *)
Definition keys {V} (o : t V) : list string := ownKeys o.

Definition values {V} (o : t V) : list V :=
  flat_map (fun k => match get o k with Some v => [v] | None => [] end)
           (ownKeys o).

End JSObject.

(** ** types.ts *)

Module Types.

Record Trade : Type := mkTrade {
  id : string;
  symbol : string;
  buyPrice : Q;
  sellPrice : option Q;          (* number | null *)
  quantity : Z;
  date : string;                 (* ISO date string *)
  timestamp : option Z;          (* for sorting; None is NaN *)
  remarks : option string
}.

Record TradeStats : Type := mkTradeStats {
  totalProfit : Q;
  avgBuyPrice : JS.number;
  avgSellPrice : JS.number;
  avgProfitPerTrade : JS.number;
  winRate : JS.number;
  totalTrades : Z;
  openPositions : Z;
  bestTrade : JS.number;
  worstTrade : JS.number
}.

Inductive TimeFrame : Type :=
| ALL | TODAY | WEEK | MONTH | YTD | YEAR | CUSTOM.

End Types.
Import Types.

(** [t.sellPrice !== null] *)
Definition isClosed (t : Trade) : bool :=
  match sellPrice t with Some _ => true | None => false end.

(** [(sellPrice - t.buyPrice) * t.quantity], the expression every component
    uses for the profit of a trade. *)
Definition profitOf (t : Trade) : Q :=
  ((JS.asNumber (sellPrice t) - buyPrice t) * inject_Z (quantity t))%Q.

(** ** App.tsx *)

Module App.

(** *** The statistics calculation *)

(** The five [let] variables the [forEach] over the closed trades updates. *)
Record Scan : Type := mkScan {
  sTotalProfit : Q;
  sTotalSellPrice : Q;
  sWins : Z;
  sBest : JS.number;
  sWorst : JS.number
}.

Definition scan0 : Scan := mkScan 0 0 0 JS.NegInfinity JS.Infinity.

(** One iteration of [closedTrades.forEach]. *)
Definition scanStep (s : Scan) (t : Trade) : Scan :=
  let sellPrice := JS.asNumber (sellPrice t) in
  let profit := ((sellPrice - buyPrice t) * inject_Z (quantity t))%Q in
  mkScan (sTotalProfit s + profit)%Q
         (sTotalSellPrice s + sellPrice)%Q
         (if JS.Qltb 0 profit then sWins s + 1 else sWins s)%Z
         (if JS.gt profit (sBest s) then JS.Num profit else sBest s)
         (if JS.lt profit (sWorst s) then JS.Num profit else sWorst s).

Definition closedTrades (filteredTrades : list Trade) : list Trade :=
  filter isClosed filteredTrades.

Definition stats (filteredTrades : list Trade) : TradeStats :=
  if (JS.len filteredTrades =? 0)%Z then
    mkTradeStats 0 (JS.Num 0) (JS.Num 0) (JS.Num 0) (JS.Num 0) 0 0
                 (JS.Num 0) (JS.Num 0)
  else
    let totalTrades := JS.len filteredTrades in
    let closedTrades := closedTrades filteredTrades in
    let openPositions := (totalTrades - JS.len closedTrades)%Z in
    let totalBuyPrice :=
      fold_left (fun sum t => (sum + buyPrice t)%Q) filteredTrades 0%Q in
    let s := fold_left scanStep closedTrades scan0 in
    mkTradeStats
      (sTotalProfit s)
      (if (0 <? totalTrades)%Z
       then JS.div totalBuyPrice (inject_Z totalTrades) else JS.Num 0)
      (if (0 <? JS.len closedTrades)%Z
       then JS.div (sTotalSellPrice s) (inject_Z (JS.len closedTrades))
       else JS.Num 0)
      (if (0 <? JS.len closedTrades)%Z
       then JS.div (sTotalProfit s) (inject_Z (JS.len closedTrades))
       else JS.Num 0)
      (if (0 <? JS.len closedTrades)%Z
       then JS.times
              (JS.div (inject_Z (sWins s)) (inject_Z (JS.len closedTrades)))
              100
       else JS.Num 0)
      totalTrades
      openPositions
      (if JS.isNegInfinity (sBest s) then JS.Num 0 else sBest s)
      (if JS.isInfinity (sWorst s) then JS.Num 0 else sWorst s).

(** [Array.from(new Set(trades.map(t => t.symbol))).sort()], the symbols
    offered by the filter's dropdown. *)
Definition uniqueSymbols (trades : list Trade) : list string :=
  JS.sort String.compare (JS.setToArray (map symbol trades)).

(** The open positions handed to the live ticker: taken from all trades,
    not from the filtered ones. *)
Definition openPositionsTrades (trades : list Trade) : list Trade :=
  filter (fun t => negb (isClosed t)) trades.

(** *** The filtering logic *)

(** The bounds [start] and [end] after the [switch] on the time frame. *)
Definition window (tz now : Z) (timeFrame : TimeFrame)
    (customStartDate customEndDate : string) : option Z * option Z :=
  let now := Some now in
  let today := JSDate.ofYMD tz (JSDate.getFullYear tz now)
                 (JSDate.getMonth tz now) (JSDate.getDate tz now) in
  let start := JSDate.ofTime 0 in
  let end_ := JSDate.ofTime 8640000000000000 in
  match timeFrame with
  | TODAY => (today, end_)
  | WEEK =>
      (JSDate.setDate tz (JSDate.copy today)
         (JS.subT (JSDate.getDate tz today) (Some 7%Z)), end_)
  | MONTH =>
      (JSDate.setDate tz (JSDate.copy today)
         (JS.subT (JSDate.getDate tz today) (Some 30%Z)), end_)
  | YTD =>
      (JSDate.ofYMD tz (JSDate.getFullYear tz now) (Some 0%Z) (Some 1%Z),
       end_)
  | YEAR =>
      (JSDate.setFullYear tz (JSDate.copy today)
         (JS.subT (JSDate.getFullYear tz today) (Some 1%Z)), end_)
  | CUSTOM =>
      (if JS.truthy customStartDate
       then JSDate.parse customStartDate else start,
       if JS.truthy customEndDate
       then JSDate.setHours tz (JSDate.parse customEndDate) 23 59 59 999
       else end_)
  | ALL => (start, end_)
  end.

(** [t => t.symbol.includes(stockFilter.toUpperCase())] *)
Definition symbolMatches (stockFilter : string) (t : Trade) : bool :=
  JS.includes (symbol t) (JS.toUpperCase stockFilter).

(** [t => t.timestamp >= start.getTime() && t.timestamp <= end.getTime()] *)
Definition inWindow (w : option Z * option Z) (t : Trade) : bool :=
  JS.geT (timestamp t) (JSDate.getTime (fst w))
  && JS.leT (timestamp t) (JSDate.getTime (snd w)).

Definition filteredTrades (tz now : Z) (trades : list Trade)
    (stockFilter : string) (timeFrame : TimeFrame)
    (customStartDate customEndDate : string) : list Trade :=
  let result := trades in
  let result :=
    if JS.truthy stockFilter
    then filter (symbolMatches stockFilter) result else result in
  match timeFrame with
  | ALL => result
  | _ =>
      filter (inWindow (window tz now timeFrame customStartDate customEndDate))
             result
  end.

(** *** Creating, editing and deleting trades *)

(** [Omit<Trade, 'id' | 'timestamp'>], what the form hands over. *)
Module TradeData.
Record t : Type := mk {
    symbol : string;
    buyPrice : Q;
    sellPrice : option Q;
    quantity : Z;
    date : string;
    remarks : option string
  }.
End TradeData.

(** [{ ...t, ...tradeData, timestamp: new Date(tradeData.date).getTime() }] *)
Definition updated (t : Trade) (tradeData : TradeData.t) : Trade :=
  mkTrade (id t)
          (TradeData.symbol tradeData)
          (TradeData.buyPrice tradeData)
          (TradeData.sellPrice tradeData)
          (TradeData.quantity tradeData)
          (TradeData.date tradeData)
          (JSDate.getTime (JSDate.parse (TradeData.date tradeData)))
          (match TradeData.remarks tradeData with
           | Some r => Some r
           | None => remarks t
           end).

(** [{ ...tradeData, id: generateId(), timestamp: ... }] *)
Definition created (newId : string) (tradeData : TradeData.t) : Trade :=
  mkTrade newId
          (TradeData.symbol tradeData)
          (TradeData.buyPrice tradeData)
          (TradeData.sellPrice tradeData)
          (TradeData.quantity tradeData)
          (TradeData.date tradeData)
          (JSDate.getTime (JSDate.parse (TradeData.date tradeData)))
          (TradeData.remarks tradeData).

(** The state update of [handleSaveTrade]; [newId] is what [generateId()]
    returns. *)
Definition handleSaveTrade (editingTrade : option Trade) (newId : string)
    (tradeData : TradeData.t) (prev : list Trade) : list Trade :=
  match editingTrade with
  | Some e =>
      map (fun t => if (id t =? id e)%string then updated t tradeData else t)
          prev
  | None => prev ++ [created newId tradeData]
  end.

(** The state update of [handleDeleteTrade]; [confirmed] is the answer to
    [window.confirm]. *)
Definition handleDeleteTrade (confirmed : bool) (i : string)
    (prev : list Trade) : list Trade :=
  if confirmed then filter (fun t => negb (id t =? i)%string) prev else prev.

(** *** The generated test dataset *)

(** [parseFloat(x.toFixed(2))]: the nearest multiple of 0.01, a tie going
    away from zero. *)
Definition toFixed2 (x : Q) : Q :=
  let r (y : Q) := (inject_Z (Qfloor (y * 100 + (1 # 2))%Q) / 100)%Q in
  if JS.Qltb x 0 then (- r (- x))%Q else r x.

(** Truncation toward zero, as [new Date(value)] applies it. *)
Definition truncate (x : Q) : Z := Z.quot (Qnum x) (Zpos (Qden x)).

(** A non-negative integer in decimal. *)
Fixpoint decimalAux (fuel : nat) (n : Z) (acc : string) : string :=
  match fuel with
  | O => acc
  | S f =>
      let acc' := String (JSDate.digitChar n) acc in
      if (n / 10 =? 0)%Z then acc' else decimalAux f (n / 10)%Z acc'
  end.

Definition decimal (n : Z) : string :=
  decimalAux (S (Z.to_nat (Z.log2 n))) n "".

Definition symbols : list string :=
  ["TSLA"%string; "AAPL"%string; "NVDA"%string; "MSFT"%string;
   "AMZN"%string].

Definition tenYearsInMillis : Z := 10 * 365 * 24 * 60 * 60 * 1000.

Definition basePriceOf (symbol : string) : Q :=
  let basePrice := 100%Q in
  let basePrice := if (symbol =? "TSLA")%string then 200%Q else basePrice in
  let basePrice := if (symbol =? "AAPL")%string then 150%Q else basePrice in
  let basePrice := if (symbol =? "NVDA")%string then 400%Q else basePrice in
  let basePrice := if (symbol =? "MSFT")%string then 300%Q else basePrice in
  let basePrice := if (symbol =? "AMZN")%string then 130%Q else basePrice in
  basePrice.

Section Generator.
  (** [random k] is the result of the [k]-th call of [Math.random()], a
      number in [0, 1); [base36 x] is [x.toString(36).substring(2, 9)]. *)
Variable random : nat -> Q.
Variable base36 : Q -> string.
Variable now : Z.

  (** One iteration of the loop: [k] counts the calls of [Math.random()]
      made so far; [None] is the [RangeError] of [toISOString] on an
      Invalid Date. *)
Definition generateOne (i : nat) (k : nat) : option Trade * nat :=
    let timeOffset := (random k * inject_Z tenYearsInMillis)%Q in
    let tradeDate :=
      JSDate.ofTime (truncate (inject_Z now - timeOffset)) in
    let symbol :=
      nth (Z.to_nat (Qfloor (random (k + 1) * 5))) symbols ""%string in
    let basePrice := basePriceOf symbol in
    let buyPrice := (basePrice * ((1 # 2) + random (k + 2)))%Q in
    let quantity := (Qfloor (random (k + 3) * 50) + 1)%Z in
    let isSold := JS.Qltb (2 # 10) (random (k + 4)) in
    let sellPrice :=
      if isSold
      then let variance := (random (k + 5) * (1 # 2) - (2 # 10))%Q in
           Some (buyPrice * (1 + variance))%Q
      else None in
    let k' := if isSold then (k + 6)%nat else (k + 5)%nat in
    match tradeDate with
    | Some t =>
        (Some (mkTrade
                 ("test-" ++ decimal (Z.of_nat i) ++ "-"
                  ++ base36 (random k'))%string
                 symbol
                 (toFixed2 buyPrice)
                 (match sellPrice with
                  | Some s => if Qeq_bool s 0 then None else Some (toFixed2 s)
                  | None => None
                  end)
                 quantity
                 (JSDate.toISODate t)
                 (JSDate.getTime tradeDate)
                 (Some "Automated 10-Year Test Data"%string)),
         S k')
    | None => (None, S k')
    end.

  (** The loop [for (let i = first; i < first + n; i++)], pushing onto
      [trades]. *)
Fixpoint generateLoop (n : nat) (i : nat) (k : nat) (trades : list Trade)
    : option (list Trade) :=
    match n with
    | O => Some trades
    | S n' =>
        match generateOne i k with
        | (Some t, k') => generateLoop n' (S i) k' (trades ++ [t])
        | (None, _) => None
        end
    end.

  (** [(a, b) => b.timestamp - a.timestamp] *)
Definition byTimestampDesc (a b : Trade) : comparison :=
    JS.signTime (JS.subT (timestamp b) (timestamp a)).

Definition generateLargeDataset : option (list Trade) :=
    option_map (JS.sort byTimestampDesc) (generateLoop 1000 0 0 []).

  (** The initial value of the [trades] state; [saved] is the parsed content
      of the store, if any. *)
Definition initialTrades (saved : option (list Trade))
    : option (list Trade) :=
    let parsed := match saved with Some l => l | None => [] end in
    if (JS.len parsed <? 50)%Z then generateLargeDataset else Some parsed.
End Generator.

End App.

(** ** components/TradeCharts.tsx: the daily and cumulative series

    The sums are taken on exact rationals here; module [Binary64] below
    repeats them on doubles, where the order of the additions matters. *)

Module TradeCharts.

Record Point : Type := mkPoint {
  date : string;
  dailyProfit : Q;
  cumulative : Q
}.

(** [!x] for a [number | undefined]: true on [undefined] and on zero. *)
Definition falsy (x : option Q) : bool :=
  match x with None => true | Some v => Qeq_bool v 0 end.

(** [o[k]] where the property is known to be present. *)
Definition at_ (o : JSObject.t Q) (k : string) : Q :=
  match JSObject.get o k with Some v => v | None => 0%Q end.

(** The body of [trades.forEach] that fills [dailyProfits]. *)
Definition addTrade (dailyProfits : JSObject.t Q) (trade : Trade)
  : JSObject.t Q :=
  match sellPrice trade with
  | Some sellPrice =>
      let profit :=
        ((sellPrice - buyPrice trade) * inject_Z (quantity trade))%Q in
      let dailyProfits :=
        if falsy (JSObject.get dailyProfits (Types.date trade))
        then JSObject.set dailyProfits (Types.date trade) 0%Q
        else dailyProfits in
      JSObject.set dailyProfits (Types.date trade)
        (at_ dailyProfits (Types.date trade) + profit)%Q
  | None => dailyProfits
  end.

Definition dailyProfitsOf (trades : list Trade) : JSObject.t Q :=
  fold_left addTrade trades JSObject.empty.

(** [Object.keys(dailyProfits).sort()]: the default order of strings. *)
Definition sortedDates (dailyProfits : JSObject.t Q) : list string :=
  JS.sort String.compare (JSObject.keys dailyProfits).

(** [sortedDates.map(...)] with the captured [runningTotal]: the state is
    the running total and the points produced so far. *)
Definition emit (dailyProfits : JSObject.t Q) (st : Q * list Point)
    (date : string) : Q * list Point :=
  let runningTotal := (fst st + at_ dailyProfits date)%Q in
  (runningTotal,
   snd st ++ [mkPoint date (at_ dailyProfits date) runningTotal]).

Definition chartData (trades : list Trade) : list Point :=
  let dailyProfits := dailyProfitsOf trades in
  snd (fold_left (emit dailyProfits) (sortedDates dailyProfits) (0%Q, [])).

(** The per-symbol performance: the entry of [perf] for one symbol, and an
    element of the result. *)
Module Perf.
Record t : Type := mk {
  totalProfit : Q;
  count : Z;
  avgProfit : Q
}.
End Perf.

Record Ticker : Type := mkTicker {
  symbol : string;
  avgProfit : JS.number;
  totalProfit : Q
}.

(** [perf[k]] where the property is known to be present. *)
Definition perfAt (perf : JSObject.t Perf.t) (k : string) : Perf.t :=
  match JSObject.get perf k with
  | Some v => v
  | None => Perf.mk 0 0 0
  end.

(** The body of [trades.forEach] that fills [perf]. *)
Definition addPerf (perf : JSObject.t Perf.t) (t : Trade)
  : JSObject.t Perf.t :=
  match sellPrice t with
  | Some sellPrice =>
      let profit := ((sellPrice - buyPrice t) * inject_Z (quantity t))%Q in
      let k := Types.symbol t in
      let perf :=
        match JSObject.get perf k with
        | None => JSObject.set perf k (Perf.mk 0 0 0)
        | Some _ => perf
        end in
      let perf :=
        let e := perfAt perf k in
        JSObject.set perf k
          (Perf.mk (Perf.totalProfit e + profit)%Q (Perf.count e)
                   (Perf.avgProfit e)) in
      let e := perfAt perf k in
      JSObject.set perf k
        (Perf.mk (Perf.totalProfit e) (Perf.count e + 1)%Z (Perf.avgProfit e))
  | None => perf
  end.

Definition perfOf (trades : list Trade) : JSObject.t Perf.t :=
  fold_left addPerf trades JSObject.empty.

(** The object literal built for one symbol. *)
Definition tickerOf (perf : JSObject.t Perf.t) (symbol : string) : Ticker :=
  mkTicker symbol
    (JS.div (Perf.totalProfit (perfAt perf symbol))
            (inject_Z (Perf.count (perfAt perf symbol))))
    (Perf.totalProfit (perfAt perf symbol)).

(** [(a, b) => b.totalProfit - a.totalProfit]: best performers first. *)
Definition byTotalProfitDesc (a b : Ticker) : comparison :=
  JS.signQ (totalProfit b - totalProfit a)%Q.

Definition tickerPerformance (trades : list Trade) : list Ticker :=
  let perf := perfOf trades in
  JS.sort byTotalProfitDesc (map (tickerOf perf) (JSObject.keys perf)).

End TradeCharts.

(** ** The profit sums on binary64 numbers

    The additions of [stats] (App.tsx) and of [chartData]
    (components/TradeCharts.tsx) as JavaScript performs them, on IEEE
    binary64 numbers with rounding to nearest.  A price is read as the
    double nearest to its decimal value and a quantity as the double of the
    integer. *)

Module Binary64.

Import PrimFloat.

(** The double of an integer (exact below [2^53]). *)
Definition ofZ (z : Z) : float :=
  match z with
  | Z0 => zero
  | Zpos _ => of_uint63 (Uint63.of_Z z)
  | Zneg p => opp (of_uint63 (Uint63.of_Z (Zpos p)))
  end.

(** The double nearest to a rational whose numerator and denominator are
    below [2^53]: the correctly rounded quotient of the two. *)
Definition ofQ (q : Q) : float := div (ofZ (Qnum q)) (ofZ (Zpos (Qden q))).

(** [(sellPrice - t.buyPrice) * t.quantity] *)
Definition profitOf (t : Trade) : float :=
  mul (sub (ofQ (JS.asNumber (sellPrice t))) (ofQ (buyPrice t)))
      (ofZ (quantity t)).

(** The [totalProfit] of [stats]: [totalProfit += profit] over the closed
    trades in list order, and 0 from the early return on an empty list. *)
Definition totalProfit (filteredTrades : list Trade) : float :=
  if (JS.len filteredTrades =? 0)%Z then zero
  else
    fold_left (fun totalProfit t => add totalProfit (profitOf t))
              (App.closedTrades filteredTrades) zero.

Record Point : Type := mkPoint {
  date : string;
  dailyProfit : float;
  cumulative : float
}.

(** [!x] for a [number | undefined]: true on [undefined], on a zero and on
    [NaN]. *)
Definition falsy (x : option float) : bool :=
  match x with None => true | Some v => eqb v zero || is_nan v end.

Definition at_ (o : JSObject.t float) (k : string) : float :=
  match JSObject.get o k with Some v => v | None => nan end.

(** The body of [trades.forEach] that fills [dailyProfits]. *)
Definition addTrade (dailyProfits : JSObject.t float) (trade : Trade)
  : JSObject.t float :=
  match sellPrice trade with
  | Some sellPrice =>
      let profit :=
        mul (sub (ofQ sellPrice) (ofQ (buyPrice trade)))
            (ofZ (quantity trade)) in
      let dailyProfits :=
        if falsy (JSObject.get dailyProfits (Types.date trade))
        then JSObject.set dailyProfits (Types.date trade) zero
        else dailyProfits in
      JSObject.set dailyProfits (Types.date trade)
        (add (at_ dailyProfits (Types.date trade)) profit)
  | None => dailyProfits
  end.

Definition dailyProfitsOf (trades : list Trade) : JSObject.t float :=
  fold_left addTrade trades JSObject.empty.

Definition sortedDates (dailyProfits : JSObject.t float) : list string :=
  JS.sort String.compare (JSObject.keys dailyProfits).

(** [sortedDates.map(...)] with the captured [runningTotal]. *)
Definition emit (dailyProfits : JSObject.t float) (st : float * list Point)
    (date : string) : float * list Point :=
  let runningTotal := add (fst st) (at_ dailyProfits date) in
  (runningTotal,
   snd st ++ [mkPoint date (at_ dailyProfits date) runningTotal]).

Definition chartData (trades : list Trade) : list Point :=
  let dailyProfits := dailyProfitsOf trades in
  snd (fold_left (emit dailyProfits) (sortedDates dailyProfits) (zero, [])).

End Binary64.

(** ** components/PortfolioOverview.tsx: the allocation table *)

Module PortfolioOverview.

Record Summary : Type := mkSummary {
  totalShares : Z;
  investedAmount : Q;
  avgBuyPrice : Q
}.

Record Row : Type := mkRow {
  symbol : string;
  shares : Z;
  amount : Q;
  avgBuy : Q;
  percentage : Q
}.

(** [summary[k]] where the property is known to be present. *)
Definition at_ (summary : JSObject.t Summary) (k : string) : Summary :=
  match JSObject.get summary k with
  | Some v => v
  | None => mkSummary 0 0 0
  end.

(** The body of [trades.forEach] that fills [summary]. *)
Definition addTrade (summary : JSObject.t Summary) (trade : Trade)
  : JSObject.t Summary :=
  let k := Types.symbol trade in
  let summary :=
    match JSObject.get summary k with
    | None => JSObject.set summary k (mkSummary 0 0 0)
    | Some _ => summary
    end in
  let summary :=
    let e := at_ summary k in
    JSObject.set summary k
      (mkSummary (totalShares e + quantity trade)%Z
                 (investedAmount e) (avgBuyPrice e)) in
  let e := at_ summary k in
  JSObject.set summary k
    (mkSummary (totalShares e)
               (investedAmount e + buyPrice trade * inject_Z (quantity trade))%Q
               (avgBuyPrice e)).

Definition summaryOf (trades : list Trade) : JSObject.t Summary :=
  fold_left addTrade trades JSObject.empty.

Definition totalInvestedOf (summary : JSObject.t Summary) : Q :=
  fold_left (fun acc curr => (acc + investedAmount curr)%Q)
            (JSObject.values summary) 0%Q.

(** The object literal built for one symbol.  Division is the field
    division of [Q]; the quotient [avgBuy] of a symbol whose shares add up
    to zero is outside the model. *)
Definition rowOf (summary : JSObject.t Summary) (totalInvested : Q)
    (symbol : string) : Row :=
  let data := at_ summary symbol in
  mkRow symbol
        (totalShares data)
        (investedAmount data)
        (investedAmount data / inject_Z (totalShares data))%Q
        (if JS.Qltb 0 totalInvested
         then (investedAmount data / totalInvested * 100)%Q else 0%Q).

(** [(a, b) => b.amount - a.amount] *)
Definition byAmountDesc (a b : Row) : comparison :=
  JS.signQ (amount b - amount a)%Q.

Definition portfolioData (trades : list Trade) : list Row :=
  let summary := summaryOf trades in
  let totalInvested := totalInvestedOf summary in
  JS.sort byAmountDesc
    (map (rowOf summary totalInvested) (JSObject.keys summary)).

End PortfolioOverview.

(** ** Arrays as shared mutable objects

    [Array.prototype.sort] sorts in place, so an array that two components
    hold is one object: a store maps array references to their current
    contents. *)

Module Store.

Definition ref : Type := nat.
Definition t : Type := list (list Trade).

Definition read (h : t) (r : ref) : list Trade := nth r h [].

Fixpoint write (h : t) (r : ref) (v : list Trade) : t :=
  match h, r with
  | [], _ => []
  | _ :: h', O => v :: h'
  | x :: h', S r' => x :: write h' r' v
  end.

(** A fresh array with the given contents. *)
Definition alloc (h : t) (v : list Trade) : t * ref :=
  (h ++ [v], List.length h).

End Store.

(** ** components/TradeHistory.tsx *)

Module TradeHistory.

(** Rendering the table: on a non-empty array, [trades.sort(...)] sorts the
    array the component was given and the rows are produced from it; the
    result is the store afterwards and the trades in the order shown. *)
Definition render (h : Store.t) (trades : Store.ref)
  : Store.t * list Trade :=
  if (JS.len (Store.read h trades) =? 0)%Z then (h, [])
  else
    let sorted := JS.sort App.byTimestampDesc (Store.read h trades) in
    (Store.write h trades sorted, sorted).

End TradeHistory.

(** ** App.tsx: the arrays the render passes around *)

Module AppRender.

Inductive Tab : Type := dashboard | portfolio | log.

(** The [filteredTrades] memo on the store: [result] starts as the very
    array held in the [trades] state, and each [filter] that runs makes a
    fresh array. *)
Definition filteredTrades (tz now : Z) (h : Store.t) (trades : Store.ref)
    (stockFilter : string) (timeFrame : TimeFrame)
    (customStartDate customEndDate : string) : Store.t * Store.ref :=
  let result := trades in
  let '(h, result) :=
    if JS.truthy stockFilter
    then Store.alloc h
           (filter (App.symbolMatches stockFilter) (Store.read h result))
    else (h, result) in
  match timeFrame with
  | ALL => (h, result)
  | _ =>
      Store.alloc h
        (filter (App.inWindow
                   (App.window tz now timeFrame customStartDate customEndDate))
                (Store.read h result))
  end.

(** The [TradeHistory] element of the active tab: the dashboard hands it
    [filteredTrades.slice(0, 5)], the trade log [filteredTrades] itself,
    and the portfolio tab shows no history. *)
Definition renderHistory (activeTab : Tab) (h : Store.t)
    (filteredTrades : Store.ref) : Store.t * list Trade :=
  match activeTab with
  | dashboard =>
      let '(h, recent) :=
        Store.alloc h (JS.slice0 5 (Store.read h filteredTrades)) in
      TradeHistory.render h recent
  | log => TradeHistory.render h filteredTrades
  | portfolio => (h, [])
  end.

End AppRender.

(** ** Vocabulary of the properties

    The notions the statements of Part II are phrased in, and the concrete
    trade lists they are exercised on. *)

Definition Qsum (l : list Q) : Q := fold_right Qplus 0%Q l.
Definition profits (ts : list Trade) : list Q := map profitOf (filter isClosed ts).
Definition winning (ps : list Q) : list Q := filter (fun p => JS.Qltb 0 p) ps.
Definition isMax (m : Q) (ps : list Q) : Prop := In m ps /\ Forall (fun p => (p <= m)%Q) ps.
Definition isMin (m : Q) (ps : list Q) : Prop := In m ps /\ Forall (fun p => (m <= p)%Q) ps.
Definition cnt {A} (l : list A) : Q := inject_Z (Z.of_nat (List.length l)).

(** The number [n] is finite, of value [q]. *)
Definition hasValue (n : JS.number) (q : Q) : Prop :=
  exists v, n = JS.Num v /\ (v == q)%Q.

Definition scenario1 : list Trade :=
  [ mkTrade "s1-1" "ACME" 100 (Some 150%Q) 10 "2024-01-01" (JSDate.parse "2024-01-01") None;
    mkTrade "s1-2" "ACME" 50 (Some 40%Q) 5 "2024-01-02" (JSDate.parse "2024-01-02") None ].

(** What the scan holds after the closed trades [l]. *)
Definition bestOf (b : JS.number) (ps : list Q) : Prop :=
  match ps with
  | [] => b = JS.NegInfinity
  | _ => exists m, b = JS.Num m /\ isMax m ps
  end.

Definition worstOf (b : JS.number) (ps : list Q) : Prop :=
  match ps with
  | [] => b = JS.Infinity
  | _ => exists m, b = JS.Num m /\ isMin m ps
  end.

Definition scenario2 : list Trade :=
  [ mkTrade "s2-1" "ACME" 10 None 1 "2024-01-01" (JSDate.parse "2024-01-01") None ].

Definition losing : list Trade :=
  [ mkTrade "l-1" "ACME" 50 (Some 40%Q) 5 "2024-01-02" (JSDate.parse "2024-01-02") None ].

(** [sub] occurs in [s] as a contiguous substring. *)
Definition occursIn (sub s : string) : Prop :=
  exists pre post : string, s = (pre ++ sub ++ post)%string.

(** The timestamp of [t] is a time value within the closed interval
    [[s, e]]. *)
Definition within (s e : Z) (t : Trade) : Prop :=
  exists x : Z, timestamp t = Some x /\ (s <= x <= e)%Z.

(** The test the filter applies to a trade when a window is in force. *)
Definition keeps (stockFilter : string) (w : option Z * option Z)
    (t : Trade) : bool :=
  App.symbolMatches stockFilter t && App.inWindow w t.

(** A position opened on the last day of 1969. *)
Definition preEpoch : Trade :=
  mkTrade "e-1" "ACME" 10 None 1 "1969-12-31" (JSDate.parse "1969-12-31") None.

Section CalendarVocabulary.
Local Open Scope Z_scope.

(** [e] is the last millisecond of the local calendar day [t] lies in. *)
Definition endOfLocalDay (tz t e : Z) : Prop :=
  JSDate.Day (JSDate.LocalTime tz e) = JSDate.Day (JSDate.LocalTime tz t)
  /\ JSDate.TimeWithinDay (JSDate.LocalTime tz e)
     = JSDate.MakeTime 23 59 59 999.

(** A timestamp that is a time value of a Date is at most [maxTime]. *)
Definition validTime (t : Trade) : Prop :=
  forall x, timestamp t = Some x -> x <= JSDate.maxTime.

(** The instant at which the calendar date [d] begins in the local zone. *)
Definition localMidnight (tz : Z) (d : string) : option Z :=
  option_map (JSDate.UTC tz) (JSDate.parse d).

(** The timestamp is what [new Date(date).getTime()] gives. *)
Definition stamped (t : Trade) : Prop :=
  timestamp t = JSDate.parse (date t).

(** The date is the UTC calendar date of the timestamp. *)
Definition datedByInstant (t : Trade) : Prop :=
  exists ms : Z, timestamp t = Some ms /\ date t = JSDate.toISODate ms.

(** Two trades dated as the generator dates them, drawn at 12:00 and at
    23:30 UTC of 2024-02-05. *)
Definition drawnAtNoon : Trade :=
  mkTrade "test-0-abc" "TSLA" 180 None 1 "2024-02-05" (Some 1707134400000)
          (Some "Automated 10-Year Test Data"%string).

Definition drawnLate : Trade :=
  mkTrade "test-1-abc" "TSLA" 180 None 1 "2024-02-05" (Some 1707175800000)
          (Some "Automated 10-Year Test Data"%string).

(** Day number, counted from 0000-03-01, of 1 March of year [y]. *)
Definition marchFirst (y : Z) : Z :=
  let era := y / 400 in
  let yoe := y - era * 400 in
  era * 146097 + yoe * 365 + yoe / 4 - yoe / 100.

(** The time frames other than [ALL] and [CUSTOM]. *)
Definition rolling : list TimeFrame := [TODAY; WEEK; MONTH; YTD; YEAR].

(** The local day number of [now], and the [today] of the filter: local
    midnight of that day. *)
Definition localDay (tz now : Z) : Z := JSDate.Day (now + tz).

Definition localToday (tz now : Z) : option Z :=
  JSDate.ofYMD tz (JSDate.getFullYear tz (Some now))
    (JSDate.getMonth tz (Some now)) (JSDate.getDate tz (Some now)).

(** The least and the greatest number of days a rolling frame starts
    before the local day of [now]. *)
Definition daysBack (tf : TimeFrame) : Z * Z :=
  match tf with
  | WEEK => (7, 7)
  | MONTH => (30, 30)
  | YTD => (0, 365)
  | YEAR => (365, 366)
  | _ => (0, 0)
  end.

End CalendarVocabulary.

(** [x] may stand before [y] under the comparator [cmp]. *)
Definition before {A} (cmp : A -> A -> comparison) (x y : A) : Prop :=
  cmp x y <> Gt.

(** The closed trades of [ts] dated [d]. *)
Definition closedOn (d : string) (ts : list Trade) : list Trade :=
  filter (fun t => isClosed t && (date t =? d)%string) ts.

(** [a] sorts strictly before [b] in the default order of strings. *)
Definition strictlyBefore (a b : string) : Prop := String.compare a b = Lt.

(** The points for the dates [ds] when the running total so far is [r]. *)
Fixpoint running (o : JSObject.t Q) (r : Q) (ds : list string)
  : list TradeCharts.Point :=
  match ds with
  | [] => []
  | d :: ds' =>
      TradeCharts.mkPoint d (TradeCharts.at_ o d) (r + TradeCharts.at_ o d)
      :: running o (r + TradeCharts.at_ o d) ds'
  end.

(** The binary64 points for the dates [ds] when the running total so far is
    [r]. *)
Fixpoint running64 (o : JSObject.t PrimFloat.float) (r : PrimFloat.float)
    (ds : list string) : list Binary64.Point :=
  match ds with
  | [] => []
  | d :: ds' =>
      Binary64.mkPoint d (Binary64.at_ o d)
                       (PrimFloat.add r (Binary64.at_ o d))
      :: running64 o (PrimFloat.add r (Binary64.at_ o d)) ds'
  end.

(** The cumulative value of the last of the points [pre], 0 when there is
    none. *)
Definition previousTotal (pre : list Binary64.Point) : PrimFloat.float :=
  last (map Binary64.cumulative pre) PrimFloat.zero.

(** Three sales listed newest first, with profits 0.3, 6 and 1.2. *)
Definition threeSales : list Trade :=
  [ mkTrade "f-3" "ACME" 1 (Some 1.1%Q) 3 "2024-01-03"
            (JSDate.parse "2024-01-03") None;
    mkTrade "f-2" "ACME" 1 (Some 3%Q) 3 "2024-01-02"
            (JSDate.parse "2024-01-02") None;
    mkTrade "f-1" "ACME" 1 (Some 2.2%Q) 1 "2024-01-01"
            (JSDate.parse "2024-01-01") None ].

(** Capital deployed by one trade: [buyPrice * quantity]. *)
Definition invested (t : Trade) : Q :=
  (buyPrice t * inject_Z (quantity t))%Q.

(** The trades of [ts] in the symbol [s]. *)
Definition tradesIn (s : string) (ts : list Trade) : list Trade :=
  filter (fun t => (symbol t =? s)%string) ts.

Definition Zsum (l : list Z) : Z := fold_right Z.add 0%Z l.

(** The two trades of [scenario1] and an open position in another
    symbol. *)
Definition threeTrades : list Trade :=
  scenario1
  ++ [ mkTrade "s1-3" "BOLT" 20 None 4 "2024-01-03"
               (JSDate.parse "2024-01-03") None ].

Definition sampleData : App.TradeData.t :=
  App.TradeData.mk "ACME" 10 None 1 "2024-02-05" None.

(** A fixed stream of draws and a fixed rendering of identifiers. *)
Definition thirds (k : nat) : Q := 1 # 3.
Definition abc (x : Q) : string := "abc"%string.

(** [a] is not older than [b], as far as both carry a time value. *)
Definition notOlder (a b : Trade) : Prop :=
  forall x y : Z, timestamp a = Some x -> timestamp b = Some y -> (y <= x)%Z.

(** Two trades entered oldest first. *)
Definition oldestFirst : list Trade :=
  [ mkTrade "o-1" "ACME" 10 None 1 "2024-01-01" (Some 1704067200000%Z) None;
    mkTrade "o-2" "ACME" 10 None 1 "2024-01-02" (Some 1704153600000%Z) None ].

(** Draws of [Math.random()] lie in [[0, 1)]. *)
Definition unitDraws (random : nat -> Q) : Prop :=
  forall k, (0 <= random k)%Q /\ (random k < 1)%Q.

(** The closed trades of [ts] in the symbol [s]. *)
Definition closedIn (s : string) (ts : list Trade) : list Trade :=
  filter (fun t => isClosed t && (symbol t =? s)%string) ts.

(* ================================================================== *)
(** * Part II.  Properties                                              *)
(* ================================================================== *)

(** ** The statistics *)

Lemma Qltb_lt (x y : Q) : JS.Qltb x y = true <-> (x < y)%Q.
Proof.
  unfold JS.Qltb. rewrite negb_true_iff.
  split; intro H.
  - apply Qnot_le_lt. intro Hle. apply Qle_bool_iff in Hle. congruence.
  - destruct (Qle_bool y x) eqn:E; [|reflexivity].
    apply Qle_bool_iff in E. exfalso. exact (Qlt_not_le _ _ H E).
Qed.

Lemma Qltb_ge (x y : Q) : JS.Qltb x y = false <-> (y <= x)%Q.
Proof.
  unfold JS.Qltb. rewrite negb_false_iff. apply Qle_bool_iff.
Qed.

Lemma Qsum_app (l1 l2 : list Q) : (Qsum (l1 ++ l2) == Qsum l1 + Qsum l2)%Q.
Proof.
  induction l1 as [|a l1 IH]; simpl.
  - ring.
  - rewrite IH. ring.
Qed.

Lemma fold_left_snoc {A B} (f : A -> B -> A) l x a :
  fold_left f (l ++ [x]) a = f (fold_left f l a) x.
Proof. now rewrite fold_left_app. Qed.

Lemma bestOf_snoc b ps p :
  bestOf b ps ->
  bestOf (if JS.gt p b then JS.Num p else b) (ps ++ [p]).
Proof.
  unfold bestOf. intro H.
  destruct ps as [|q ps].
  - subst b. simpl. exists p. split; [reflexivity|]. split; [now left|].
    constructor; [apply Qle_refl|constructor].
  - destruct H as (m & -> & Hin & Hall). simpl JS.gt.
    change ((q :: ps) ++ [p]) with (q :: (ps ++ [p])).
    assert (Hne : exists m', (if JS.Qltb m p then JS.Num p else JS.Num m) = JS.Num m'
                     /\ isMax m' ((q :: ps) ++ [p])).
    { destruct (JS.Qltb m p) eqn:E.
      - apply Qltb_lt in E. exists p. split; [reflexivity|]. split.
        + apply in_or_app. right. now left.
        + apply Forall_app. split.
          * eapply Forall_impl; [|exact Hall]. simpl. intros a Ha.
            apply Qle_trans with m; [exact Ha|now apply Qlt_le_weak].
          * constructor; [apply Qle_refl|constructor].
      - apply Qltb_ge in E. exists m. split; [reflexivity|]. split.
        + apply in_or_app. now left.
        + apply Forall_app. split; [exact Hall|].
          constructor; [exact E|constructor]. }
    exact Hne.
Qed.

Lemma worstOf_snoc b ps p :
  worstOf b ps ->
  worstOf (if JS.lt p b then JS.Num p else b) (ps ++ [p]).
Proof.
  unfold worstOf. intro H.
  destruct ps as [|q ps].
  - subst b. simpl. exists p. split; [reflexivity|]. split; [now left|].
    constructor; [apply Qle_refl|constructor].
  - destruct H as (m & -> & Hin & Hall). simpl JS.lt.
    change ((q :: ps) ++ [p]) with (q :: (ps ++ [p])).
    assert (Hne : exists m', (if JS.Qltb p m then JS.Num p else JS.Num m) = JS.Num m'
                     /\ isMin m' ((q :: ps) ++ [p])).
    { destruct (JS.Qltb p m) eqn:E.
      - apply Qltb_lt in E. exists p. split; [reflexivity|]. split.
        + apply in_or_app. right. now left.
        + apply Forall_app. split.
          * eapply Forall_impl; [|exact Hall]. simpl. intros a Ha.
            apply Qle_trans with m; [now apply Qlt_le_weak|exact Ha].
          * constructor; [apply Qle_refl|constructor].
      - apply Qltb_ge in E. exists m. split; [reflexivity|]. split.
        + apply in_or_app. now left.
        + apply Forall_app. split; [exact Hall|].
          constructor; [exact E|constructor]. }
    exact Hne.
Qed.

Lemma scan_spec (l : list Trade) :
  let s := fold_left App.scanStep l App.scan0 in
  let ps := map profitOf l in
  (App.sTotalProfit s == Qsum ps)%Q
  /\ (App.sTotalSellPrice s == Qsum (map (fun t => JS.asNumber (sellPrice t)) l))%Q
  /\ App.sWins s = Z.of_nat (List.length (winning ps))
  /\ bestOf (App.sBest s) ps
  /\ worstOf (App.sWorst s) ps.
Proof.
  induction l as [|t l IH] using rev_ind.
  - simpl. repeat split; reflexivity.
  - cbv zeta in *. rewrite fold_left_snoc, !map_app. simpl map.
    destruct IH as (Hp & Hs & Hw & Hb & Hwo).
    set (s := fold_left App.scanStep l App.scan0) in *.
    unfold App.scanStep. cbn [App.sTotalProfit App.sTotalSellPrice App.sWins App.sBest App.sWorst].
    fold (profitOf t).
    repeat split.
    + rewrite Qsum_app, Hp. simpl. ring.
    + rewrite Qsum_app, Hs. simpl. ring.
    + unfold winning in *. rewrite filter_app, length_app. simpl.
      destruct (JS.Qltb 0 (profitOf t)); simpl; lia.
    + now apply bestOf_snoc.
    + now apply worstOf_snoc.
Qed.

Lemma len_pos {A} (l : list A) : l <> [] -> (0 <? JS.len l)%Z = true.
Proof.
  destruct l; [congruence|]. intros _. unfold JS.len. simpl List.length.
  apply Z.ltb_lt. lia.
Qed.

Lemma len_nil_iff {A} (l : list A) : (JS.len l =? 0)%Z = true <-> l = [].
Proof.
  unfold JS.len. rewrite Z.eqb_eq. destruct l; simpl; split; intros; try congruence; try lia.
Qed.

Lemma div_Num (x y : Q) : ~ (y == 0)%Q -> JS.div x y = JS.Num (x / y).
Proof.
  intro H. unfold JS.div. destruct (Qeq_bool y 0) eqn:E; [|reflexivity].
  apply Qeq_bool_iff in E. contradiction.
Qed.

Lemma inject_len_nonzero {A} (l : list A) :
  l <> [] -> ~ (inject_Z (JS.len l) == 0)%Q.
Proof.
  destruct l; [congruence|]. intros _. unfold JS.len, Qeq. simpl. lia.
Qed.

Lemma stats_nonempty (ts : list Trade) :
  App.closedTrades ts <> [] ->
  let s := fold_left App.scanStep (App.closedTrades ts) App.scan0 in
  totalProfit (App.stats ts) = App.sTotalProfit s
  /\ winRate (App.stats ts)
     = JS.Num (inject_Z (App.sWins s)
               / inject_Z (JS.len (App.closedTrades ts)) * 100)%Q
  /\ bestTrade (App.stats ts)
     = (if JS.isNegInfinity (App.sBest s) then JS.Num 0 else App.sBest s)
  /\ worstTrade (App.stats ts)
     = (if JS.isInfinity (App.sWorst s) then JS.Num 0 else App.sWorst s).
Proof.
  intros Hne s. unfold App.stats.
  destruct (JS.len ts =? 0)%Z eqn:E.
  - apply len_nil_iff in E. subst ts. now elim Hne.
  - cbv zeta. rewrite (len_pos Hne).
    cbn [totalProfit winRate bestTrade worstTrade].
    rewrite (div_Num _ (inject_len_nonzero Hne)). cbn [JS.times].
    repeat split; reflexivity.
Qed.

Lemma stats_totalProfit (ts : list Trade) :
  totalProfit (App.stats ts)
  = App.sTotalProfit (fold_left App.scanStep (App.closedTrades ts) App.scan0).
Proof.
  unfold App.stats. destruct (JS.len ts =? 0)%Z eqn:E.
  - apply len_nil_iff in E. subst ts. reflexivity.
  - reflexivity.
Qed.

Lemma totalProfit_sum (ts : list Trade) :
  (totalProfit (App.stats ts) == Qsum (profits ts))%Q.
Proof.
  rewrite stats_totalProfit. unfold profits. fold (App.closedTrades ts).
  pose proof (scan_spec (App.closedTrades ts)) as H. cbv zeta in H.
  apply H.
Qed.



Lemma closedTrades_nil_of_open (ts : list Trade) :
  Forall (fun t => sellPrice t = None) ts -> App.closedTrades ts = [].
Proof.
  unfold App.closedTrades. induction 1 as [|t ts Ht _ IH]; simpl.
  - reflexivity.
  - unfold isClosed at 1. rewrite Ht. exact IH.
Qed.

Lemma stats_of_no_closed (ts : list Trade) :
  App.closedTrades ts = [] ->
  let st := App.stats ts in
  totalProfit st = 0%Q /\ avgSellPrice st = JS.Num 0
  /\ avgProfitPerTrade st = JS.Num 0 /\ winRate st = JS.Num 0
  /\ bestTrade st = JS.Num 0 /\ worstTrade st = JS.Num 0.
Proof.
  intros H st. subst st. unfold App.stats.
  destruct (JS.len ts =? 0)%Z.
  - cbn. repeat split; reflexivity.
  - cbv zeta. rewrite H. cbn. repeat split; reflexivity.
Qed.

Lemma clamped_best (b : JS.number) (ps : list Q) :
  bestOf b ps -> exists v, (if JS.isNegInfinity b then JS.Num 0 else b) = JS.Num v.
Proof.
  unfold bestOf. destruct ps.
  - intros ->. now exists 0%Q.
  - intros (m & -> & _). now exists m.
Qed.

Lemma clamped_worst (b : JS.number) (ps : list Q) :
  worstOf b ps -> exists v, (if JS.isInfinity b then JS.Num 0 else b) = JS.Num v.
Proof.
  unfold worstOf. destruct ps.
  - intros ->. now exists 0%Q.
  - intros (m & -> & _). now exists m.
Qed.

Lemma guarded_div (n : Z) (x : Q) :
  (0 <= n)%Z ->
  exists v, (if (0 <? n)%Z then JS.div x (inject_Z n) else JS.Num 0) = JS.Num v.
Proof.
  intro Hn. destruct (0 <? n)%Z eqn:E.
  - apply Z.ltb_lt in E. rewrite div_Num.
    + now eexists.
    + unfold Qeq. simpl. lia.
  - now exists 0%Q.
Qed.

Lemma guarded_rate (n : Z) (x : Q) :
  (0 <= n)%Z ->
  exists v, (if (0 <? n)%Z then JS.times (JS.div x (inject_Z n)) 100
             else JS.Num 0) = JS.Num v.
Proof.
  intro Hn. destruct (0 <? n)%Z eqn:E.
  - apply Z.ltb_lt in E. rewrite div_Num.
    + now eexists.
    + unfold Qeq. simpl. lia.
  - now exists 0%Q.
Qed.

Lemma len_nonneg {A} (l : list A) : (0 <= JS.len l)%Z.
Proof. unfold JS.len. lia. Qed.

Lemma stats_finite (ts : list Trade) :
  let st := App.stats ts in
  (exists v, avgBuyPrice st = JS.Num v)
  /\ (exists v, avgSellPrice st = JS.Num v)
  /\ (exists v, avgProfitPerTrade st = JS.Num v)
  /\ (exists v, winRate st = JS.Num v)
  /\ (exists v, bestTrade st = JS.Num v)
  /\ (exists v, worstTrade st = JS.Num v).
Proof.
  intro st. subst st. unfold App.stats.
  destruct (JS.len ts =? 0)%Z.
  - cbn. repeat split; now exists 0%Q.
  - cbv zeta.
    cbn [avgBuyPrice avgSellPrice avgProfitPerTrade winRate bestTrade worstTrade].
    pose proof (scan_spec (App.closedTrades ts)) as H. cbv zeta in H.
    destruct H as (_ & _ & _ & Hb & Hw).
    split; [apply guarded_div, len_nonneg|].
    split; [apply guarded_div, len_nonneg|].
    split; [apply guarded_div, len_nonneg|].
    split; [apply guarded_rate, len_nonneg|].
    split; [exact (@clamped_best _ _ Hb)|exact (@clamped_worst _ _ Hw)].
Qed.

(** C2.  The statistics are defined on every list, and on every list the
    four quotients and the two extremes are finite numbers: no division by
    zero reaches the result as [NaN] or an infinity, and no sentinel of the
    scan is returned.  On the empty list every field is 0; on a list
    holding only open positions [totalProfit], [avgSellPrice],
    [avgProfitPerTrade], [winRate], [bestTrade] and [worstTrade] are
    exactly 0, where the unguarded quotients would be [0 / 0].  Scenario 2
    is the list of one open position. *)
Theorem stats_never_fails_zero_without_closed (ts : list Trade) :
  (let st := App.stats ts in
   (exists v, avgBuyPrice st = JS.Num v)
   /\ (exists v, avgSellPrice st = JS.Num v)
   /\ (exists v, avgProfitPerTrade st = JS.Num v)
   /\ (exists v, winRate st = JS.Num v)
   /\ (exists v, bestTrade st = JS.Num v)
   /\ (exists v, worstTrade st = JS.Num v))
  /\ App.stats [] = mkTradeStats 0 (JS.Num 0) (JS.Num 0) (JS.Num 0) (JS.Num 0)
                                 0 0 (JS.Num 0) (JS.Num 0)
  /\ (Forall (fun t => sellPrice t = None) ts ->
      let st := App.stats ts in
      totalProfit st = 0%Q /\ avgSellPrice st = JS.Num 0
      /\ avgProfitPerTrade st = JS.Num 0 /\ winRate st = JS.Num 0
      /\ bestTrade st = JS.Num 0 /\ worstTrade st = JS.Num 0)
  /\ (openPositions (App.stats scenario2) = 1%Z
      /\ totalProfit (App.stats scenario2) = 0%Q
      /\ winRate (App.stats scenario2) = JS.Num 0
      /\ bestTrade (App.stats scenario2) = JS.Num 0
      /\ worstTrade (App.stats scenario2) = JS.Num 0).
Proof.
  split; [apply stats_finite|]. split; [reflexivity|]. split.
  - intro H. apply stats_of_no_closed. now apply closedTrades_nil_of_open.
  - repeat split; reflexivity.
Qed.

Lemma stats_never_fails_zero_without_closed_witness :
  Forall (fun t => sellPrice t = None) scenario2
  /\ bestTrade (App.stats scenario2) = JS.Num 0.
Proof.
  assert (H : Forall (fun t => sellPrice t = None) scenario2)
    by (repeat constructor).
  split; [exact H|].
  exact (proj1 (proj2 (proj2 (proj2 (proj2
    (proj1 (proj2 (proj2 (stats_never_fails_zero_without_closed scenario2)))
       H)))))).
Defined.

(** C3 as stated does not hold: one closed trade sold at a loss gives a
    [winRate] of 0 although the list has a closed trade. *)
Lemma winRate_zero_with_closed_trade :
  winRate (App.stats losing) = JS.Num 0
  /\ App.closedTrades losing <> []
  /\ ~ (hasValue (winRate (App.stats losing)) 0
        <-> App.closedTrades losing = []).
Proof.
  assert (E : winRate (App.stats losing) = JS.Num 0) by (vm_compute; reflexivity).
  split; [exact E|]. split; [discriminate|].
  intros [H _].
  assert (V : hasValue (winRate (App.stats losing)) 0).
  { exists 0%Q. split; [exact E|reflexivity]. }
  specialize (H V). discriminate H.
Qed.

Lemma winning_length_le (ps : list Q) :
  (List.length (winning ps) <= List.length ps)%nat.
Proof. unfold winning. apply filter_length_le. Qed.

Lemma winning_nil_iff (ps : list Q) :
  winning ps = [] <-> Forall (fun p => (p <= 0)%Q) ps.
Proof.
  unfold winning. induction ps as [|p ps IH]; simpl.
  - split; [constructor|reflexivity].
  - destruct (JS.Qltb 0 p) eqn:E.
    + split; [discriminate|]. intro H. inversion H; subst.
      apply Qltb_lt in E. exfalso. exact (Qlt_not_le _ _ E H2).
    + apply Qltb_ge in E. rewrite IH. split.
      * intro H. now constructor.
      * intro H. now inversion H.
Qed.

Lemma ratio_bounds (w n : Z) :
  (0 <= w <= n)%Z -> (0 < n)%Z ->
  (0 <= inject_Z w / inject_Z n * 100 <= 100)%Q
  /\ ((inject_Z w / inject_Z n * 100 == 0)%Q <-> w = 0%Z).
Proof.
  intros [Hw Hwn] Hn.
  assert (Hb : (0 < inject_Z n)%Q) by (unfold Qlt; simpl; lia).
  assert (Ha : (0 <= inject_Z w)%Q) by (unfold Qle; simpl; lia).
  assert (Hab : (inject_Z w <= inject_Z n)%Q) by (unfold Qle; simpl; lia).
  assert (H0 : (0 <= inject_Z w / inject_Z n)%Q).
  { apply Qle_shift_div_l; [exact Hb|]. rewrite Qmult_0_l. exact Ha. }
  assert (H1 : (inject_Z w / inject_Z n <= 1)%Q).
  { apply Qle_shift_div_r; [exact Hb|]. rewrite Qmult_1_l. exact Hab. }
  split.
  - set (x := (inject_Z w / inject_Z n)%Q) in *. split; lra.
  - split.
    + intro E.
      assert (Ez : (inject_Z w == 0)%Q).
      { assert (Hn0 : ~ (inject_Z n == 0)%Q) by (intro X; rewrite X in Hb; now apply (Qlt_irrefl 0)).
        setoid_replace (inject_Z w) with ((inject_Z w / inject_Z n * 100) * inject_Z n / 100)%Q
          by (field; exact Hn0).
        rewrite E. field. }
      unfold Qeq in Ez. simpl in Ez. lia.
    + intros ->. unfold Qdiv. change (inject_Z 0) with 0%Q. ring.
Qed.

(** C3, amended.  For every trade list [winRate] is a finite number in
    [0, 100], and it is 0 exactly when no closed trade has a strictly
    positive profit; in particular it is 0 when there are no closed
    trades. *)
Theorem winRate_range_zero_iff_no_win (ts : list Trade) :
  exists wr, winRate (App.stats ts) = JS.Num wr
  /\ (0 <= wr <= 100)%Q
  /\ ((wr == 0)%Q <-> Forall (fun p => (p <= 0)%Q) (profits ts))
  /\ (profits ts = [] -> (wr == 0)%Q).
Proof.
  unfold profits. fold (App.closedTrades ts).
  destruct (App.closedTrades ts) as [|c cs] eqn:Ec.
  - destruct (stats_of_no_closed ts Ec) as (_ & _ & _ & Hwr & _).
    exists 0%Q. split; [exact Hwr|]. simpl. split; [split; lra|].
    split; [|reflexivity]. split; [constructor|reflexivity].
  - assert (Hc : App.closedTrades ts <> []) by (rewrite Ec; discriminate).
    destruct (stats_nonempty ts Hc) as (_ & Hwr & _).
    rewrite Hwr, Ec. clear Hwr. eexists. split; [reflexivity|].
    pose proof (scan_spec (c :: cs)) as H. cbv zeta in H.
    destruct H as (_ & _ & Hw & _). rewrite Hw.
    set (ps := map profitOf (c :: cs)).
    assert (Hlen : JS.len (c :: cs) = Z.of_nat (List.length ps))
      by (unfold JS.len, ps; now rewrite length_map).
    rewrite Hlen.
    pose proof (winning_length_le ps) as Hle.
    assert (Hpos : (0 < Z.of_nat (List.length ps))%Z) by (unfold ps; simpl; lia).
    destruct (@ratio_bounds (Z.of_nat (List.length (winning ps)))
                (Z.of_nat (List.length ps))) as [Hr Hz]; [lia|exact Hpos|].
    split; [exact Hr|]. split.
    + rewrite Hz, <- winning_nil_iff. split.
      * intro E. destruct (winning ps); [reflexivity|simpl in E; lia].
      * intros ->. reflexivity.
    + discriminate.
Qed.

Lemma winRate_range_zero_iff_no_win_witness :
  profits scenario2 = [] /\ hasValue (winRate (App.stats scenario2)) 0.
Proof.
  assert (H : profits scenario2 = []) by reflexivity.
  split; [exact H|].
  destruct (winRate_range_zero_iff_no_win scenario2) as (wr & E & _ & _ & Hz).
  exists wr. split; [exact E|exact (Hz H)].
Defined.

(** ** The filter *)

Lemma prefix_iff (s1 s2 : string) :
  String.prefix s1 s2 = true <-> exists post, s2 = (s1 ++ post)%string.
Proof.
  revert s2. induction s1 as [|a s1 IH]; intros s2.
  - simpl. destruct s2; simpl; split; intros; eauto.
  - destruct s2 as [|b s2]; simpl.
    + split; [discriminate|]. intros [post H]. discriminate H.
    + destruct (ascii_dec a b) as [->|Hab].
      * rewrite IH. split; intros [post H]; exists post.
        -- now rewrite H.
        -- now inversion H.
      * split; [discriminate|]. intros [post H]. inversion H. congruence.
Qed.

Lemma includes_unfold (hay needle : string) :
  JS.includes hay needle =
  if String.prefix needle hay then true
  else match hay with
       | EmptyString => false
       | String _ hay' => JS.includes hay' needle
       end.
Proof. destruct hay; reflexivity. Qed.

Lemma includes_iff (hay needle : string) :
  JS.includes hay needle = true <-> occursIn needle hay.
Proof.
  unfold occursIn. split.
  - induction hay as [|c hay IH]; rewrite includes_unfold;
      destruct (String.prefix needle _) eqn:E.
    + intros _. apply prefix_iff in E. destruct E as [post E].
      exists ""%string, post. exact E.
    + discriminate.
    + intros _. apply prefix_iff in E. destruct E as [post E].
      exists ""%string, post. exact E.
    + intro H. destruct (IH H) as (pre & post & Hp).
      exists (String c pre), post. simpl. now rewrite Hp.
  - intros (pre & post & H). revert hay H.
    induction pre as [|c pre IH]; intros hay H; rewrite includes_unfold.
    + simpl in H. assert (E : String.prefix needle hay = true)
        by (apply prefix_iff; now exists post).
      now rewrite E.
    + destruct (String.prefix needle hay); [reflexivity|].
      subst hay. simpl. now apply IH.
Qed.

Lemma includes_empty (hay : string) : JS.includes hay "" = true.
Proof. rewrite includes_unfold. now destruct hay. Qed.

Lemma symbolMatches_empty (t : Trade) : App.symbolMatches "" t = true.
Proof. unfold App.symbolMatches. simpl. apply includes_empty. Qed.

Lemma filter_true {A} (f : A -> bool) (l : list A) :
  (forall x, f x = true) -> filter f l = l.
Proof.
  intro H. induction l as [|a l IH]; simpl; [reflexivity|].
  now rewrite H, IH.
Qed.

Lemma filter_filter {A} (f g : A -> bool) (l : list A) :
  filter g (filter f l) = filter (fun x => f x && g x) l.
Proof.
  induction l as [|a l IH]; simpl; [reflexivity|].
  destruct (f a); simpl; [destruct (g a)|]; now rewrite IH.
Qed.

(** The symbol stage alone, whether or not the filter text is empty. *)
Lemma symbol_stage (stockFilter : string) (trades : list Trade) :
  (if JS.truthy stockFilter
   then filter (App.symbolMatches stockFilter) trades else trades)
  = filter (App.symbolMatches stockFilter) trades.
Proof.
  destruct stockFilter as [|c s]; simpl; [|reflexivity].
  symmetry. apply filter_true. intro t. apply symbolMatches_empty.
Qed.

Lemma filteredTrades_ALL tz now trades stockFilter cs ce :
  App.filteredTrades tz now trades stockFilter ALL cs ce
  = filter (App.symbolMatches stockFilter) trades.
Proof. unfold App.filteredTrades. apply symbol_stage. Qed.

Lemma filteredTrades_window tz now trades stockFilter tf cs ce :
  tf <> ALL ->
  App.filteredTrades tz now trades stockFilter tf cs ce
  = filter (keeps stockFilter (App.window tz now tf cs ce)) trades.
Proof.
  intro H. unfold App.filteredTrades. cbv zeta. rewrite symbol_stage.
  unfold keeps. destruct tf; try congruence; apply filter_filter.
Qed.

Lemma inWindow_iff (s e : Z) (t : Trade) :
  App.inWindow (Some s, Some e) t = true <-> within s e t.
Proof.
  unfold App.inWindow, within, JSDate.getTime, JS.geT, JS.leT. simpl.
  destruct (timestamp t) as [x|].
  - rewrite andb_true_iff, !Z.leb_le. split.
    + intros [H1 H2]. exists x. now repeat split.
    + intros (y & Hy & H1 & H2). inversion Hy. subst. now split.
  - split; [discriminate|]. intros (y & Hy & _). discriminate.
Qed.

Lemma keeps_iff stockFilter (s e : Z) (t : Trade) :
  keeps stockFilter (Some s, Some e) t = true
  <-> occursIn (JS.toUpperCase stockFilter) (symbol t) /\ within s e t.
Proof.
  unfold keeps. rewrite andb_true_iff, inWindow_iff.
  unfold App.symbolMatches. now rewrite includes_iff.
Qed.

(** The store version of the memo creates arrays but writes to none. *)
Lemma read_alloc_old (h : Store.t) (v : list Trade) (r : Store.ref) :
  (r < List.length h)%nat -> Store.read (fst (Store.alloc h v)) r = Store.read h r.
Proof. intro H. unfold Store.read, Store.alloc. simpl. now rewrite app_nth1. Qed.

Lemma read_alloc_new (h : Store.t) (v : list Trade) :
  Store.read (fst (Store.alloc h v)) (snd (Store.alloc h v)) = v.
Proof.
  unfold Store.read, Store.alloc. simpl.
  rewrite app_nth2 by lia. now rewrite Nat.sub_diag.
Qed.

Lemma alloc_length (h : Store.t) (v : list Trade) :
  List.length (fst (Store.alloc h v)) = S (List.length h).
Proof. unfold Store.alloc. simpl. rewrite length_app. simpl. lia. Qed.

Lemma memo_on_store tz now (h : Store.t) (trades : Store.ref)
    stockFilter tf cs ce :
  (trades < List.length h)%nat ->
  let out := AppRender.filteredTrades tz now h trades stockFilter tf cs ce in
  (forall r, (r < List.length h)%nat ->
             Store.read (fst out) r = Store.read h r)
  /\ Store.read (fst out) (snd out)
     = App.filteredTrades tz now (Store.read h trades) stockFilter tf cs ce
  /\ (snd out < List.length (fst out))%nat.
Proof.
  intros Hr out. subst out. unfold AppRender.filteredTrades, App.filteredTrades.
  cbv zeta.
  set (stage1 := if JS.truthy stockFilter then Store.alloc h _ else (h, trades)).
  set (l1 := if JS.truthy stockFilter then filter _ _ else Store.read h trades).
  assert (H1 : (forall r, (r < List.length h)%nat ->
                          Store.read (fst stage1) r = Store.read h r)
               /\ Store.read (fst stage1) (snd stage1) = l1
               /\ (snd stage1 < List.length (fst stage1))%nat
               /\ (List.length h <= List.length (fst stage1))%nat).
  { subst stage1 l1. destruct (JS.truthy stockFilter).
    - split; [intros; now apply read_alloc_old|].
      split; [apply read_alloc_new|]. rewrite alloc_length. simpl. lia.
    - simpl. repeat split; auto. }
  destruct stage1 as [h1 r1]. simpl in H1.
  destruct H1 as (Hold & Hnew & Hlt & Hle).
  assert (H2 : forall f,
    let out := Store.alloc h1 (filter f (Store.read h1 r1)) in
    (forall r, (r < List.length h)%nat ->
               Store.read (fst out) r = Store.read h r)
    /\ Store.read (fst out) (snd out) = filter f l1
    /\ (snd out < List.length (fst out))%nat).
  { intros f out. subst out. split; [|split].
    - intros r Hlt'. rewrite read_alloc_old by lia. now apply Hold.
    - now rewrite read_alloc_new, Hnew.
    - rewrite alloc_length. simpl. lia. }
  destruct tf; cbv iota;
    first [ exact (conj Hold (conj Hnew Hlt)) | exact (H2 _) ].
Qed.

(** C4 as stated does not hold for the time frame [ALL]: its interval is
    [[epoch, largest time value]], yet a trade dated before 1970 is
    returned, because under [ALL] no timestamp is tested. *)
Lemma filteredTrades_ALL_keeps_trade_outside_interval :
  App.window 0 0 ALL "" "" = (Some 0%Z, Some JSDate.maxTime)
  /\ timestamp preEpoch = Some (-86400000)%Z
  /\ ~ within 0 JSDate.maxTime preEpoch
  /\ In preEpoch (App.filteredTrades 0 0 [preEpoch] "" ALL "" "").
Proof.
  split; [reflexivity|]. split; [vm_compute; reflexivity|]. split.
  - intros (x & Hx & Hlo & _).
    assert (E : timestamp preEpoch = Some (-86400000)%Z)
      by (vm_compute; reflexivity).
    rewrite E in Hx. inversion Hx. subst x. lia.
  - rewrite filteredTrades_ALL. simpl. now left.
Qed.

(** C4, amended.  Under [ALL] the filter returns, in their original order,
    exactly the trades whose symbol contains the upper-cased filter text,
    whatever their timestamps.  When another time frame resolves to the
    interval [[s, e]], it returns, in their original order, exactly the
    trades whose symbol contains the upper-cased filter text and whose
    timestamp [x] satisfies [s <= x <= e], both bounds included.  An empty
    filter text lets every symbol pass.  Run on the store, the memo writes
    to no existing array and its result holds the value of the pure
    function, so the same arguments give the same output. *)
Theorem filteredTrades_exact_in_window_symbol_only_under_ALL
    tz now (trades : list Trade) stockFilter tf cs ce :
  let result := App.filteredTrades tz now trades stockFilter tf cs ce in
  (tf = ALL ->
     result = filter (App.symbolMatches stockFilter) trades
     /\ forall t, In t result
                  <-> In t trades
                      /\ occursIn (JS.toUpperCase stockFilter) (symbol t))
  /\ (forall s e : Z,
        tf <> ALL ->
        App.window tz now tf cs ce = (Some s, Some e) ->
        result = filter (keeps stockFilter (Some s, Some e)) trades
        /\ (forall t, keeps stockFilter (Some s, Some e) t = true
                      <-> occursIn (JS.toUpperCase stockFilter) (symbol t)
                          /\ within s e t)
        /\ (forall t, In t result
                      <-> In t trades
                          /\ occursIn (JS.toUpperCase stockFilter) (symbol t)
                          /\ within s e t))
  /\ (forall t, App.symbolMatches "" t = true)
  /\ (forall (h : Store.t) (r : Store.ref),
        (r < List.length h)%nat -> Store.read h r = trades ->
        let out := AppRender.filteredTrades tz now h r stockFilter tf cs ce in
        Store.read (fst out) (snd out) = result
        /\ forall r', (r' < List.length h)%nat ->
                      Store.read (fst out) r' = Store.read h r').
Proof.
  intro result. subst result.
  split; [|split; [|split]].
  - intros ->. rewrite filteredTrades_ALL. split; [reflexivity|].
    intro t. rewrite filter_In. unfold App.symbolMatches.
    rewrite includes_iff. tauto.
  - intros s e Htf Hw.
    rewrite (filteredTrades_window tz now trades stockFilter cs ce Htf), Hw.
    split; [reflexivity|]. split; [intro t; apply keeps_iff|].
    intro t. rewrite filter_In, keeps_iff. tauto.
  - apply symbolMatches_empty.
  - intros h r Hr Hread.
    destruct (memo_on_store tz now h stockFilter tf cs ce Hr) as (Hold & Hnew & _).
    cbv zeta. split; [|exact Hold].
    rewrite Hnew, Hread. reflexivity.
Qed.

(** ** Dates and the time window *)

Section Calendar.
Local Open Scope Z_scope.

Ltac split_ifs :=
  repeat match goal with
  | |- context [if (?a <=? ?b) then _ else _] =>
      let E := fresh "E" in
      destruct (a <=? b) eqn:E;
      [apply Z.leb_le in E | apply Z.leb_gt in E]
  | |- context [if (?a <? ?b) then _ else _] =>
      let E := fresh "E" in
      destruct (a <? b) eqn:E;
      [apply Z.ltb_lt in E | apply Z.ltb_ge in E]
  end.

Ltac calendar :=
  unfold JSDate.civilFromDays, JSDate.daysFromCivil; cbv zeta;
  split_ifs; Z.div_mod_to_equations; lia.

(** The calendar date of a day number names that day. *)
Lemma daysFromCivil_civilFromDays (z : Z) :
  let '(y, m, d) := JSDate.civilFromDays z in
  JSDate.daysFromCivil y m d = z /\ 1 <= m <= 12 /\ 1 <= d <= 31.
Proof. calendar. Qed.

Lemma MakeDay_of_time (t : Z) :
  JSDate.MakeDay (JSDate.YearFromTime t) (JSDate.MonthFromTime t)
                 (JSDate.DateFromTime t) = JSDate.Day t.
Proof.
  unfold JSDate.YearFromTime, JSDate.MonthFromTime, JSDate.DateFromTime.
  pose proof (daysFromCivil_civilFromDays (JSDate.Day t)) as H.
  destruct (JSDate.civilFromDays (JSDate.Day t)) as [[y m] d]. simpl.
  destruct H as (H & Hm & Hd). unfold JSDate.MakeDay. cbv zeta.
  replace ((m - 1) / 12) with 0 by (Z.div_mod_to_equations; lia).
  replace ((m - 1) mod 12 + 1) with m by (Z.div_mod_to_equations; lia).
  rewrite Z.add_0_r, <- H. unfold JSDate.daysFromCivil. cbv zeta. split_ifs; lia.
Qed.

(** [MakeDay] is linear in the day of month. *)
Lemma MakeDay_shift (y m d k : Z) :
  JSDate.MakeDay y m (d - k) = JSDate.MakeDay y m d - k.
Proof. unfold JSDate.MakeDay. cbv zeta. lia. Qed.

Lemma TimeClip_in_range (t : Z) :
  - JSDate.maxTime <= t <= JSDate.maxTime -> JSDate.TimeClip t = Some t.
Proof.
  intro H. unfold JSDate.TimeClip.
  destruct (JSDate.maxTime <? Z.abs t) eqn:E; [|reflexivity].
  apply Z.ltb_lt in E. lia.
Qed.

Lemma TimeClip_Some (t x : Z) :
  JSDate.TimeClip t = Some x -> x = t /\ - JSDate.maxTime <= t <= JSDate.maxTime.
Proof.
  unfold JSDate.TimeClip. destruct (JSDate.maxTime <? Z.abs t) eqn:E;
    [discriminate|]. apply Z.ltb_ge in E. intro H. inversion H. lia.
Qed.

(** [setHours(23, 59, 59, 999)] moves a Date to the last millisecond of the
    local calendar day it lies in, which is less than a day later. *)
Lemma setHours_end_of_day (tz t : Z) :
  - JSDate.maxTime <= t <= JSDate.maxTime - JSDate.msPerDay ->
  exists e,
    JSDate.setHours tz (Some t) 23 59 59 999 = Some e
    /\ JSDate.Day (JSDate.LocalTime tz e) = JSDate.Day (JSDate.LocalTime tz t)
    /\ JSDate.TimeWithinDay (JSDate.LocalTime tz e)
       = JSDate.MakeTime 23 59 59 999
    /\ t <= e < t + JSDate.msPerDay.
Proof.
  intro Ht. unfold JSDate.setHours. cbv zeta.
  set (e := JSDate.UTC tz (JSDate.MakeDate (JSDate.Day (JSDate.LocalTime tz t))
                             (JSDate.MakeTime 23 59 59 999))).
  assert (He : t <= e < t + JSDate.msPerDay
               /\ JSDate.Day (JSDate.LocalTime tz e) = JSDate.Day (JSDate.LocalTime tz t)
               /\ JSDate.TimeWithinDay (JSDate.LocalTime tz e) = JSDate.MakeTime 23 59 59 999).
  { subst e. unfold JSDate.UTC, JSDate.MakeDate, JSDate.Day, JSDate.TimeWithinDay,
      JSDate.LocalTime, JSDate.MakeTime, JSDate.msPerDay.
    Z.div_mod_to_equations. lia. }
  exists e. destruct He as (H1 & H2 & H3).
  split; [|now repeat split].
  apply TimeClip_in_range. unfold JSDate.maxTime, JSDate.msPerDay in *. lia.
Qed.

(** Digits read from a string of bounded length. *)
Lemma digitOf_range (c : ascii) (n : Z) :
  JSDate.digitOf c = Some n -> 0 <= n <= 9.
Proof.
  unfold JSDate.digitOf. cbv zeta.
  destruct (48 <=? Z.of_nat (nat_of_ascii c)) eqn:E1;
  destruct (Z.of_nat (nat_of_ascii c) <=? 57) eqn:E2; simpl; try discriminate.
  apply Z.leb_le in E1. apply Z.leb_le in E2. intro H. inversion H. lia.
Qed.

Lemma digitsOf_range (s : string) (acc n : Z) :
  JSDate.digitsOf acc s = Some n ->
  acc * 10 ^ Z.of_nat (String.length s) <= n
  < (acc + 1) * 10 ^ Z.of_nat (String.length s).
Proof.
  revert acc. induction s as [|c s IH]; intros acc; cbn [JSDate.digitsOf].
  - intro H. inversion H. simpl. lia.
  - destruct (JSDate.digitOf c) as [d|] eqn:Ed; [|discriminate].
    apply digitOf_range in Ed. intro H. apply IH in H.
    change (String.length (String c s)) with (S (String.length s)).
    rewrite Nat2Z.inj_succ, Z.pow_succ_r by lia.
    set (p := 10 ^ Z.of_nat (String.length s)) in *.
    assert (Hp : 0 < p) by (apply Z.pow_pos_nonneg; lia).
    assert (Hd1 : 0 <= d * p) by (apply Z.mul_nonneg_nonneg; lia).
    assert (Hd2 : d * p <= 9 * p) by (apply Z.mul_le_mono_nonneg_r; lia).
    lia.
Qed.

Lemma substring_length_le (n m : nat) (s : string) :
  (String.length (String.substring n m s) <= m)%nat.
Proof.
  revert n m. induction s as [|c s IH]; intros n m.
  - destruct n, m; simpl; lia.
  - destruct n as [|n].
    + destruct m as [|m]; simpl; [lia|]. specialize (IH 0%nat m). lia.
    + simpl. apply IH.
Qed.

Lemma digitsOf_substring_bound (n m : nat) (s : string) (v : Z) :
  JSDate.digitsOf 0 (String.substring n m s) = Some v ->
  0 <= v < 10 ^ Z.of_nat m.
Proof.
  intro H. apply digitsOf_range in H.
  pose proof (substring_length_le n m s) as Hl.
  assert (10 ^ Z.of_nat (String.length (String.substring n m s)) <= 10 ^ Z.of_nat m)
    by (apply Z.pow_le_mono_r; lia).
  lia.
Qed.

(** What [parse] returns: midnight UTC of a day in the years 0..9999. *)
Lemma parse_Some (s : string) (t : Z) :
  JSDate.parse s = Some t ->
  t mod JSDate.msPerDay = 0
  /\ -62167219200000 <= t <= 253402214400000.
Proof.
  unfold JSDate.parse.
  destruct (_ && _ && _); [|discriminate].
  destruct (JSDate.digitsOf 0 (String.substring 0 4 s)) as [y|] eqn:Ey; [|discriminate].
  destruct (JSDate.digitsOf 0 (String.substring 5 2 s)) as [m|] eqn:Em; [|discriminate].
  destruct (JSDate.digitsOf 0 (String.substring 8 2 s)) as [d|] eqn:Ed; [|discriminate].
  apply digitsOf_substring_bound in Ey, Em, Ed.
  change (10 ^ Z.of_nat 4) with 10000 in Ey.
  destruct (_ && _ && _ && _) eqn:E; [|discriminate].
  rewrite !andb_true_iff, !Z.leb_le in E. destruct E as (((Hm1 & Hm2) & Hd1) & Hd2).
  assert (Hd3 : d <= 31).
  { unfold JSDate.daysInMonth in Hd2.
    destruct (m =? 2); [destruct (JSDate.isLeap y)|destruct (_ || _ || _ || _)]; lia. }
  intro H. apply TimeClip_Some in H. destruct H as [-> _].
  unfold JSDate.MakeDate, JSDate.msPerDay. split.
  - rewrite Z.add_0_r. apply Z_mod_mult.
  - unfold JSDate.daysFromCivil. cbv zeta. split_ifs; Z.div_mod_to_equations; lia.
Qed.

Lemma parse_empty : JSDate.parse "" = None.
Proof. reflexivity. Qed.

(** From here on the operations of [Date] are kept folded. *)
Opaque JSDate.ofYMD JSDate.setDate JSDate.setFullYear JSDate.setHours
       JSDate.getFullYear JSDate.getMonth JSDate.getDate JSDate.parse
       JSDate.ofTime.

Lemma window_CUSTOM tz now cs ce :
  App.window tz now CUSTOM cs ce
  = (if JS.truthy cs then JSDate.parse cs else Some 0,
     if JS.truthy ce
     then JSDate.setHours tz (JSDate.parse ce) 23 59 59 999
     else Some JSDate.maxTime).
Proof. unfold App.window. cbv beta zeta iota. reflexivity. Qed.

Lemma truthy_iff (s : string) : JS.truthy s = true <-> s <> ""%string.
Proof. destruct s; simpl; split; congruence. Qed.

Lemma custom_upper_of_parse tz now cs ce t :
  JSDate.parse ce = Some t ->
  exists e, snd (App.window tz now CUSTOM cs ce) = Some e
            /\ endOfLocalDay tz t e /\ t <= e < t + JSDate.msPerDay.
Proof.
  intro Hp. rewrite window_CUSTOM. cbn [snd].
  assert (Ht : JS.truthy ce = true).
  { apply truthy_iff. intros ->. rewrite parse_empty in Hp. discriminate. }
  rewrite Ht, Hp.
  destruct (parse_Some _ Hp) as [_ Hb].
  destruct (@setHours_end_of_day tz t) as (e & He & Hd & Hw & Hr).
  { unfold JSDate.maxTime, JSDate.msPerDay. lia. }
  exists e. split; [exact He|]. split; [split; assumption|exact Hr].
Qed.

(** In a zone at or east of UTC the parsed date lies in the local day it
    names; in a zone west of UTC it lies in the day before. *)
Lemma custom_upper_by_zone tz now cs ce m :
  localMidnight tz ce = Some m ->
  (0 <= tz < JSDate.msPerDay ->
     snd (App.window tz now CUSTOM cs ce) = Some (m + JSDate.msPerDay - 1))
  /\ (- JSDate.msPerDay <= tz < 0 ->
      snd (App.window tz now CUSTOM cs ce) = Some (m - 1)).
Proof.
  unfold localMidnight. intro Hm.
  destruct (JSDate.parse ce) as [t|] eqn:Hp; [|discriminate].
  simpl in Hm. inversion Hm; subst m. clear Hm.
  destruct (custom_upper_of_parse tz now cs ce Hp) as (e & He & [Hd Hw] & Hr).
  destruct (parse_Some _ Hp) as [Hmod Hb].
  rewrite He. clear He Hp.
  revert Hd Hw Hr Hmod.
  unfold JSDate.UTC, JSDate.Day, JSDate.TimeWithinDay, JSDate.LocalTime,
    JSDate.MakeTime, JSDate.msPerDay.
  intros Hd Hw Hr Hmod.
  split; intro Hz; f_equal; Z.div_mod_to_equations; lia.
Qed.


Transparent JSDate.ofYMD JSDate.setDate JSDate.setFullYear JSDate.setHours
       JSDate.getFullYear JSDate.getMonth JSDate.getDate JSDate.parse
       JSDate.ofTime.


Lemma marchFirst_step (y : Z) :
  365 <= marchFirst (y + 1) - marchFirst y <= 366.
Proof. unfold marchFirst. cbv zeta. Z.div_mod_to_equations. lia. Qed.

Lemma daysFromCivil_marchFirst (y m d : Z) :
  JSDate.daysFromCivil y m d
  = marchFirst (if m <=? 2 then y - 1 else y)
    + ((153 * ((m + 9) mod 12) + 2) / 5 + d - 1) - 719468.
Proof. unfold JSDate.daysFromCivil, marchFirst. cbv zeta. lia. Qed.

Lemma Day_of_midnight (d : Z) : JSDate.Day (d * JSDate.msPerDay) = d.
Proof. unfold JSDate.Day, JSDate.msPerDay. now rewrite Z_div_mult by lia. Qed.

Lemma TimeWithinDay_of_midnight (d : Z) :
  JSDate.TimeWithinDay (d * JSDate.msPerDay) = 0.
Proof. unfold JSDate.TimeWithinDay. apply Z_mod_mult. Qed.

Lemma year_lower_bound (z : Z) :
  -1 <= z -> 1969 <= fst (fst (JSDate.civilFromDays z)).
Proof.
  intro H. unfold JSDate.civilFromDays. cbv zeta. cbn [fst snd].
  split_ifs; Z.div_mod_to_equations; lia.
Qed.

(** First day of the year a day lies in. *)
Lemma year_start_bounds (z : Z) :
  z - 365 <= JSDate.MakeDay (fst (fst (JSDate.civilFromDays z))) 0 1 <= z.
Proof.
  pose proof (daysFromCivil_civilFromDays z) as H.
  destruct (JSDate.civilFromDays z) as [[y m] d]. cbn [fst snd].
  destruct H as (H & Hm & Hd). unfold JSDate.MakeDay. cbv zeta.
  change (0 / 12) with 0. change (0 mod 12 + 1) with 1.
  rewrite Z.add_0_r. rewrite daysFromCivil_marchFirst in H |- *.
  change (1 <=? 2) with true. cbv iota.
  change ((153 * ((1 + 9) mod 12) + 2) / 5) with 306.
  pose proof (marchFirst_step (y - 1)) as Hs.
  replace (y - 1 + 1) with y in Hs by lia.
  destruct (m <=? 2) eqn:E; [apply Z.leb_le in E|apply Z.leb_gt in E];
    Z.div_mod_to_equations; lia.
Qed.

(** The same month and day one year earlier. *)
Lemma year_before_bounds (z : Z) :
  let '(y, m, d) := JSDate.civilFromDays z in
  z - 366 <= JSDate.MakeDay (y - 1) (m - 1) d <= z - 365.
Proof.
  pose proof (daysFromCivil_civilFromDays z) as H.
  destruct (JSDate.civilFromDays z) as [[y m] d].
  destruct H as (H & Hm & Hd). unfold JSDate.MakeDay. cbv zeta.
  replace ((m - 1) / 12) with 0 by (Z.div_mod_to_equations; lia).
  replace ((m - 1) mod 12 + 1) with m by (Z.div_mod_to_equations; lia).
  rewrite Z.add_0_r.
  rewrite daysFromCivil_marchFirst in H.
  rewrite !daysFromCivil_marchFirst.
  set (q := (153 * ((m + 9) mod 12) + 2) / 5) in *.
  set (q1 := (153 * ((1 + 9) mod 12) + 2) / 5) in *.
  destruct (m <=? 2).
  - pose proof (marchFirst_step (y - 1 - 1)) as Hs.
    replace (y - 1 - 1 + 1) with (y - 1) in Hs by lia. lia.
  - pose proof (marchFirst_step (y - 1)) as Hs.
    replace (y - 1 + 1) with y in Hs by lia. lia.
Qed.

(** The lower bounds of the rolling frames. *)
Section LowerBounds.
Variables tz now : Z.
Hypothesis Hnow : 0 <= now <= JSDate.maxTime.
Hypothesis Htz : - JSDate.msPerDay <= tz <= JSDate.msPerDay.

Lemma localDay_bounds : -1 <= (localDay tz now) /\ (localDay tz now) * JSDate.msPerDay - tz <= now
                    /\ now - JSDate.msPerDay < (localDay tz now) * JSDate.msPerDay - tz.
  Proof.
    unfold localDay, JSDate.Day, JSDate.msPerDay, JSDate.maxTime in *.
    Z.div_mod_to_equations. lia.
  Qed.

Lemma localToday_value : (localToday tz now) = Some ((localDay tz now) * JSDate.msPerDay - tz).
  Proof.
    unfold localToday, JSDate.ofYMD, JSDate.getFullYear, JSDate.getMonth,
      JSDate.getDate, option_map, JSDate.LocalTime.
    destruct localDay_bounds as (H1 & H2 & H3).
    assert (Hy : 1969 <= JSDate.YearFromTime (now + tz))
      by (apply year_lower_bound; exact H1).
    replace ((0 <=? JSDate.YearFromTime (now + tz))
             && (JSDate.YearFromTime (now + tz) <=? 99)) with false
      by (symmetry; apply andb_false_iff; right; apply Z.leb_gt; lia).
    rewrite MakeDay_of_time. fold (localDay tz now).
    unfold JSDate.UTC, JSDate.MakeDate. rewrite Z.add_0_r.
    apply TimeClip_in_range.
    unfold JSDate.msPerDay, JSDate.maxTime in *. lia.
  Qed.

Lemma shifted_value (k : Z) :
    0 <= k <= 366 ->
    JSDate.setDate tz (JSDate.copy (localToday tz now))
      (JS.subT (JSDate.getDate tz (localToday tz now)) (Some k))
    = Some (((localDay tz now) - k) * JSDate.msPerDay - tz).
  Proof.
    intro Hk. rewrite localToday_value. unfold JSDate.copy, JSDate.getDate,
      JSDate.setDate, option_map, JS.subT, JSDate.LocalTime.
    replace ((localDay tz now) * JSDate.msPerDay - tz + tz) with ((localDay tz now) * JSDate.msPerDay) by lia.
    rewrite MakeDay_shift, MakeDay_of_time, Day_of_midnight,
      TimeWithinDay_of_midnight.
    unfold JSDate.UTC, JSDate.MakeDate. rewrite Z.add_0_r.
    apply TimeClip_in_range. destruct localDay_bounds as (H1 & H2 & H3).
    unfold JSDate.msPerDay, JSDate.maxTime in *. lia.
  Qed.

Lemma ytd_value :
    exists d, (localDay tz now) - 365 <= d <= (localDay tz now)
      /\ JSDate.ofYMD tz (JSDate.getFullYear tz (Some now)) (Some 0) (Some 1)
         = Some (d * JSDate.msPerDay - tz).
  Proof.
    unfold JSDate.ofYMD, JSDate.getFullYear, option_map, JSDate.LocalTime.
    destruct localDay_bounds as (H1 & H2 & H3).
    assert (Hy : 1969 <= JSDate.YearFromTime (now + tz))
      by (apply year_lower_bound; exact H1).
    replace ((0 <=? JSDate.YearFromTime (now + tz))
             && (JSDate.YearFromTime (now + tz) <=? 99)) with false
      by (symmetry; apply andb_false_iff; right; apply Z.leb_gt; lia).
    pose proof (year_start_bounds (localDay tz now)) as Hb.
    unfold JSDate.YearFromTime. fold (localDay tz now).
    set (d := JSDate.MakeDay _ 0 1) in *.
    exists d. split; [exact Hb|].
    unfold JSDate.UTC, JSDate.MakeDate. rewrite Z.add_0_r.
    apply TimeClip_in_range.
    unfold JSDate.msPerDay, JSDate.maxTime in *. lia.
  Qed.

Lemma year_value :
    exists d, (localDay tz now) - 366 <= d <= (localDay tz now) - 365
      /\ JSDate.setFullYear tz (JSDate.copy (localToday tz now))
           (JS.subT (JSDate.getFullYear tz (localToday tz now)) (Some 1))
         = Some (d * JSDate.msPerDay - tz).
  Proof.
    rewrite localToday_value. unfold JSDate.copy, JSDate.getFullYear,
      JSDate.setFullYear, option_map, JS.subT, JSDate.LocalTime.
    replace ((localDay tz now) * JSDate.msPerDay - tz + tz) with ((localDay tz now) * JSDate.msPerDay) by lia.
    unfold JSDate.YearFromTime, JSDate.MonthFromTime, JSDate.DateFromTime.
    rewrite Day_of_midnight, TimeWithinDay_of_midnight.
    pose proof (year_before_bounds (localDay tz now)) as Hb.
    destruct (JSDate.civilFromDays (localDay tz now)) as [[y m] d]. cbn [fst snd].
    exists (JSDate.MakeDay (y - 1) (m - 1) d). split; [exact Hb|].
    unfold JSDate.UTC, JSDate.MakeDate. rewrite Z.add_0_r.
    apply TimeClip_in_range. destruct localDay_bounds as (H1 & H2 & H3).
    unfold JSDate.msPerDay, JSDate.maxTime in *. lia.
  Qed.

  (** Every rolling frame starts at or before [now]. *)
Opaque JSDate.ofYMD JSDate.setDate JSDate.setFullYear JSDate.setHours
       JSDate.getFullYear JSDate.getMonth JSDate.getDate JSDate.parse
       JSDate.ofTime.

Lemma rolling_lower_bound (tf : TimeFrame) (cs ce : string) :
    In tf rolling ->
    exists lower, fst (App.window tz now tf cs ce) = Some lower
                  /\ lower <= now.
  Proof.
    destruct localDay_bounds as (H1 & H2 & H3).
    intro Hin. unfold rolling in Hin. simpl in Hin.
    destruct Hin as [<-|[<-|[<-|[<-|[<-|[]]]]]].
    - change (fst (App.window tz now TODAY cs ce)) with (localToday tz now).
      rewrite localToday_value. eexists. split; [reflexivity|lia].
    - change (fst (App.window tz now WEEK cs ce))
        with (JSDate.setDate tz (JSDate.copy (localToday tz now))
                (JS.subT (JSDate.getDate tz (localToday tz now)) (Some 7))).
      rewrite shifted_value by lia. eexists.
      split; [reflexivity|unfold JSDate.msPerDay in *; lia].
    - change (fst (App.window tz now MONTH cs ce))
        with (JSDate.setDate tz (JSDate.copy (localToday tz now))
                (JS.subT (JSDate.getDate tz (localToday tz now)) (Some 30))).
      rewrite shifted_value by lia. eexists.
      split; [reflexivity|unfold JSDate.msPerDay in *; lia].
    - change (fst (App.window tz now YTD cs ce))
        with (JSDate.ofYMD tz (JSDate.getFullYear tz (Some now))
                (Some 0) (Some 1)).
      destruct ytd_value as (d & Hd & ->). eexists.
      split; [reflexivity|unfold JSDate.msPerDay in *; lia].
    - change (fst (App.window tz now YEAR cs ce))
        with (JSDate.setFullYear tz (JSDate.copy (localToday tz now))
                (JS.subT (JSDate.getFullYear tz (localToday tz now)) (Some 1))).
      destruct year_value as (d & Hd & ->). eexists.
      split; [reflexivity|unfold JSDate.msPerDay in *; lia].
  Qed.

  (** The day on which each rolling frame starts. *)
Lemma rolling_lower_days (tf : TimeFrame) (cs ce : string) :
    In tf rolling ->
    exists d, fst (App.window tz now tf cs ce)
              = Some (d * JSDate.msPerDay - tz)
      /\ localDay tz now - snd (daysBack tf) <= d
         <= localDay tz now - fst (daysBack tf).
  Proof.
    intro Hin. unfold rolling in Hin. simpl in Hin.
    destruct Hin as [<-|[<-|[<-|[<-|[<-|[]]]]]]; cbn [daysBack fst snd].
    - change (fst (App.window tz now TODAY cs ce)) with (localToday tz now).
      rewrite localToday_value. eexists. split; [reflexivity|lia].
    - change (fst (App.window tz now WEEK cs ce))
        with (JSDate.setDate tz (JSDate.copy (localToday tz now))
                (JS.subT (JSDate.getDate tz (localToday tz now)) (Some 7))).
      rewrite shifted_value by lia. eexists. split; [reflexivity|lia].
    - change (fst (App.window tz now MONTH cs ce))
        with (JSDate.setDate tz (JSDate.copy (localToday tz now))
                (JS.subT (JSDate.getDate tz (localToday tz now)) (Some 30))).
      rewrite shifted_value by lia. eexists. split; [reflexivity|lia].
    - change (fst (App.window tz now YTD cs ce))
        with (JSDate.ofYMD tz (JSDate.getFullYear tz (Some now))
                (Some 0) (Some 1)).
      destruct ytd_value as (d & Hd & ->). exists d.
      split; [reflexivity|lia].
    - change (fst (App.window tz now YEAR cs ce))
        with (JSDate.setFullYear tz (JSDate.copy (localToday tz now))
                (JS.subT (JSDate.getFullYear tz (localToday tz now)) (Some 1))).
      destruct year_value as (d & Hd & ->). exists d.
      split; [reflexivity|lia].
  Qed.
End LowerBounds.

Lemma rolling_upper_bound tz now tf cs ce :
  In tf rolling ->
  snd (App.window tz now tf cs ce) = Some JSDate.maxTime.
Proof.
  intro Hin. unfold rolling in Hin. simpl in Hin.
  destruct Hin as [<-|[<-|[<-|[<-|[<-|[]]]]]];
    unfold App.window; cbv beta zeta iota delta [snd]; reflexivity.
Qed.

Lemma rolling_not_ALL tf : In tf rolling -> tf <> ALL.
Proof.
  intro Hin. unfold rolling in Hin. simpl in Hin.
  destruct Hin as [<-|[<-|[<-|[<-|[<-|[]]]]]]; discriminate.
Qed.

Lemma inWindow_unbounded (lo : option Z) (t : Trade) :
  validTime t ->
  App.inWindow (lo, Some JSDate.maxTime) t = JS.geT (timestamp t) lo.
Proof.
  intro Hv. unfold App.inWindow, JSDate.getTime. cbn [fst snd].
  destruct (timestamp t) as [x|] eqn:E.
  - specialize (Hv x E). unfold JS.leT.
    replace (x <=? JSDate.maxTime) with true by (symmetry; now apply Z.leb_le).
    apply andb_true_r.
  - reflexivity.
Qed.

Lemma filter_ext_Forall {A} (P : A -> Prop) (f g : A -> bool) (l : list A) :
  Forall P l -> (forall x, P x -> f x = g x) -> filter f l = filter g l.
Proof.
  intros Hall Hfg. induction Hall as [|x l Hx _ IH]; simpl; [reflexivity|].
  now rewrite (Hfg x Hx), IH.
Qed.

(** C6.  [ALL] applies the symbol filter only.  For [TODAY], [WEEK],
    [MONTH], [YTD] and [YEAR] the upper bound is the largest time value, so
    on trades whose timestamps are time values the filter tests the symbol
    and the lower bound only; the lower bound is not after [now], hence a
    trade dated at or after [now] whose symbol matches is never left
    out. *)
Theorem rolling_frames_only_bound_below
    tz now (trades : list Trade) stockFilter cs ce :
  App.filteredTrades tz now trades stockFilter ALL cs ce
  = filter (App.symbolMatches stockFilter) trades
  /\ forall tf, In tf rolling ->
       let w := App.window tz now tf cs ce in
       let result := App.filteredTrades tz now trades stockFilter tf cs ce in
       snd w = Some JSDate.maxTime
       /\ (Forall validTime trades ->
           result = filter (fun t => App.symbolMatches stockFilter t
                                     && JS.geT (timestamp t) (fst w)) trades)
       /\ (0 <= now <= JSDate.maxTime ->
           - JSDate.msPerDay <= tz <= JSDate.msPerDay ->
           exists lower, fst w = Some lower /\ lower <= now
             /\ forall t x, In t trades -> timestamp t = Some x ->
                  now <= x <= JSDate.maxTime ->
                  App.symbolMatches stockFilter t = true -> In t result).
Proof.
  split; [apply filteredTrades_ALL|].
  intros tf Hin w result. subst w result.
  pose proof (@rolling_upper_bound tz now tf cs ce Hin) as Hup.
  pose proof (@rolling_not_ALL tf Hin) as Hne.
  rewrite (filteredTrades_window tz now trades stockFilter cs ce Hne).
  destruct (App.window tz now tf cs ce) as [lo hi] eqn:Ew.
  cbn [fst snd] in *. subst hi.
  split; [reflexivity|]. split.
  - intro Hall. apply filter_ext_Forall with (P := validTime); [exact Hall|].
    intros t Ht. unfold keeps. now rewrite inWindow_unbounded.
  - intros Hnow Htz.
    destruct (@rolling_lower_bound tz now Hnow Htz tf cs ce Hin) as (lower & Hl & Hle).
    rewrite Ew in Hl. cbn [fst] in Hl. subst lo.
    exists lower. split; [reflexivity|]. split; [exact Hle|].
    intros t x Ht Hx Hr Hs. apply filter_In. split; [exact Ht|].
    apply keeps_iff. split.
    + apply includes_iff. exact Hs.
    + exists x. split; [exact Hx|lia].
Qed.

Lemma view_In tz now trades stockFilter tf cs ce (lo : Z) (t : Trade) :
  tf <> ALL ->
  App.window tz now tf cs ce = (Some lo, Some JSDate.maxTime) ->
  In t (App.filteredTrades tz now trades stockFilter tf cs ce)
  <-> In t trades
      /\ occursIn (JS.toUpperCase stockFilter) (symbol t)
      /\ within lo JSDate.maxTime t.
Proof.
  intros Hne Hw.
  rewrite (filteredTrades_window tz now trades stockFilter cs ce Hne), Hw.
  rewrite filter_In, keeps_iff. tauto.
Qed.

Lemma view_widens tz now trades stockFilter cs ce tf1 tf2 :
  0 <= now <= JSDate.maxTime ->
  - JSDate.msPerDay <= tz <= JSDate.msPerDay ->
  In tf1 rolling -> In tf2 rolling ->
  snd (daysBack tf1) <= fst (daysBack tf2) ->
  forall t,
    In t (App.filteredTrades tz now trades stockFilter tf1 cs ce) ->
    In t (App.filteredTrades tz now trades stockFilter tf2 cs ce).
Proof.
  intros Hnow Htz H1 H2 Hd t.
  destruct (@rolling_lower_days tz now Hnow Htz tf1 cs ce H1) as (d1 & E1 & B1).
  destruct (@rolling_lower_days tz now Hnow Htz tf2 cs ce H2) as (d2 & E2 & B2).
  pose proof (@rolling_upper_bound tz now tf1 cs ce H1) as U1.
  pose proof (@rolling_upper_bound tz now tf2 cs ce H2) as U2.
  destruct (App.window tz now tf1 cs ce) as [lo1 hi1] eqn:W1.
  destruct (App.window tz now tf2 cs ce) as [lo2 hi2] eqn:W2.
  cbn [fst snd] in *. subst lo1 hi1 lo2 hi2.
  rewrite (@view_In tz now trades stockFilter tf1 cs ce _ t
             (rolling_not_ALL H1) W1).
  rewrite (@view_In tz now trades stockFilter tf2 cs ce _ t
             (rolling_not_ALL H2) W2).
  intros (Hin & Hs & x & Hx & Hlo & Hhi).
  split; [exact Hin|]. split; [exact Hs|].
  exists x. split; [exact Hx|].
  unfold JSDate.msPerDay in *. lia.
Qed.

(** X8.  [TODAY] starts at local midnight of the current day, [WEEK] seven
    and [MONTH] thirty days earlier, [YTD] at most 365 days and [YEAR] 365
    or 366 days earlier.  Hence widening the frame never loses a trade:
    what [TODAY] shows is shown by [WEEK] and by [YTD], what [WEEK] shows
    by [MONTH], what [MONTH] or [YTD] shows by [YEAR], and whatever a frame
    shows is shown by [ALL]. *)
Theorem rolling_frames_start_days_and_nest
    tz now (trades : list Trade) stockFilter cs ce :
  0 <= now <= JSDate.maxTime ->
  - JSDate.msPerDay <= tz <= JSDate.msPerDay ->
  let view tf := App.filteredTrades tz now trades stockFilter tf cs ce in
  (forall tf, In tf rolling ->
     exists d, fst (App.window tz now tf cs ce)
               = Some (d * JSDate.msPerDay - tz)
       /\ localDay tz now - snd (daysBack tf) <= d
          <= localDay tz now - fst (daysBack tf))
  /\ (forall t, In t (view TODAY) -> In t (view WEEK))
  /\ (forall t, In t (view WEEK) -> In t (view MONTH))
  /\ (forall t, In t (view MONTH) -> In t (view YEAR))
  /\ (forall t, In t (view TODAY) -> In t (view YTD))
  /\ (forall t, In t (view YTD) -> In t (view YEAR))
  /\ (forall tf t, In t (view tf) -> In t (view ALL)).
Proof.
  intros Hnow Htz view. subst view.
  assert (R : forall tf, tf <> ALL -> tf <> CUSTOM -> In tf rolling).
  { intros tf H1 H2. unfold rolling. destruct tf; simpl; tauto. }
  split; [intros tf Hin; now apply rolling_lower_days|].
  split; [apply view_widens; try assumption;
          [apply R; discriminate|apply R; discriminate|simpl; lia]|].
  split; [apply view_widens; try assumption;
          [apply R; discriminate|apply R; discriminate|simpl; lia]|].
  split; [apply view_widens; try assumption;
          [apply R; discriminate|apply R; discriminate|simpl; lia]|].
  split; [apply view_widens; try assumption;
          [apply R; discriminate|apply R; discriminate|simpl; lia]|].
  split; [apply view_widens; try assumption;
          [apply R; discriminate|apply R; discriminate|simpl; lia]|].
  intros tf t. rewrite filteredTrades_ALL.
  assert (Htf : tf = ALL \/ tf <> ALL)
    by (destruct tf; first [now left | right; discriminate]).
  destruct Htf as [->|Hne].
  - now rewrite filteredTrades_ALL.
  - rewrite (filteredTrades_window tz now trades stockFilter cs ce Hne).
    rewrite !filter_In. unfold keeps. rewrite andb_true_iff. tauto.
Qed.

Transparent JSDate.ofYMD JSDate.setDate JSDate.setFullYear JSDate.setHours
       JSDate.getFullYear JSDate.getMonth JSDate.getDate JSDate.parse
       JSDate.ofTime.

Lemma rolling_frames_start_days_and_nest_witness :
  0 <= 1707091200000 <= JSDate.maxTime
  /\ - JSDate.msPerDay <= 3600000 <= JSDate.msPerDay
  /\ forall t,
       In t (App.filteredTrades 3600000 1707091200000 scenario1 "" WEEK "" "")
       -> In t (App.filteredTrades 3600000 1707091200000 scenario1 ""
                  MONTH "" "").
Proof.
  assert (H1 : 0 <= 1707091200000 <= JSDate.maxTime)
    by (unfold JSDate.maxTime; lia).
  assert (H2 : - JSDate.msPerDay <= 3600000 <= JSDate.msPerDay)
    by (unfold JSDate.msPerDay; lia).
  split; [exact H1|]. split; [exact H2|].
  exact (proj1 (proj2 (proj2
    (@rolling_frames_start_days_and_nest 3600000 1707091200000 scenario1
       "" "" "" H1 H2)))).
Defined.

Lemma rolling_frames_only_bound_below_witness :
  In WEEK rolling
  /\ snd (App.window 0 1707091200000 WEEK "" "") = Some JSDate.maxTime.
Proof.
  assert (H : In WEEK rolling) by (right; left; reflexivity).
  split; [exact H|].
  exact (proj1 (proj2 (rolling_frames_only_bound_below 0 1707091200000
                         scenario1 "" "" "") WEEK H)).
Defined.

Lemma filteredTrades_exact_in_window_symbol_only_under_ALL_witness :
  CUSTOM <> ALL
  /\ App.window 0 1707091200000 CUSTOM "2024-02-01" "2024-02-05"
     = (Some 1706745600000, Some 1707177599999)
  /\ App.filteredTrades 0 1707091200000 scenario1 "" CUSTOM
       "2024-02-01" "2024-02-05"
     = filter (keeps "" (Some 1706745600000, Some 1707177599999)) scenario1.
Proof.
  assert (H1 : CUSTOM <> ALL) by discriminate.
  assert (H2 : App.window 0 1707091200000 CUSTOM "2024-02-01" "2024-02-05"
               = (Some 1706745600000, Some 1707177599999)) by reflexivity.
  split; [exact H1|]. split; [exact H2|].
  exact (proj1 (proj1 (proj2
    (filteredTrades_exact_in_window_symbol_only_under_ALL 0 1707091200000
       scenario1 "" CUSTOM "2024-02-01" "2024-02-05")) _ _ H1 H2)).
Defined.


End Calendar.

(** ** Sorting, sums and dictionary objects *)

(** ** The stable sort *)

Section SortFacts.
Variable A : Type.
Variable cmp : A -> A -> comparison.

Lemma insert_perm (x : A) (l : list A) :
    Permutation (JS.insert cmp x l) (x :: l).
  Proof.
    induction l as [|y l IH]; simpl; [reflexivity|].
    destruct (cmp x y); try reflexivity.
    rewrite IH. apply perm_swap.
  Qed.

Lemma sort_perm (l : list A) : Permutation (JS.sort cmp l) l.
  Proof.
    induction l as [|x l IH]; simpl; [reflexivity|].
    unfold JS.sort in *. simpl. rewrite insert_perm. now constructor.
  Qed.

Lemma sort_cons (x : A) (l : list A) :
    JS.sort cmp (x :: l) = JS.insert cmp x (JS.sort cmp l).
  Proof. reflexivity. Qed.

Lemma sort_length (l : list A) : List.length (JS.sort cmp l) = List.length l.
  Proof. apply Permutation_length, sort_perm. Qed.

  (** An array already in order is left as it is. *)
Lemma sort_of_sorted (l : list A) : Sorted (before cmp) l -> JS.sort cmp l = l.
  Proof.
    induction 1 as [|x l Hs IH Hd]; [reflexivity|].
    rewrite sort_cons, IH. destruct Hd as [|y l Hxy]; [reflexivity|].
    simpl. unfold before in Hxy. destruct (cmp x y); congruence.
  Qed.

Section Total.
Hypothesis total : forall x y, cmp x y = Gt -> cmp y x <> Gt.

Lemma insert_sorted (x : A) (l : list A) :
      Sorted (before cmp) l -> Sorted (before cmp) (JS.insert cmp x l).
    Proof.
      induction 1 as [|y l Hs IH Hd]; simpl.
      - repeat constructor.
      - destruct (cmp x y) eqn:E.
        + constructor; [now constructor|constructor; unfold before; congruence].
        + constructor; [now constructor|constructor; unfold before; congruence].
        + constructor; [exact IH|].
          destruct Hd as [|z l Hyz]; simpl.
          * constructor. now apply total.
          * destruct (cmp x z); constructor;
              solve [exact Hyz | now apply total].
    Qed.

Lemma sort_sorted (l : list A) : Sorted (before cmp) (JS.sort cmp l).
    Proof.
      induction l as [|x l IH]; [constructor|].
      rewrite sort_cons. now apply insert_sorted.
    Qed.

    (** The sort changes an array exactly when it was not in order. *)
Lemma sort_fixed_iff (l : list A) : JS.sort cmp l = l <-> Sorted (before cmp) l.
    Proof.
      split; [intro H; rewrite <- H; apply sort_sorted|apply sort_of_sorted].
    Qed.

Lemma sort_strongly_sorted (l : list A) :
      Relations_1.Transitive (before cmp) -> StronglySorted (before cmp) (JS.sort cmp l).
    Proof.
      intro Ht. apply Sorted_StronglySorted; [exact Ht|apply sort_sorted].
    Qed.
End Total.
End SortFacts.

(** ** Sums of rationals *)

Lemma Qsum_perm (l1 l2 : list Q) :
  Permutation l1 l2 -> (Qsum l1 == Qsum l2)%Q.
Proof.
  induction 1; simpl.
  - reflexivity.
  - now rewrite IHPermutation.
  - ring.
  - now rewrite IHPermutation1.
Qed.

Lemma fold_left_Qplus {A} (f : A -> Q) (l : list A) (a : Q) :
  (fold_left (fun acc x => acc + f x) l a == a + Qsum (map f l))%Q.
Proof.
  revert a. induction l as [|x l IH]; intro a; simpl.
  - ring.
  - rewrite IH. ring.
Qed.

(** ** Dictionary objects *)

Section ObjectFacts.
Variable V : Type.
Implicit Types (o : JSObject.t V) (k : string) (v : V).

Lemma get_set_same o k v : JSObject.get (JSObject.set o k v) k = Some v.
  Proof.
    induction o as [|[k' v'] o IH]; simpl.
    - now rewrite String.eqb_refl.
    - destruct (k' =? k)%string eqn:E; simpl; rewrite E; [reflexivity|exact IH].
  Qed.

Lemma get_set_other o k k' v :
    k' <> k -> JSObject.get (JSObject.set o k v) k' = JSObject.get o k'.
  Proof.
    intro Hne. induction o as [|[k0 v0] o IH]; simpl.
    - destruct (k =? k')%string eqn:E; [|reflexivity].
      apply String.eqb_eq in E. congruence.
    - destruct (k0 =? k)%string eqn:E; simpl.
      + apply String.eqb_eq in E. subst k0.
        destruct (k =? k')%string eqn:E'; [|reflexivity].
        apply String.eqb_eq in E'. congruence.
      + destruct (k0 =? k')%string; [reflexivity|exact IH].
  Qed.

Lemma get_None_iff o k : JSObject.get o k = None <-> ~ In k (map fst o).
  Proof.
    induction o as [|[k' v'] o IH]; simpl.
    - tauto.
    - destruct (k' =? k)%string eqn:E.
      + apply String.eqb_eq in E. split; [discriminate|]. intro H. tauto.
      + apply String.eqb_neq in E. rewrite IH. tauto.
  Qed.

Lemma get_Some_In o k v : JSObject.get o k = Some v -> In (k, v) o.
  Proof.
    induction o as [|[k' v'] o IH]; simpl; [discriminate|].
    destruct (k' =? k)%string eqn:E.
    - apply String.eqb_eq in E. intro H. inversion H. subst. now left.
    - intro H. right. now apply IH.
  Qed.

  (** Writing an existing property keeps the key order; a new property is
      added last. *)
Lemma keys_set o k v :
    map fst (JSObject.set o k v)
    = if in_dec string_dec k (map fst o) then map fst o else map fst o ++ [k].
  Proof.
    induction o as [|[k' v'] o IH]; simpl; [reflexivity|].
    destruct (k' =? k)%string eqn:E; simpl.
    - apply String.eqb_eq in E. subst k'.
      destruct (string_dec k k); [reflexivity|congruence].
    - apply String.eqb_neq in E. rewrite IH.
      destruct (string_dec k' k); [congruence|].
      destruct (in_dec string_dec k (map fst o)); reflexivity.
  Qed.

Lemma set_NoDup o k v :
    NoDup (map fst o) -> NoDup (map fst (JSObject.set o k v)).
  Proof.
    intro H. rewrite keys_set.
    destruct (in_dec string_dec k (map fst o)) as [Hin|Hnin]; [exact H|].
    apply NoDup_app; [exact H|repeat constructor; simpl; tauto|].
    intros x Hx [<-|[]]. contradiction.
  Qed.

Lemma set_In_keys o k v k' :
    In k' (map fst (JSObject.set o k v)) <-> k' = k \/ In k' (map fst o).
  Proof.
    rewrite keys_set.
    destruct (in_dec string_dec k (map fst o)) as [Hin|Hnin].
    - split; [tauto|]. intros [->|H]; assumption.
    - rewrite in_app_iff. simpl. intuition congruence.
  Qed.

  (** The enumeration order is a rearrangement of the insertion order. *)
Lemma ownKeys_perm o : Permutation (JSObject.ownKeys o) (map fst o).
  Proof.
    unfold JSObject.ownKeys. cbv zeta. rewrite sort_perm.
    induction (map fst o) as [|k ks IH]; simpl; [reflexivity|].
    destruct (JSObject.isArrayIndex k); simpl.
    - now constructor.
    - rewrite <- Permutation_middle. now constructor.
  Qed.

Lemma keys_perm o : Permutation (JSObject.keys o) (map fst o).
  Proof. apply ownKeys_perm. Qed.

Lemma get_of_NoDup o k v :
    NoDup (map fst o) -> In (k, v) o -> JSObject.get o k = Some v.
  Proof.
    induction o as [|[k' v'] o IH]; simpl; [tauto|].
    intros Hnd [Heq|Hin].
    - inversion Heq. subst. now rewrite String.eqb_refl.
    - inversion Hnd as [|? ? Hnotin Hnd']. subst.
      destruct (k' =? k)%string eqn:E.
      + apply String.eqb_eq in E. subst k'. exfalso. apply Hnotin.
        change k with (fst (k, v)). now apply in_map.
      + now apply IH.
  Qed.

  (** [Object.values] lists each own value once. *)
Lemma values_perm o :
    NoDup (map fst o) -> Permutation (JSObject.values o) (map snd o).
  Proof.
    intro Hnd. unfold JSObject.values.
    set (f := fun k => match JSObject.get o k with Some v => [v] | None => [] end).
    transitivity (flat_map f (map fst o)).
    - assert (Hp : forall l1 l2 : list string,
                 Permutation l1 l2 -> Permutation (flat_map f l1) (flat_map f l2)).
      { induction 1; simpl.
        - reflexivity.
        - now apply Permutation_app_head.
        - rewrite !app_assoc. apply Permutation_app_tail, Permutation_app_comm.
        - etransitivity; eassumption. }
      apply Hp, ownKeys_perm.
    - assert (Hg : forall k v, In (k, v) o -> f k = [v]).
      { intros k v Hin. unfold f. now rewrite (@get_of_NoDup o k v Hnd Hin). }
      clear Hnd. revert Hg. generalize f. clear f.
      induction o as [|[k v] o' IH]; intros f Hg; simpl; [reflexivity|].
      rewrite (Hg k v) by now left. simpl. constructor.
      apply IH. intros k' v' Hin. apply Hg. now right.
  Qed.
End ObjectFacts.

(** ** The daily and cumulative series *)

(** ** The default order of strings *)

Lemma ascii_compare_lt_trans (a b c : ascii) :
  Ascii.compare a b = Lt -> Ascii.compare b c = Lt -> Ascii.compare a c = Lt.
Proof.
  unfold Ascii.compare. rewrite !N.compare_lt_iff. apply N.lt_trans.
Qed.

Lemma string_compare_lt_trans (a b c : string) :
  String.compare a b = Lt -> String.compare b c = Lt -> String.compare a c = Lt.
Proof.
  revert b c. induction a as [|x a IH]; intros [|y b] [|z c]; simpl;
    try congruence.
  destruct (Ascii.compare x y) eqn:Exy; try discriminate;
  destruct (Ascii.compare y z) eqn:Eyz; try discriminate.
  - apply Ascii.compare_eq_iff in Exy, Eyz. subst.
    replace (Ascii.compare z z) with Eq
      by (symmetry; unfold Ascii.compare; apply N.compare_refl).
    apply IH.
  - apply Ascii.compare_eq_iff in Exy. subst. now rewrite Eyz.
  - apply Ascii.compare_eq_iff in Eyz. subst. now rewrite Exy.
  - now rewrite (ascii_compare_lt_trans _ _ _ Exy Eyz).
Qed.

Lemma string_compare_total (a b : string) :
  String.compare a b = Gt -> String.compare b a <> Gt.
Proof.
  intro H. rewrite String.compare_antisym, H. discriminate.
Qed.

Lemma string_before_trans : Relations_1.Transitive (before String.compare).
Proof.
  intros a b c Hab Hbc. unfold before in *.
  destruct (String.compare a b) eqn:E1; [| |congruence].
  - apply String.compare_eq_iff in E1. now subst.
  - destruct (String.compare b c) eqn:E2; [| |congruence].
    + apply String.compare_eq_iff in E2. subst. rewrite E1. discriminate.
    + rewrite (string_compare_lt_trans _ _ _ E1 E2). discriminate.
Qed.

Lemma string_compare_refl (a : string) : String.compare a a = Eq.
Proof.
  induction a as [|x a IH]; simpl; [reflexivity|].
  replace (Ascii.compare x x) with Eq
    by (symmetry; unfold Ascii.compare; apply N.compare_refl).
  exact IH.
Qed.

(** Distinct strings in order are in strict order. *)
Lemma strictly_sorted (l : list string) :
  NoDup l -> StronglySorted (before String.compare) l ->
  StronglySorted strictlyBefore l.
Proof.
  intros Hnd Hs. induction Hs as [|x l Hs IH Hall]; [constructor|].
  inversion Hnd as [|? ? Hnotin Hnd']. subst.
  constructor; [now apply IH|].
  rewrite Forall_forall in *. intros y Hy. specialize (Hall y Hy).
  unfold before, strictlyBefore in *.
  destruct (String.compare x y) eqn:E; [|reflexivity|congruence].
  apply String.compare_eq_iff in E. subst. contradiction.
Qed.

(** ** The per-date totals *)

Lemma set_sum_new (o : JSObject.t Q) k v :
  JSObject.get o k = None ->
  (Qsum (map snd (JSObject.set o k v)) == Qsum (map snd o) + v)%Q.
Proof.
  induction o as [|[k' v'] o IH]; simpl.
  - intros _. ring.
  - destruct (k' =? k)%string; [discriminate|]. intro H. simpl.
    rewrite (IH H). ring.
Qed.

Lemma set_sum_old (o : JSObject.t Q) k v0 v :
  JSObject.get o k = Some v0 ->
  (Qsum (map snd (JSObject.set o k v)) == Qsum (map snd o) - v0 + v)%Q.
Proof.
  induction o as [|[k' v'] o IH]; simpl; [discriminate|].
  destruct (k' =? k)%string.
  - intro H. inversion H. subst. simpl. ring.
  - intro H. simpl. rewrite (IH H). ring.
Qed.

Lemma at_set_same (o : JSObject.t Q) k v :
  TradeCharts.at_ (JSObject.set o k v) k = v.
Proof. unfold TradeCharts.at_. now rewrite get_set_same. Qed.

Lemma at_set_other (o : JSObject.t Q) k k' v :
  k' <> k -> TradeCharts.at_ (JSObject.set o k v) k' = TradeCharts.at_ o k'.
Proof. intro H. unfold TradeCharts.at_. now rewrite get_set_other. Qed.

(** What one closed trade does to the dictionary. *)
Lemma addTrade_open (o : JSObject.t Q) (t : Trade) :
  isClosed t = false -> TradeCharts.addTrade o t = o.
Proof.
  unfold isClosed, TradeCharts.addTrade. destruct (sellPrice t); congruence.
Qed.

Lemma addTrade_closed (o : JSObject.t Q) (t : Trade) :
  isClosed t = true ->
  exists dp,
    TradeCharts.addTrade o t
    = JSObject.set dp (date t) (TradeCharts.at_ dp (date t) + profitOf t)%Q
    /\ (dp = o \/ dp = JSObject.set o (date t) 0%Q)
    /\ (TradeCharts.at_ dp (date t) == TradeCharts.at_ o (date t))%Q
    /\ (exists v, JSObject.get dp (date t) = Some v)
    /\ (Qsum (map snd dp) == Qsum (map snd o))%Q.
Proof.
  unfold isClosed, TradeCharts.addTrade, profitOf.
  destruct (sellPrice t) as [sp|]; [intros _|discriminate].
  cbn [JS.asNumber]. cbv zeta.
  destruct (JSObject.get o (date t)) as [v|] eqn:Eg; unfold TradeCharts.falsy.
  - destruct (Qeq_bool v 0) eqn:Ev.
    + apply Qeq_bool_iff in Ev.
      exists (JSObject.set o (date t) 0%Q).
      split; [reflexivity|]. split; [now right|].
      rewrite at_set_same. unfold TradeCharts.at_ at 1. rewrite Eg.
      assert (Hs : (Qsum (map snd (JSObject.set o (date t) 0)) == Qsum (map snd o))%Q).
      { rewrite (set_sum_old _ _ _ Eg), Ev. ring. }
      split; [now symmetry|].
      split; [exists 0%Q; apply get_set_same|exact Hs].
    + exists o. split; [reflexivity|]. split; [now left|].
      split; [reflexivity|].
      split; [now exists v|reflexivity].
  - exists (JSObject.set o (date t) 0%Q).
    split; [reflexivity|]. split; [now right|].
    rewrite at_set_same. unfold TradeCharts.at_ at 1. rewrite Eg.
    assert (Hs : (Qsum (map snd (JSObject.set o (date t) 0)) == Qsum (map snd o))%Q).
    { rewrite (set_sum_new _ _ _ Eg). ring. }
    split; [reflexivity|].
    split; [exists 0%Q; apply get_set_same|exact Hs].
Qed.

Lemma addTrade_sum (o : JSObject.t Q) (t : Trade) :
  (Qsum (map snd (TradeCharts.addTrade o t))
   == Qsum (map snd o) + (if isClosed t then profitOf t else 0))%Q.
Proof.
  destruct (isClosed t) eqn:Ec.
  - destruct (addTrade_closed o t Ec) as (dp & -> & _ & _ & [v Hv] & Hs).
    rewrite (set_sum_old _ _ _ Hv), Hs.
    unfold TradeCharts.at_. rewrite Hv. ring.
  - rewrite (addTrade_open o t Ec). ring.
Qed.

Lemma addTrade_at (o : JSObject.t Q) (t : Trade) (d : string) :
  (TradeCharts.at_ (TradeCharts.addTrade o t) d
   == TradeCharts.at_ o d
      + (if isClosed t && (date t =? d)%string then profitOf t else 0))%Q.
Proof.
  destruct (isClosed t) eqn:Ec; cbn [andb].
  - destruct (addTrade_closed o t Ec) as (dp & -> & Hdp & Hat & _ & _).
    destruct (date t =? d)%string eqn:Ed.
    + apply String.eqb_eq in Ed. subst d. rewrite at_set_same, Hat. reflexivity.
    + apply String.eqb_neq in Ed.
      rewrite at_set_other by congruence.
      destruct Hdp as [->| ->]; [|rewrite at_set_other by congruence]; ring.
  - rewrite (addTrade_open o t Ec). ring.
Qed.

Lemma addTrade_keys (o : JSObject.t Q) (t : Trade) (d : string) :
  In d (map fst (TradeCharts.addTrade o t))
  <-> In d (map fst o) \/ (isClosed t = true /\ date t = d).
Proof.
  destruct (isClosed t) eqn:Ec.
  - destruct (addTrade_closed o t Ec) as (dp & -> & Hdp & _ & _ & _).
    rewrite set_In_keys.
    destruct Hdp as [->| ->]; [|rewrite set_In_keys]; intuition congruence.
  - rewrite (addTrade_open o t Ec). intuition congruence.
Qed.

Lemma addTrade_NoDup (o : JSObject.t Q) (t : Trade) :
  NoDup (map fst o) -> NoDup (map fst (TradeCharts.addTrade o t)).
Proof.
  intro H. destruct (isClosed t) eqn:Ec.
  - destruct (addTrade_closed o t Ec) as (dp & -> & Hdp & _ & _ & _).
    apply set_NoDup. destruct Hdp as [->| ->]; [exact H|now apply set_NoDup].
  - now rewrite (addTrade_open o t Ec).
Qed.

(** The dictionary after all trades. *)
Lemma dailyProfits_spec (ts : list Trade) (o : JSObject.t Q) :
  NoDup (map fst o) ->
  let o' := fold_left TradeCharts.addTrade ts o in
  NoDup (map fst o')
  /\ (forall d, In d (map fst o')
                <-> In d (map fst o)
                    \/ exists t, In t ts /\ isClosed t = true /\ date t = d)
  /\ (forall d, (TradeCharts.at_ o' d
                 == TradeCharts.at_ o d + Qsum (map profitOf (closedOn d ts)))%Q)
  /\ (Qsum (map snd o') == Qsum (map snd o) + Qsum (profits ts))%Q.
Proof.
  revert o. induction ts as [|t ts IH]; intros o Hnd; cbv zeta.
  - simpl. split; [exact Hnd|]. split.
    + intro d. split; [tauto|]. intros [H|(t & [] & _)]. exact H.
    + split; [intro d|]; unfold profits; simpl; ring.
  - simpl fold_left.
    destruct (IH (TradeCharts.addTrade o t) (addTrade_NoDup o t Hnd))
      as (H1 & H2 & H3 & H4).
    split; [exact H1|]. split; [|split].
    + intro d. rewrite H2, addTrade_keys. simpl. split.
      * intros [[H|[Hc Hd]]|(t' & Hin & Hc & Hd)]; eauto 7.
      * intros [H|(t' & [<-|Hin] & Hc & Hd)]; eauto 7.
    + intro d. rewrite H3, addTrade_at. unfold closedOn. simpl.
      destruct (isClosed t && (date t =? d)%string); simpl; ring.
    + rewrite H4, addTrade_sum. unfold profits. simpl.
      destruct (isClosed t); simpl; ring.
Qed.

Lemma fold_emit (o : JSObject.t Q) (ds : list string) (r : Q)
    (acc : list TradeCharts.Point) :
  snd (fold_left (TradeCharts.emit o) ds (r, acc)) = acc ++ running o r ds.
Proof.
  revert r acc. induction ds as [|d ds IH]; intros r acc; simpl.
  - now rewrite app_nil_r.
  - unfold TradeCharts.emit at 2. cbn [fst snd]. rewrite IH, <- app_assoc.
    reflexivity.
Qed.

Lemma chartData_running (ts : list Trade) :
  TradeCharts.chartData ts
  = running (TradeCharts.dailyProfitsOf ts) 0
      (TradeCharts.sortedDates (TradeCharts.dailyProfitsOf ts)).
Proof. unfold TradeCharts.chartData. cbv zeta. now rewrite fold_emit. Qed.

Lemma running_dates o r ds : map TradeCharts.date (running o r ds) = ds.
Proof.
  revert r. induction ds as [|d ds IH]; intro r; simpl; [reflexivity|].
  now rewrite IH.
Qed.

Lemma running_daily o r ds p :
  In p (running o r ds) ->
  TradeCharts.dailyProfit p = TradeCharts.at_ o (TradeCharts.date p).
Proof.
  revert r. induction ds as [|d ds IH]; intro r; simpl; [tauto|].
  intros [<-|H]; [reflexivity|]. eapply IH, H.
Qed.

Lemma running_cumulative o r ds pre p post :
  running o r ds = pre ++ p :: post ->
  (TradeCharts.cumulative p
   == r + Qsum (map TradeCharts.dailyProfit (pre ++ [p])))%Q.
Proof.
  revert r pre. induction ds as [|d ds IH]; intros r pre; simpl.
  - destruct pre; discriminate.
  - destruct pre as [|q pre]; simpl; intro H; inversion H; subst.
    + simpl. ring.
    + rewrite (IH _ _ H2). simpl. ring.
Qed.

Lemma at_keys (o : JSObject.t Q) :
  NoDup (map fst o) -> map (TradeCharts.at_ o) (map fst o) = map snd o.
Proof.
  induction o as [|[k v] o IH]; simpl; [reflexivity|].
  intro Hnd. inversion Hnd as [|? ? Hnotin Hnd']. subst.
  unfold TradeCharts.at_ at 1. simpl. rewrite String.eqb_refl. f_equal.
  rewrite <- (IH Hnd'). apply map_ext_in. intros d Hd.
  unfold TradeCharts.at_. simpl.
  destruct (k =? d)%string eqn:E; [|reflexivity].
  apply String.eqb_eq in E. subst. contradiction.
Qed.

Lemma sortedDates_perm (o : JSObject.t Q) :
  Permutation (TradeCharts.sortedDates o) (map fst o).
Proof.
  unfold TradeCharts.sortedDates. rewrite sort_perm. apply keys_perm.
Qed.

Lemma running_total o r ds :
  (Qsum (map TradeCharts.dailyProfit (running o r ds))
   == Qsum (map (TradeCharts.at_ o) ds))%Q.
Proof.
  revert r. induction ds as [|d ds IH]; intro r; simpl; [reflexivity|].
  now rewrite IH.
Qed.

Lemma dailyProfitsOf_closed (ts : list Trade) :
  TradeCharts.dailyProfitsOf (filter isClosed ts) = TradeCharts.dailyProfitsOf ts.
Proof.
  unfold TradeCharts.dailyProfitsOf. generalize (@JSObject.empty Q).
  induction ts as [|t ts IH]; intro o; simpl; [reflexivity|].
  destruct (isClosed t) eqn:E; simpl.
  - apply IH.
  - rewrite (addTrade_open o t E). apply IH.
Qed.

(** ** The series on binary64 numbers *)

Lemma keys_set_congr {V W} (o : JSObject.t V) (o' : JSObject.t W) k v w :
  map fst o = map fst o' ->
  map fst (JSObject.set o k v) = map fst (JSObject.set o' k w).
Proof. intro H. now rewrite !keys_set, H. Qed.

Lemma keys_set_twice {V} (o : JSObject.t V) k v w :
  map fst (JSObject.set (JSObject.set o k v) k w)
  = map fst (JSObject.set o k v).
Proof.
  rewrite (keys_set (JSObject.set o k v)).
  destruct (in_dec string_dec k (map fst (JSObject.set o k v))) as [H|H];
    [reflexivity|].
  exfalso. apply H. apply set_In_keys. now left.
Qed.

Lemma keys_set_reset {V} (o : JSObject.t V) k (b : bool) v w :
  map fst (JSObject.set (if b then JSObject.set o k v else o) k w)
  = map fst (JSObject.set o k w).
Proof.
  destruct b; [|reflexivity].
  rewrite keys_set_twice. now apply keys_set_congr.
Qed.

Lemma addTrade64_keys (o64 : JSObject.t PrimFloat.float) (o : JSObject.t Q)
    (t : Trade) :
  map fst o64 = map fst o ->
  map fst (Binary64.addTrade o64 t) = map fst (TradeCharts.addTrade o t).
Proof.
  intro H. unfold Binary64.addTrade, TradeCharts.addTrade.
  destruct (sellPrice t) as [sp|]; [|exact H]. cbv zeta.
  rewrite !keys_set_reset. now apply keys_set_congr.
Qed.

Lemma dailyProfits64_keys (ts : list Trade) :
  map fst (Binary64.dailyProfitsOf ts)
  = map fst (TradeCharts.dailyProfitsOf ts).
Proof.
  unfold Binary64.dailyProfitsOf, TradeCharts.dailyProfitsOf.
  assert (H : map fst (@JSObject.empty PrimFloat.float)
              = map fst (@JSObject.empty Q)) by reflexivity.
  revert H. generalize (@JSObject.empty PrimFloat.float) (@JSObject.empty Q).
  induction ts as [|t ts IH]; intros o64 o H; simpl; [exact H|].
  apply IH. now apply addTrade64_keys.
Qed.

Lemma sortedDates64 (ts : list Trade) :
  Binary64.sortedDates (Binary64.dailyProfitsOf ts)
  = TradeCharts.sortedDates (TradeCharts.dailyProfitsOf ts).
Proof.
  unfold Binary64.sortedDates, TradeCharts.sortedDates, JSObject.keys,
    JSObject.ownKeys. cbv zeta. now rewrite dailyProfits64_keys.
Qed.

Lemma fold_emit64 (o : JSObject.t PrimFloat.float) (ds : list string)
    (r : PrimFloat.float) (acc : list Binary64.Point) :
  snd (fold_left (Binary64.emit o) ds (r, acc)) = acc ++ running64 o r ds.
Proof.
  revert r acc. induction ds as [|d ds IH]; intros r acc; simpl.
  - now rewrite app_nil_r.
  - unfold Binary64.emit at 2. cbn [fst snd]. rewrite IH, <- app_assoc.
    reflexivity.
Qed.

Lemma chartData64_running (ts : list Trade) :
  Binary64.chartData ts
  = running64 (Binary64.dailyProfitsOf ts) PrimFloat.zero
      (Binary64.sortedDates (Binary64.dailyProfitsOf ts)).
Proof. unfold Binary64.chartData. cbv zeta. now rewrite fold_emit64. Qed.

Lemma running64_dates o r ds : map Binary64.date (running64 o r ds) = ds.
Proof.
  revert r. induction ds as [|d ds IH]; intro r; simpl; [reflexivity|].
  now rewrite IH.
Qed.

Lemma last_cons_cons {A} (a b : A) (l : list A) (d : A) :
  last (a :: b :: l) d = last (b :: l) d.
Proof. reflexivity. Qed.

Lemma running64_cumulative o r ds pre p post :
  running64 o r ds = pre ++ p :: post ->
  Binary64.cumulative p
  = PrimFloat.add (last (map Binary64.cumulative pre) r)
                  (Binary64.dailyProfit p).
Proof.
  revert r pre. induction ds as [|d ds IH]; intros r pre; simpl.
  - destruct pre; discriminate.
  - destruct pre as [|q pre]; simpl app; intro H; inversion H; subst.
    + reflexivity.
    + rewrite (IH _ _ H2). f_equal.
      destruct pre as [|q' pre]; [reflexivity|].
      change (map Binary64.cumulative
                (Binary64.mkPoint d (Binary64.at_ o d)
                   (PrimFloat.add r (Binary64.at_ o d)) :: q' :: pre))
        with (PrimFloat.add r (Binary64.at_ o d)
              :: Binary64.cumulative q' :: map Binary64.cumulative pre).
      rewrite last_cons_cons.
      change (map Binary64.cumulative (q' :: pre))
        with (Binary64.cumulative q' :: map Binary64.cumulative pre).
      generalize (Binary64.cumulative q') (map Binary64.cumulative pre).
      intros a l. revert a. induction l as [|b l IHl]; intro a;
        [reflexivity|].
      rewrite !last_cons_cons. apply IHl.
Qed.

Lemma addTrade64_open (o : JSObject.t PrimFloat.float) (t : Trade) :
  isClosed t = false -> Binary64.addTrade o t = o.
Proof.
  unfold isClosed, Binary64.addTrade. destruct (sellPrice t); congruence.
Qed.

Lemma dailyProfits64_closed (ts : list Trade) :
  Binary64.dailyProfitsOf (filter isClosed ts) = Binary64.dailyProfitsOf ts.
Proof.
  unfold Binary64.dailyProfitsOf. generalize (@JSObject.empty PrimFloat.float).
  induction ts as [|t ts IH]; intro o; simpl; [reflexivity|].
  destruct (isClosed t) eqn:E; simpl.
  - apply IH.
  - rewrite (addTrade64_open o t E). apply IH.
Qed.

(** C7 as stated does not hold on binary64 numbers.  For three sales listed
    newest first, with profits 0.3, 6 and 1.2, the exact total is 7.5; the
    chart, adding in date order, ends at the double 7.5, and the
    statistics, adding in list order, return the next double above it
    (7.500000000000001). *)
Lemma last_cumulative_differs_from_totalProfit_in_binary64 :
  (totalProfit (App.stats threeSales) == 7.5)%Q
  /\ exists pre p,
       Binary64.chartData threeSales = pre ++ [p]
       /\ Binary64.cumulative p = Binary64.ofQ 7.5
       /\ PrimFloat.ltb (Binary64.cumulative p)
                        (Binary64.totalProfit threeSales) = true
       /\ Binary64.cumulative p <> Binary64.totalProfit threeSales.
Proof.
  split; [vm_compute; reflexivity|].
  exists (removelast (Binary64.chartData threeSales)).
  exists (last (Binary64.chartData threeSales)
               (Binary64.mkPoint "" PrimFloat.zero PrimFloat.zero)).
  split; [vm_compute; reflexivity|].
  split; [vm_compute; reflexivity|].
  assert (L : PrimFloat.ltb
                (Binary64.cumulative
                   (last (Binary64.chartData threeSales)
                         (Binary64.mkPoint "" PrimFloat.zero PrimFloat.zero)))
                (Binary64.totalProfit threeSales) = true)
    by (vm_compute; reflexivity).
  split; [exact L|].
  intro H. rewrite H in L. vm_compute in L. discriminate L.
Qed.

(** C7, amended.  The series has one point per date of a closed trade, the
    dates in strictly increasing lexicographic order.  In exact arithmetic
    the daily profit of a point is the sum of the profits of the closed
    trades of that date, its cumulative value the sum of the daily profits
    up to and including it, and the cumulative value of the last point is
    the [totalProfit] of the statistics on the same list: the two add the
    same profits, the chart in date order and the statistics in list
    order.  Open trades contribute nothing: the series is that of the
    closed trades alone, and it is empty exactly when there is no closed
    trade.  On binary64 numbers the series has the same dates, each
    cumulative value is the rounded sum of the previous cumulative value
    and the daily profit, and open trades contribute nothing either; the
    equality with [totalProfit] is not claimed there. *)
Theorem chartData_sums_the_profits_in_date_order (ts : list Trade) :
  let series := TradeCharts.chartData ts in
  let series64 := Binary64.chartData ts in
  StronglySorted strictlyBefore (map TradeCharts.date series)
  /\ (forall d, In d (map TradeCharts.date series)
                <-> exists t, In t ts /\ isClosed t = true /\ date t = d)
  /\ (forall p, In p series ->
        (TradeCharts.dailyProfit p
         == Qsum (map profitOf (closedOn (TradeCharts.date p) ts)))%Q)
  /\ (forall pre p post, series = pre ++ p :: post ->
        (TradeCharts.cumulative p
         == Qsum (map TradeCharts.dailyProfit (pre ++ [p])))%Q)
  /\ (forall pre p, series = pre ++ [p] ->
        (TradeCharts.cumulative p == totalProfit (App.stats ts))%Q)
  /\ (series = [] <-> App.closedTrades ts = [])
  /\ series = TradeCharts.chartData (filter isClosed ts)
  /\ TradeCharts.chartData [] = []
  /\ map Binary64.date series64 = map TradeCharts.date series
  /\ (forall pre p post, series64 = pre ++ p :: post ->
        Binary64.cumulative p
        = PrimFloat.add (previousTotal pre) (Binary64.dailyProfit p))
  /\ series64 = Binary64.chartData (filter isClosed ts)
  /\ Binary64.chartData [] = [].
Proof.
  intros series series64. subst series series64.
  assert (H64 : map Binary64.date (Binary64.chartData ts)
                = map TradeCharts.date (TradeCharts.chartData ts)
                /\ (forall pre p post,
                      Binary64.chartData ts = pre ++ p :: post ->
                      Binary64.cumulative p
                      = PrimFloat.add (previousTotal pre)
                                      (Binary64.dailyProfit p))
                /\ Binary64.chartData ts
                   = Binary64.chartData (filter isClosed ts)
                /\ Binary64.chartData [] = []).
  { split; [|split; [|split]].
    - rewrite chartData64_running, chartData_running, running64_dates,
        running_dates. apply sortedDates64.
    - intros pre p post H. rewrite chartData64_running in H.
      exact (running64_cumulative _ _ _ _ _ _ H).
    - unfold Binary64.chartData. cbv zeta.
      now rewrite dailyProfits64_closed.
    - reflexivity. }
  revert H64. rewrite chartData_running. intro H64.
  set (o := TradeCharts.dailyProfitsOf ts).
  destruct (@dailyProfits_spec ts JSObject.empty (NoDup_nil _))
    as (Hnd & Hkeys & Hat & Hsum).
  fold (TradeCharts.dailyProfitsOf ts) in Hnd, Hkeys, Hat, Hsum. fold o in Hnd, Hkeys, Hat, Hsum.
  pose proof (sortedDates_perm o) as Hperm.
  assert (Hin' : forall d, In d (TradeCharts.sortedDates o)
                 <-> exists t, In t ts /\ isClosed t = true /\ date t = d).
  { intro d. split.
    - intro H. apply (Permutation_in _ Hperm) in H. apply Hkeys in H.
      destruct H as [[]|H]. exact H.
    - intro H. apply (Permutation_in _ (Permutation_sym Hperm)).
      apply Hkeys. now right. }
  assert (Htot : (Qsum (map (TradeCharts.at_ o) (TradeCharts.sortedDates o))
                  == totalProfit (App.stats ts))%Q).
  { rewrite (Qsum_perm (Permutation_map (TradeCharts.at_ o) Hperm)).
    rewrite (at_keys _ Hnd), Hsum. simpl.
    rewrite totalProfit_sum. ring. }
  split; [|split; [|split; [|split; [|split; [|split; [|split; [|split]]]]]]];
    [| | | | | | | |exact H64].
  - rewrite running_dates. apply strictly_sorted.
    + apply (Permutation_NoDup (Permutation_sym Hperm) Hnd).
    + apply sort_strongly_sorted;
        [exact string_compare_total|exact string_before_trans].
  - intro d. rewrite running_dates. apply Hin'.
  - intros p Hp. rewrite (running_daily _ _ _ _ Hp), Hat.
    unfold TradeCharts.at_. simpl. ring.
  - intros pre p post H. rewrite (running_cumulative _ _ _ _ _ _ H). ring.
  - intros pre p H.
    change (pre ++ [p]) with (pre ++ p :: []) in H.
    rewrite (running_cumulative _ _ _ _ _ _ H), <- H, running_total, Htot. ring.
  - split.
    + intro H. apply (f_equal (map TradeCharts.date)) in H.
      rewrite running_dates in H. simpl in H.
      unfold App.closedTrades.
      destruct (filter isClosed ts) as [|t l] eqn:E; [reflexivity|].
      assert (Ht : In t (filter isClosed ts)) by (rewrite E; now left).
      apply filter_In in Ht. destruct Ht as [Ht Hc].
      assert (Hd : In (date t) (TradeCharts.sortedDates o))
        by (apply Hin'; eauto).
      rewrite H in Hd. destruct Hd.
    + intro H. destruct (TradeCharts.sortedDates o) as [|d ds] eqn:E;
        [reflexivity|].
      assert (Hd : In d (d :: ds)) by now left.
      apply Hin' in Hd. destruct Hd as (t & Ht & Hc & _).
      assert (Hf : In t (App.closedTrades ts))
        by (apply filter_In; now split).
      rewrite H in Hf. destruct Hf.
  - rewrite chartData_running, dailyProfitsOf_closed. reflexivity.
  - reflexivity.
Qed.

(** ** The allocation table *)

Section ObjectSums.
Variable V : Type.
Variable f : V -> Q.

Lemma set_fsum_new (o : JSObject.t V) k v :
    JSObject.get o k = None ->
    (Qsum (map f (map snd (JSObject.set o k v)))
     == Qsum (map f (map snd o)) + f v)%Q.
  Proof.
    induction o as [|[k' v'] o IH]; simpl.
    - intros _. ring.
    - destruct (k' =? k)%string; [discriminate|]. intro H. simpl.
      rewrite (IH H). ring.
  Qed.

Lemma set_fsum_old (o : JSObject.t V) k v0 v :
    JSObject.get o k = Some v0 ->
    (Qsum (map f (map snd (JSObject.set o k v)))
     == Qsum (map f (map snd o)) - f v0 + f v)%Q.
  Proof.
    induction o as [|[k' v'] o IH]; simpl; [discriminate|].
    destruct (k' =? k)%string.
    - intro H. inversion H. subst. simpl. ring.
    - intro H. simpl. rewrite (IH H). ring.
  Qed.
End ObjectSums.

Lemma po_at_set_same (o : JSObject.t PortfolioOverview.Summary) k v :
  PortfolioOverview.at_ (JSObject.set o k v) k = v.
Proof. unfold PortfolioOverview.at_. now rewrite get_set_same. Qed.

Lemma po_at_set_other (o : JSObject.t PortfolioOverview.Summary) k k' v :
  k' <> k -> PortfolioOverview.at_ (JSObject.set o k v) k' = PortfolioOverview.at_ o k'.
Proof. intro H. unfold PortfolioOverview.at_. now rewrite get_set_other. Qed.

(** What one trade does to the summary. *)
Lemma po_addTrade_form (o : JSObject.t PortfolioOverview.Summary) (t : Trade) :
  exists s1,
    (s1 = o /\ (exists v, JSObject.get o (symbol t) = Some v)
     \/ s1 = JSObject.set o (symbol t) (PortfolioOverview.mkSummary 0 0 0)
        /\ JSObject.get o (symbol t) = None)
    /\ PortfolioOverview.at_ s1 (symbol t) = PortfolioOverview.at_ o (symbol t)
    /\ PortfolioOverview.addTrade o t
       = JSObject.set
           (JSObject.set s1 (symbol t)
              (PortfolioOverview.mkSummary (PortfolioOverview.totalShares (PortfolioOverview.at_ o (symbol t)) + quantity t)
                 (PortfolioOverview.investedAmount (PortfolioOverview.at_ o (symbol t)))
                 (PortfolioOverview.avgBuyPrice (PortfolioOverview.at_ o (symbol t)))))
           (symbol t)
           (PortfolioOverview.mkSummary (PortfolioOverview.totalShares (PortfolioOverview.at_ o (symbol t)) + quantity t)
              (PortfolioOverview.investedAmount (PortfolioOverview.at_ o (symbol t)) + invested t)
              (PortfolioOverview.avgBuyPrice (PortfolioOverview.at_ o (symbol t)))).
Proof.
  unfold PortfolioOverview.addTrade. cbv zeta.
  destruct (JSObject.get o (symbol t)) as [v|] eqn:Eg.
  - exists o. split; [left; split; [reflexivity|now exists v]|].
    split; [reflexivity|]. rewrite po_at_set_same. reflexivity.
  - exists (JSObject.set o (symbol t) (PortfolioOverview.mkSummary 0 0 0)).
    split; [right; now split|].
    assert (Hat : PortfolioOverview.at_ (JSObject.set o (symbol t) (PortfolioOverview.mkSummary 0 0 0)) (symbol t)
                  = PortfolioOverview.at_ o (symbol t)).
    { rewrite po_at_set_same. unfold PortfolioOverview.at_. now rewrite Eg. }
    split; [exact Hat|]. rewrite Hat, po_at_set_same. reflexivity.
Qed.

Lemma po_addTrade_at (o : JSObject.t PortfolioOverview.Summary) (t : Trade) (s : string) :
  PortfolioOverview.at_ (PortfolioOverview.addTrade o t) s
  = if (symbol t =? s)%string
    then PortfolioOverview.mkSummary (PortfolioOverview.totalShares (PortfolioOverview.at_ o s) + quantity t)
           (PortfolioOverview.investedAmount (PortfolioOverview.at_ o s) + invested t)
           (PortfolioOverview.avgBuyPrice (PortfolioOverview.at_ o s))
    else PortfolioOverview.at_ o s.
Proof.
  destruct (po_addTrade_form o t) as (s1 & Hs1 & Hat & ->).
  destruct (symbol t =? s)%string eqn:E.
  - apply String.eqb_eq in E. subst s. now rewrite po_at_set_same.
  - apply String.eqb_neq in E.
    rewrite !po_at_set_other by congruence.
    destruct Hs1 as [[-> _]|[-> _]]; [reflexivity|].
    now rewrite po_at_set_other by congruence.
Qed.

Lemma po_addTrade_keys (o : JSObject.t PortfolioOverview.Summary) (t : Trade) (s : string) :
  In s (map fst (PortfolioOverview.addTrade o t)) <-> In s (map fst o) \/ symbol t = s.
Proof.
  destruct (po_addTrade_form o t) as (s1 & Hs1 & _ & ->).
  rewrite !set_In_keys.
  destruct Hs1 as [[-> _]|[-> _]]; [|rewrite set_In_keys]; intuition congruence.
Qed.

Lemma po_addTrade_NoDup (o : JSObject.t PortfolioOverview.Summary) (t : Trade) :
  NoDup (map fst o) -> NoDup (map fst (PortfolioOverview.addTrade o t)).
Proof.
  intro H. destruct (po_addTrade_form o t) as (s1 & Hs1 & _ & ->).
  do 2 apply set_NoDup.
  destruct Hs1 as [[-> _]|[-> _]]; [exact H|now apply set_NoDup].
Qed.

Lemma po_addTrade_sum (o : JSObject.t PortfolioOverview.Summary) (t : Trade) :
  (Qsum (map PortfolioOverview.investedAmount (map snd (PortfolioOverview.addTrade o t)))
   == Qsum (map PortfolioOverview.investedAmount (map snd o)) + invested t)%Q.
Proof.
  destruct (po_addTrade_form o t) as (s1 & Hs1 & Hat & ->).
  rewrite (set_fsum_old PortfolioOverview.investedAmount _ _ _ (get_set_same _ _ _)).
  destruct Hs1 as [[-> [v Hv]]|[-> Hn]].
  - rewrite (set_fsum_old PortfolioOverview.investedAmount _ _ _ Hv). simpl.
    unfold PortfolioOverview.at_. rewrite Hv. ring.
  - rewrite (set_fsum_old PortfolioOverview.investedAmount _ _ _ (get_set_same _ _ _)).
    rewrite (set_fsum_new PortfolioOverview.investedAmount _ _ _ Hn). simpl.
    unfold PortfolioOverview.at_. rewrite Hn. simpl. ring.
Qed.

(** The summary after all trades. *)
Lemma summary_spec (ts : list Trade) (o : JSObject.t PortfolioOverview.Summary) :
  NoDup (map fst o) ->
  let o' := fold_left PortfolioOverview.addTrade ts o in
  NoDup (map fst o')
  /\ (forall s, In s (map fst o')
                <-> In s (map fst o) \/ exists t, In t ts /\ symbol t = s)
  /\ (forall s, (PortfolioOverview.investedAmount (PortfolioOverview.at_ o' s)
                 == PortfolioOverview.investedAmount (PortfolioOverview.at_ o s)
                    + Qsum (map invested (tradesIn s ts)))%Q)
  /\ (forall s, PortfolioOverview.totalShares (PortfolioOverview.at_ o' s)
                = (PortfolioOverview.totalShares (PortfolioOverview.at_ o s)
                   + Zsum (map quantity (tradesIn s ts)))%Z)
  /\ (Qsum (map PortfolioOverview.investedAmount (map snd o'))
      == Qsum (map PortfolioOverview.investedAmount (map snd o)) + Qsum (map invested ts))%Q.
Proof.
  revert o. induction ts as [|t ts IH]; intros o Hnd; cbv zeta.
  - simpl. split; [exact Hnd|]. split.
    + intro s. split; [tauto|]. intros [H|(t & [] & _)]. exact H.
    + split; [intro s; ring|]. split; [intro s; lia|ring].
  - simpl fold_left.
    destruct (IH (PortfolioOverview.addTrade o t) (@po_addTrade_NoDup o t Hnd))
      as (H1 & H2 & H3 & H4 & H5).
    split; [exact H1|]. split; [|split; [|split]].
    + intro s. rewrite H2, po_addTrade_keys. simpl. split.
      * intros [[H|Hd]|(t' & Hin & Hd)]; eauto 7.
      * intros [H|(t' & [<-|Hin] & Hd)]; eauto 7.
    + intro s. rewrite H3, po_addTrade_at. unfold tradesIn. simpl.
      destruct (symbol t =? s)%string; simpl; ring.
    + intro s. rewrite H4, po_addTrade_at. unfold tradesIn. simpl.
      destruct (symbol t =? s)%string; simpl; lia.
    + rewrite H5, po_addTrade_sum. simpl. ring.
Qed.

(** ** The comparator on rows *)

Lemma byAmountDesc_before (a b : PortfolioOverview.Row) :
  before PortfolioOverview.byAmountDesc a b <-> (PortfolioOverview.amount b <= PortfolioOverview.amount a)%Q.
Proof.
  unfold before, PortfolioOverview.byAmountDesc, JS.signQ. rewrite <- Qle_alt. split; intro H; lra.
Qed.

Lemma byAmountDesc_total (a b : PortfolioOverview.Row) :
  PortfolioOverview.byAmountDesc a b = Gt -> PortfolioOverview.byAmountDesc b a <> Gt.
Proof.
  intro H. apply byAmountDesc_before.
  assert (Hab : ~ before PortfolioOverview.byAmountDesc a b) by (unfold before; congruence).
  rewrite byAmountDesc_before in Hab. lra.
Qed.

Lemma byAmountDesc_trans : Relations_1.Transitive (before PortfolioOverview.byAmountDesc).
Proof.
  intros a b c. rewrite !byAmountDesc_before. intros; lra.
Qed.

Lemma po_at_keys (o : JSObject.t PortfolioOverview.Summary) :
  NoDup (map fst o) -> map (PortfolioOverview.at_ o) (map fst o) = map snd o.
Proof.
  induction o as [|[k v] o IH]; simpl; [reflexivity|].
  intro Hnd. inversion Hnd as [|? ? Hnotin Hnd']. subst.
  unfold PortfolioOverview.at_ at 1. simpl. rewrite String.eqb_refl. f_equal.
  rewrite <- (IH Hnd'). apply map_ext_in. intros d Hd.
  unfold PortfolioOverview.at_. simpl.
  destruct (k =? d)%string eqn:E; [|reflexivity].
  apply String.eqb_eq in E. subst. contradiction.
Qed.

Lemma Qsum_scale {A} (f : A -> Q) (c : Q) (l : list A) :
  ~ (c == 0)%Q ->
  (Qsum (map (fun x => f x / c * 100) l) == Qsum (map f l) / c * 100)%Q.
Proof.
  intro Hc. induction l as [|x l IH]; simpl.
  - field. exact Hc.
  - rewrite IH. field. exact Hc.
Qed.

Lemma Qltb_proper (x y : Q) : (x == y)%Q -> JS.Qltb 0 x = JS.Qltb 0 y.
Proof.
  intro H. destruct (JS.Qltb 0 x) eqn:E1, (JS.Qltb 0 y) eqn:E2; try reflexivity.
  - apply Qltb_lt in E1. apply Qltb_ge in E2. rewrite H in E1. lra.
  - apply Qltb_ge in E1. apply Qltb_lt in E2. rewrite H in E1. lra.
Qed.

Lemma totalInvested_sum (ts : list Trade) :
  (PortfolioOverview.totalInvestedOf (PortfolioOverview.summaryOf ts) == Qsum (map invested ts))%Q.
Proof.
  unfold PortfolioOverview.totalInvestedOf, PortfolioOverview.summaryOf.
  destruct (@summary_spec ts JSObject.empty (NoDup_nil _))
    as (Hnd & _ & _ & _ & Hsum).
  rewrite fold_left_Qplus, Qplus_0_l.
  rewrite (Qsum_perm (Permutation_map PortfolioOverview.investedAmount (@values_perm _ _ Hnd))).
  rewrite Hsum. simpl. ring.
Qed.


(** ** Timestamps of the stored trades *)

Lemma updated_stamped (t : Trade) (data : App.TradeData.t) :
  stamped (App.updated t data)
  /\ date (App.updated t data) = App.TradeData.date data
  /\ id (App.updated t data) = id t.
Proof. repeat split. Qed.

Lemma created_stamped (newId : string) (data : App.TradeData.t) :
  stamped (App.created newId data)
  /\ date (App.created newId data) = App.TradeData.date data.
Proof. repeat split. Qed.

Lemma handleSaveTrade_In editingTrade newId data prev t :
  In t (App.handleSaveTrade editingTrade newId data prev) ->
  In t prev
  \/ (date t = App.TradeData.date data
      /\ timestamp t = JSDate.parse (App.TradeData.date data)).
Proof.
  unfold App.handleSaveTrade. destruct editingTrade as [e|].
  - intro H. apply in_map_iff in H. destruct H as (t0 & Ht & Hin).
    destruct (id t0 =? id e)%string; subst t; [right|left; exact Hin].
    split; reflexivity.
  - intro H. apply in_app_or in H. destruct H as [H|[<-|[]]]; [now left|right].
    split; reflexivity.
Qed.

Lemma handleSaveTrade_edit e newId data prev t :
  In t (App.handleSaveTrade (Some e) newId data prev) ->
  (id t = id e -> date t = App.TradeData.date data /\ stamped t)
  /\ (id t <> id e -> In t prev).
Proof.
  unfold App.handleSaveTrade. intro H. apply in_map_iff in H.
  destruct H as (t0 & Ht & Hin).
  destruct (id t0 =? id e)%string eqn:E; subst t.
  - apply String.eqb_eq in E. split.
    + intros _. split; reflexivity.
    + intro Hne. simpl in Hne. congruence.
  - apply String.eqb_neq in E. split; [congruence|now intros _].
Qed.

Lemma handleSaveTrade_stamped editingTrade newId data prev :
  Forall stamped prev ->
  Forall stamped (App.handleSaveTrade editingTrade newId data prev).
Proof.
  intro H. rewrite Forall_forall in *. intros t Ht.
  apply handleSaveTrade_In in Ht. destruct Ht as [Ht|[Hd Hts]].
  - now apply H.
  - unfold stamped. now rewrite Hts, Hd.
Qed.

Lemma handleDeleteTrade_stamped confirmed i prev :
  Forall stamped prev -> Forall stamped (App.handleDeleteTrade confirmed i prev).
Proof.
  intro H. unfold App.handleDeleteTrade. destruct confirmed; [|exact H].
  rewrite Forall_forall in *. intros t Ht. apply filter_In in Ht. now apply H.
Qed.

Lemma parse_utc_midnight (d : string) (x : Z) :
  JSDate.parse d = Some x ->
  (x mod JSDate.msPerDay = 0)%Z
  /\ forall tz, localMidnight tz d = Some x <-> tz = 0%Z.
Proof.
  intro H. split; [apply (parse_Some _ H)|].
  intro tz. unfold localMidnight, JSDate.UTC. rewrite H. simpl. split.
  - intro E. inversion E. lia.
  - intros ->. f_equal. lia.
Qed.

(** The generated trades. *)
Lemma generateOne_dated random base36 now i k t k' :
  App.generateOne random base36 now i k = (Some t, k') -> datedByInstant t.
Proof.
  unfold App.generateOne. cbv zeta.
  destruct (JSDate.ofTime _) as [ms|] eqn:E; [|discriminate].
  intro H. inversion H. subst. exists ms. split; reflexivity.
Qed.

Lemma generateLoop_dated random base36 now n i k acc l :
  App.generateLoop random base36 now n i k acc = Some l ->
  Forall datedByInstant acc -> Forall datedByInstant l.
Proof.
  revert i k acc. induction n as [|n IH]; intros i k acc; simpl.
  - intros H Hacc. inversion H. now subst.
  - destruct (App.generateOne random base36 now i k) as [[t|] k'] eqn:E;
      [|discriminate].
    intros H Hacc. apply (IH _ _ _ H).
    apply Forall_app. split; [exact Hacc|].
    constructor; [|constructor]. eapply generateOne_dated, E.
Qed.

Lemma generateLargeDataset_dated random base36 now l :
  App.generateLargeDataset random base36 now = Some l ->
  Forall datedByInstant l.
Proof.
  unfold App.generateLargeDataset.
  destruct (App.generateLoop random base36 now 1000 0 0 []) as [l0|] eqn:E;
    [|discriminate].
  simpl. intro H. inversion H. subst.
  apply generateLoop_dated in E; [|constructor].
  rewrite Forall_forall in *. intros t Ht.
  apply E. apply (Permutation_in _ (sort_perm App.byTimestampDesc l0)). exact Ht.
Qed.

(** C9 as stated does not hold: in a zone one hour ahead of UTC a trade
    created for 2024-02-05 gets a timestamp that is not local midnight of
    that date, and a generated trade carries the instant it was drawn at,
    which is not midnight in any zone. *)
Lemma timestamp_is_not_local_midnight :
  (exists t, In t (App.handleSaveTrade None "n1" sampleData [])
             /\ timestamp t <> localMidnight 3600000 (date t))
  /\ match App.generateLargeDataset thirds abc 1707091200123 with
     | Some (t :: _) => timestamp t <> localMidnight 0 (date t)
     | _ => False
     end.
Proof.
  split.
  - exists (App.created "n1" sampleData). split; [now left|].
    vm_compute. discriminate.
  - vm_compute. discriminate.
Qed.

(** C9, amended.  Every create or edit gives the saved trade the timestamp
    [new Date(date).getTime()] of its (possibly new) date and leaves the
    other trades as they were, and a delete changes no trade, so
    "timestamp = parsed date" is kept by every repository operation.  The
    parsed date is midnight UTC of that date; it is local midnight only in
    a zone of offset zero.  The generated trades carry an instant as
    timestamp and the UTC calendar date of that instant as date. *)
Theorem timestamps_follow_Date_parse
    (editingTrade : option Trade) (newId : string) (data : App.TradeData.t)
    (prev : list Trade) (confirmed : bool) (i : string)
    (random : nat -> Q) (base36 : Q -> string) (now : Z) :
  let saved := App.handleSaveTrade editingTrade newId data prev in
  (forall t, In t saved ->
     In t prev
     \/ (date t = App.TradeData.date data
         /\ timestamp t = JSDate.parse (App.TradeData.date data)))
  /\ (editingTrade = None ->
      saved = prev ++ [App.created newId data]
      /\ stamped (App.created newId data))
  /\ (forall e t, editingTrade = Some e -> In t saved ->
        (id t = id e -> date t = App.TradeData.date data /\ stamped t)
        /\ (id t <> id e -> In t prev))
  /\ (Forall stamped prev ->
      Forall stamped saved
      /\ Forall stamped (App.handleDeleteTrade confirmed i prev))
  /\ (forall d x, JSDate.parse d = Some x ->
        (x mod JSDate.msPerDay = 0)%Z
        /\ forall tz, localMidnight tz d = Some x <-> tz = 0%Z)
  /\ (forall l, App.generateLargeDataset random base36 now = Some l ->
        Forall datedByInstant l).
Proof.
  intro saved. subst saved.
  split; [intros t; apply handleSaveTrade_In|].
  split; [intros ->; split; reflexivity|].
  split; [intros e t -> Hin; now apply handleSaveTrade_edit with (newId := newId) (prev := prev)|].
  split; [intro H; split;
          [now apply handleSaveTrade_stamped|now apply handleDeleteTrade_stamped]|].
  split; [intros d x; apply parse_utc_midnight|].
  intro l. apply generateLargeDataset_dated.
Qed.

Lemma timestamps_follow_Date_parse_witness :
  JSDate.parse "2024-02-05" = Some 1707091200000%Z
  /\ (1707091200000 mod JSDate.msPerDay = 0)%Z.
Proof.
  assert (H : JSDate.parse "2024-02-05" = Some 1707091200000%Z) by reflexivity.
  split; [exact H|].
  exact (proj1 (proj1 (proj2 (proj2 (proj2 (proj2
    (timestamps_follow_Date_parse None "n1" sampleData [] true "x"
       thirds abc 0))))) "2024-02-05"%string 1707091200000%Z H)).
Defined.

(** ** The trade history and the arrays it is handed *)

Lemma byTimestampDesc_before (a b : Trade) :
  before App.byTimestampDesc a b <-> notOlder a b.
Proof.
  unfold before, notOlder, App.byTimestampDesc, JS.signTime, JS.subT.
  destruct (timestamp a) as [x|], (timestamp b) as [y|].
  - split.
    + intros H x' y' Hx Hy. inversion Hx. inversion Hy. subst.
      destruct (Z.compare_spec (y' - x') 0); [lia|lia|congruence].
    + intros H E. specialize (H x y eq_refl eq_refl).
      apply Z.compare_gt_iff in E. lia.
  - split; [intros _ x' y' _ Hy; discriminate|discriminate].
  - split; [intros _ x' y' Hx; discriminate|discriminate].
  - split; [intros _ x' y' Hx; discriminate|discriminate].
Qed.

Lemma byTimestampDesc_total (a b : Trade) :
  App.byTimestampDesc a b = Gt -> App.byTimestampDesc b a <> Gt.
Proof.
  unfold App.byTimestampDesc, JS.signTime, JS.subT.
  destruct (timestamp a) as [x|], (timestamp b) as [y|]; try discriminate.
  rewrite !Z.compare_gt_iff. lia.
Qed.

(** ** The store *)

Lemma read_write_same (h : Store.t) (r : Store.ref) (v : list Trade) :
  (r < List.length h)%nat -> Store.read (Store.write h r v) r = v.
Proof.
  unfold Store.read. revert r. induction h as [|x h IH]; intros r Hr; simpl in *.
  - lia.
  - destruct r as [|r]; simpl; [reflexivity|]. apply IH. lia.
Qed.

Lemma read_write_other (h : Store.t) (r r' : Store.ref) (v : list Trade) :
  r' <> r -> Store.read (Store.write h r v) r' = Store.read h r'.
Proof.
  unfold Store.read. revert r r'. induction h as [|x h IH]; intros r r' Hne; simpl.
  - reflexivity.
  - destruct r as [|r], r' as [|r']; simpl; try reflexivity; try congruence.
    apply IH. congruence.
Qed.

Lemma len_zero_nil {A} (l : list A) : (JS.len l =? 0)%Z = true -> l = [].
Proof. apply len_nil_iff. Qed.

Lemma render_spec (h : Store.t) (r : Store.ref) :
  (r < List.length h)%nat ->
  let out := TradeHistory.render h r in
  Store.read (fst out) r = JS.sort App.byTimestampDesc (Store.read h r)
  /\ snd out = JS.sort App.byTimestampDesc (Store.read h r)
  /\ forall r', r' <> r -> Store.read (fst out) r' = Store.read h r'.
Proof.
  intros Hr out. subst out. unfold TradeHistory.render.
  destruct (JS.len (Store.read h r) =? 0)%Z eqn:E.
  - apply len_zero_nil in E. rewrite E. simpl. repeat split. exact E.
  - cbv zeta. cbn [fst snd]. split; [now apply read_write_same|].
    split; [reflexivity|]. intros r' Hne. now apply read_write_other.
Qed.

(** C10 as stated does not hold for the history shown on the dashboard: it
    is handed a copy, [filteredTrades.slice(0, 5)], so the rows are shown
    newest first while the filtered list itself stays in its original
    order. *)
Lemma dashboard_history_leaves_filtered_list_in_order :
  let out := AppRender.renderHistory AppRender.dashboard [oldestFirst] 0%nat in
  Store.read (fst out) 0%nat = oldestFirst
  /\ snd out = rev oldestFirst
  /\ Store.read (fst out) 0%nat <> JS.sort App.byTimestampDesc oldestFirst.
Proof.
  cbv zeta. split; [reflexivity|]. split; [reflexivity|].
  vm_compute. discriminate.
Qed.

(** C10, amended.  Rendering the history sorts the array it is given in
    place by descending timestamp: afterwards that array holds a
    permutation of the same records, each never older than the next, every
    other array is untouched, and the order has changed exactly when the
    array was not already in that order.  On the trade log the array is the
    filtered list itself; on the dashboard it is a fresh copy of the first
    five trades, and no existing array changes. *)
Theorem history_sorts_the_array_it_is_given (h : Store.t) (r : Store.ref) :
  (r < List.length h)%nat ->
  let arr := Store.read h r in
  let sorted := JS.sort App.byTimestampDesc arr in
  let out := TradeHistory.render h r in
  Store.read (fst out) r = sorted
  /\ snd out = sorted
  /\ (forall r', r' <> r -> Store.read (fst out) r' = Store.read h r')
  /\ Permutation sorted arr
  /\ Sorted notOlder sorted
  /\ (sorted = arr <-> Sorted notOlder arr)
  /\ AppRender.renderHistory AppRender.log h r = out
  /\ (forall r', (r' < List.length h)%nat ->
        Store.read (fst (AppRender.renderHistory AppRender.dashboard h r)) r'
        = Store.read h r')
  /\ snd (AppRender.renderHistory AppRender.dashboard h r)
     = JS.sort App.byTimestampDesc (JS.slice0 5 arr).
Proof.
  intros Hr arr sorted out. subst arr sorted out.
  destruct (render_spec h Hr) as (H1 & H2 & H3).
  assert (Hiff : forall l, Sorted (before App.byTimestampDesc) l <-> Sorted notOlder l).
  { intro l. split; intro H; induction H as [|a l' Hs IH Hd]; constructor;
      try exact IH; destruct Hd; constructor; now apply byTimestampDesc_before. }
  split; [exact H1|]. split; [exact H2|]. split; [exact H3|].
  split; [apply sort_perm|].
  split; [apply Hiff, sort_sorted, byTimestampDesc_total|].
  split; [rewrite <- Hiff; apply sort_fixed_iff, byTimestampDesc_total|].
  split; [reflexivity|].
  unfold AppRender.renderHistory.
  set (a := Store.alloc h (JS.slice0 5 (Store.read h r))).
  assert (Ha1 : forall r', (r' < List.length h)%nat ->
                  Store.read (fst a) r' = Store.read h r')
    by (intros; now apply read_alloc_old).
  assert (Ha2 : Store.read (fst a) (snd a) = JS.slice0 5 (Store.read h r))
    by apply read_alloc_new.
  assert (Ha3 : (snd a < List.length (fst a))%nat)
    by (unfold a; rewrite alloc_length; simpl; lia).
  assert (Ha4 : snd a = List.length h) by reflexivity.
  destruct a as [h1 recent]. cbn [fst snd] in *.
  destruct (render_spec h1 Ha3) as (G1 & G2 & G3).
  split.
  - intros r' Hr'. rewrite G3 by lia. now apply Ha1.
  - now rewrite G2, Ha2.
Qed.

Lemma history_sorts_the_array_it_is_given_witness :
  (0 < List.length [oldestFirst])%nat
  /\ Store.read (fst (TradeHistory.render [oldestFirst] 0%nat)) 0%nat
     = JS.sort App.byTimestampDesc (Store.read [oldestFirst] 0%nat).
Proof.
  assert (H : (0 < List.length [oldestFirst])%nat) by (simpl; lia).
  split; [exact H|].
  exact (proj1 (@history_sorts_the_array_it_is_given [oldestFirst] 0%nat H)).
Defined.

Lemma chartData_sums_the_profits_in_date_order_witness :
  TradeCharts.chartData scenario1
  = [TradeCharts.mkPoint "2024-01-01" 500 500]
    ++ [TradeCharts.mkPoint "2024-01-02" (-50) 450]
  /\ (TradeCharts.cumulative (TradeCharts.mkPoint "2024-01-02" (-50) 450)
      == totalProfit (App.stats scenario1))%Q.
Proof.
  assert (H : TradeCharts.chartData scenario1
              = [TradeCharts.mkPoint "2024-01-01" 500 500]
                ++ [TradeCharts.mkPoint "2024-01-02" (-50) 450])
    by (vm_compute; reflexivity).
  split; [exact H|].
  exact (proj1 (proj2 (proj2 (proj2 (proj2
    (chartData_sums_the_profits_in_date_order scenario1))))) _ _ H).
Defined.


(** ** Further properties of the code *)

(** ** The counts and the means of the statistics *)

Lemma filter_split_length {A} (f : A -> bool) (l : list A) :
  (List.length (filter f l) + List.length (filter (fun x => negb (f x)) l)
   = List.length l)%nat.
Proof.
  induction l as [|a l IH]; simpl; [reflexivity|].
  destruct (f a); simpl; lia.
Qed.

(** X1.  The statistics count every trade of the list: [totalTrades] is
    its length, [openPositions] the number of its trades without a sell
    price, and the two kinds of trades make up the list. *)
Theorem stats_counts_open_and_closed (ts : list Trade) :
  let st := App.stats ts in
  totalTrades st = JS.len ts
  /\ openPositions st = JS.len (App.openPositionsTrades ts)
  /\ (openPositions st + JS.len (App.closedTrades ts) = totalTrades st)%Z
  /\ (0 <= openPositions st <= totalTrades st)%Z
  /\ Permutation ts (App.closedTrades ts ++ App.openPositionsTrades ts).
Proof.
  intro st. subst st.
  pose proof (filter_split_length isClosed ts) as H.
  assert (P : Permutation ts (App.closedTrades ts ++ App.openPositionsTrades ts)).
  { unfold App.closedTrades, App.openPositionsTrades. clear H.
    induction ts as [|t ts IH]; simpl; [constructor|].
    destruct (isClosed t); simpl.
    - now constructor.
    - rewrite <- Permutation_middle. now constructor. }
  unfold App.stats, App.closedTrades, App.openPositionsTrades in *.
  destruct (JS.len ts =? 0)%Z eqn:E.
  - apply len_nil_iff in E. subst ts. cbn. repeat split; try lia. constructor.
  - cbv zeta. cbn [totalTrades openPositions]. unfold JS.len in *.
    repeat split; try lia. exact P.
Qed.

Lemma cnt_nonzero {A} (l : list A) : l <> [] -> ~ (cnt l == 0)%Q.
Proof.
  destruct l; [congruence|]. intros _. unfold cnt, Qeq. simpl. lia.
Qed.

Lemma stats_means (ts : list Trade) :
  ts <> [] ->
  let s := fold_left App.scanStep (App.closedTrades ts) App.scan0 in
  avgBuyPrice (App.stats ts)
  = JS.Num (fold_left (fun sum t => (sum + buyPrice t)%Q) ts 0%Q
            / inject_Z (JS.len ts))%Q
  /\ (App.closedTrades ts <> [] ->
      avgSellPrice (App.stats ts)
      = JS.Num (App.sTotalSellPrice s
                / inject_Z (JS.len (App.closedTrades ts)))%Q
      /\ avgProfitPerTrade (App.stats ts)
         = JS.Num (App.sTotalProfit s
                   / inject_Z (JS.len (App.closedTrades ts)))%Q).
Proof.
  intros Hne s. subst s. unfold App.stats.
  destruct (JS.len ts =? 0)%Z eqn:E.
  - apply len_nil_iff in E. congruence.
  - cbv zeta. cbn [avgBuyPrice avgSellPrice avgProfitPerTrade].
    rewrite (len_pos Hne), (div_Num _ (inject_len_nonzero Hne)).
    split; [reflexivity|]. intro Hc.
    rewrite (len_pos Hc), !(div_Num _ (inject_len_nonzero Hc)).
    split; reflexivity.
Qed.

Lemma Qsum_le_max (ps : list Q) (b : Q) :
  Forall (fun p => (p <= b)%Q) ps -> (Qsum ps <= b * cnt ps)%Q.
Proof.
  induction 1 as [|p ps Hp _ IH]; unfold cnt in *; simpl List.length.
  - simpl. rewrite Qmult_0_r. apply Qle_refl.
  - rewrite Nat2Z.inj_succ. unfold Z.succ. rewrite inject_Z_plus. simpl Qsum.
    change (inject_Z 1) with 1%Q. lra.
Qed.

Lemma Qsum_ge_min (ps : list Q) (w : Q) :
  Forall (fun p => (w <= p)%Q) ps -> (w * cnt ps <= Qsum ps)%Q.
Proof.
  induction 1 as [|p ps Hp _ IH]; unfold cnt in *; simpl List.length.
  - simpl. rewrite Qmult_0_r. apply Qle_refl.
  - rewrite Nat2Z.inj_succ. unfold Z.succ. rewrite inject_Z_plus. simpl Qsum.
    change (inject_Z 1) with 1%Q. lra.
Qed.

Lemma cnt_pos {A} (l : list A) : l <> [] -> (0 < cnt l)%Q.
Proof.
  destruct l; [congruence|]. intros _. unfold cnt, Qlt. simpl. lia.
Qed.

(** X2.  On a non-empty list [avgBuyPrice] is the mean buy price of all
    trades; when there is a closed trade, [avgSellPrice] and
    [avgProfitPerTrade] are the mean sell price and the mean profit of the
    closed trades, and the mean profit lies between [worstTrade] and
    [bestTrade]. *)
Theorem stats_averages_are_means (ts : list Trade) :
  ts <> [] ->
  let st := App.stats ts in
  let closed := App.closedTrades ts in
  hasValue (avgBuyPrice st) (Qsum (map buyPrice ts) / cnt ts)
  /\ (closed <> [] ->
      hasValue (avgSellPrice st)
        (Qsum (map (fun t => JS.asNumber (sellPrice t)) closed) / cnt closed)
      /\ hasValue (avgProfitPerTrade st) (Qsum (profits ts) / cnt closed)
      /\ exists a b w,
           avgProfitPerTrade st = JS.Num a
           /\ bestTrade st = JS.Num b /\ worstTrade st = JS.Num w
           /\ (w <= a <= b)%Q).
Proof.
  intros Hne st closed. subst st closed.
  destruct (stats_means Hne) as [Hb Hc]. cbv zeta in Hc.
  split.
  - eexists. split; [exact Hb|].
    rewrite (fold_left_Qplus buyPrice ts 0). unfold cnt, JS.len.
    pose proof (@cnt_nonzero _ ts Hne) as Hn. unfold cnt in Hn.
    field. exact Hn.
  - intro Hcl. destruct (Hc Hcl) as [Hs Hp]. clear Hc.
    pose proof (scan_spec (App.closedTrades ts)) as H. cbv zeta in H.
    destruct H as (Ep & Es & _ & Hbest & Hworst).
    pose proof (@cnt_nonzero _ (App.closedTrades ts) Hcl) as Hn.
    pose proof (@cnt_pos _ (App.closedTrades ts) Hcl) as Hpos.
    assert (Ea : (App.sTotalProfit
                    (fold_left App.scanStep (App.closedTrades ts) App.scan0)
                  / inject_Z (JS.len (App.closedTrades ts))
                  == Qsum (profits ts) / cnt (App.closedTrades ts))%Q).
    { rewrite Ep. unfold profits, App.closedTrades, cnt, JS.len in *.
      field. exact Hn. }
    split; [|split].
    + eexists. split; [exact Hs|].
      rewrite Es. unfold cnt, JS.len in *. field. exact Hn.
    + eexists. split; [exact Hp|exact Ea].
    + destruct (stats_nonempty ts Hcl) as (_ & _ & Hbt & Hwt).
      unfold bestOf, worstOf in Hbest, Hworst.
      assert (Hlen : cnt (App.closedTrades ts)
                     = cnt (map profitOf (App.closedTrades ts)))
        by (unfold cnt; now rewrite length_map).
      assert (Eprof : profits ts = map profitOf (App.closedTrades ts))
        by reflexivity.
      destruct (map profitOf (App.closedTrades ts)) as [|p ps] eqn:Em.
      { destruct (App.closedTrades ts); [congruence|discriminate]. }
      destruct Hbest as (b & Hm & _ & Hmax).
      destruct Hworst as (w & Hm' & _ & Hmin).
      rewrite Hm in Hbt. rewrite Hm' in Hwt.
      cbn [JS.isNegInfinity JS.isInfinity] in Hbt, Hwt.
      eexists. exists b, w.
      split; [exact Hp|]. split; [exact Hbt|]. split; [exact Hwt|].
      rewrite Ea, Eprof.
      apply Qsum_le_max in Hmax. apply Qsum_ge_min in Hmin.
      rewrite <- Hlen in Hmax, Hmin.
      split.
      * apply Qle_shift_div_l; [exact Hpos|exact Hmin].
      * apply Qle_shift_div_r; [exact Hpos|exact Hmax].
Qed.

Lemma stats_averages_are_means_witness :
  scenario1 <> []
  /\ hasValue (avgBuyPrice (App.stats scenario1))
       (Qsum (map buyPrice scenario1) / cnt scenario1).
Proof.
  assert (H : scenario1 <> []) by discriminate.
  split; [exact H|].
  exact (proj1 (@stats_averages_are_means scenario1 H)).
Defined.

(** ** Deleting and saving trades *)

Lemma filter_comm {A} (f g : A -> bool) (l : list A) :
  filter f (filter g l) = filter g (filter f l).
Proof.
  induction l as [|a l IH]; simpl; [reflexivity|].
  destruct (f a) eqn:Ef, (g a) eqn:Eg; simpl; rewrite ?Ef, ?Eg, IH;
    reflexivity.
Qed.

Lemma filter_idem {A} (f : A -> bool) (l : list A) :
  filter f (filter f l) = filter f l.
Proof.
  induction l as [|a l IH]; simpl; [reflexivity|].
  destruct (f a) eqn:Ef; simpl; rewrite ?Ef, IH; reflexivity.
Qed.

Lemma filter_all {A} (f : A -> bool) (l : list A) :
  (forall x, In x l -> f x = true) -> filter f l = l.
Proof.
  induction l as [|a l IH]; simpl; [reflexivity|]. intro H.
  rewrite (H a (or_introl eq_refl)), IH; [reflexivity|].
  intros x Hx. apply H. now right.
Qed.

Lemma filteredTrades_as_filter tz now stockFilter tf cs ce :
  exists f : Trade -> bool,
    forall trades,
      App.filteredTrades tz now trades stockFilter tf cs ce = filter f trades.
Proof.
  assert (Htf : tf = ALL \/ tf <> ALL)
    by (destruct tf; first [now left | right; discriminate]).
  destruct Htf as [->|Hne].
  - exists (App.symbolMatches stockFilter). intro trades.
    apply filteredTrades_ALL.
  - exists (keeps stockFilter (App.window tz now tf cs ce)). intro trades.
    now apply filteredTrades_window.
Qed.


Lemma updated_id (t : Trade) (data : App.TradeData.t) :
  id (App.updated t data) = id t.
Proof. reflexivity. Qed.

(** X4.  Saving a new trade appends it, under the generated id, after the
    trades already present.  Saving an edit keeps the number, the ids and
    the positions of the trades: the trades carrying the edited id are
    replaced in place by their updated versions and the others are left as
    they were. *)
Theorem handleSaveTrade_appends_or_updates_in_place
    (newId : string) (data : App.TradeData.t) (prev : list Trade) :
  (let next := App.handleSaveTrade None newId data prev in
   next = prev ++ [App.created newId data]
   /\ List.length next = S (List.length prev)
   /\ id (App.created newId data) = newId)
  /\ forall e,
       let next := App.handleSaveTrade (Some e) newId data prev in
       map id next = map id prev
       /\ List.length next = List.length prev
       /\ (forall n t, nth_error prev n = Some t ->
             nth_error next n
             = Some (if (id t =? id e)%string
                     then App.updated t data else t))
       /\ ((forall t, In t prev -> id t <> id e) -> next = prev).
Proof.
  split.
  - cbv zeta. unfold App.handleSaveTrade.
    split; [reflexivity|]. split; [|reflexivity].
    rewrite length_app. simpl. lia.
  - intros e next. subst next. unfold App.handleSaveTrade.
    split; [|split; [|split]].
    + rewrite map_map. apply map_ext. intro t.
      destruct (id t =? id e)%string; reflexivity.
    + apply length_map.
    + intros n t H. rewrite nth_error_map, H. reflexivity.
    + intro H. rewrite <- (map_id prev) at 2. apply map_ext_in.
      intros t Hin. destruct (id t =? id e)%string eqn:E; [|reflexivity].
      apply String.eqb_eq in E. now elim (H t Hin).
Qed.

(** ** The filter as a function of the list *)

Lemma upperChar_idem (c : ascii) : JS.upperChar (JS.upperChar c) = JS.upperChar c.
Proof. destruct c as [[] [] [] [] [] [] [] []]; reflexivity. Qed.

Lemma toUpperCase_idem (s : string) :
  JS.toUpperCase (JS.toUpperCase s) = JS.toUpperCase s.
Proof.
  induction s as [|c s IH]; simpl; [reflexivity|].
  now rewrite upperChar_idem, IH.
Qed.

Lemma symbolMatches_upper (stockFilter : string) (t : Trade) :
  App.symbolMatches (JS.toUpperCase stockFilter) t
  = App.symbolMatches stockFilter t.
Proof. unfold App.symbolMatches. now rewrite toUpperCase_idem. Qed.

Lemma filteredTrades_upper tz now trades stockFilter tf cs ce :
  App.filteredTrades tz now trades (JS.toUpperCase stockFilter) tf cs ce
  = App.filteredTrades tz now trades stockFilter tf cs ce.
Proof.
  assert (Htf : tf = ALL \/ tf <> ALL)
    by (destruct tf; first [now left | right; discriminate]).
  destruct Htf as [->|Hne].
  - rewrite !filteredTrades_ALL. apply filter_ext. intro t.
    apply symbolMatches_upper.
  - rewrite !(filteredTrades_window tz now trades _ cs ce Hne).
    apply filter_ext. intro t. unfold keeps.
    now rewrite symbolMatches_upper.
Qed.

(** X5.  The filter selects from the list: its result is a part of the
    input, filtering the result again changes nothing, the filter text may
    be typed in either case, and the filter of a concatenation is the
    concatenation of the filters. *)
Theorem filteredTrades_idempotent_case_insensitive
    tz now (trades : list Trade) stockFilter tf cs ce :
  let result := App.filteredTrades tz now trades stockFilter tf cs ce in
  App.filteredTrades tz now result stockFilter tf cs ce = result
  /\ App.filteredTrades tz now trades (JS.toUpperCase stockFilter) tf cs ce
     = result
  /\ (forall t, In t result -> In t trades)
  /\ (List.length result <= List.length trades)%nat
  /\ (forall more,
        App.filteredTrades tz now (trades ++ more) stockFilter tf cs ce
        = result ++ App.filteredTrades tz now more stockFilter tf cs ce)
  /\ App.filteredTrades tz now [] stockFilter tf cs ce = [].
Proof.
  intro result. subst result.
  destruct (filteredTrades_as_filter tz now stockFilter tf cs ce) as [f Hf].
  split; [|split; [|split; [|split; [|split]]]].
  - rewrite !Hf. apply filter_idem.
  - apply filteredTrades_upper.
  - intros t. rewrite Hf, filter_In. tauto.
  - rewrite Hf. apply filter_length_le.
  - intro more. rewrite !Hf. apply filter_app.
  - now rewrite Hf.
Qed.

(** ** The symbols of the dropdown *)

Lemma distinctFrom_In (seen xs : list string) (x : string) :
  In x (JS.distinctFrom seen xs) <-> In x xs /\ ~ In x seen.
Proof.
  revert seen. induction xs as [|y xs IH]; intro seen; simpl; [tauto|].
  destruct (existsb (String.eqb y) seen) eqn:E.
  - apply existsb_exists in E. destruct E as (z & Hz & Ez).
    apply String.eqb_eq in Ez. subst z.
    rewrite IH. split; [tauto|]. intros [[->|H] Hn]; tauto.
  - assert (Hy : ~ In y seen).
    { intro H. assert (X : existsb (String.eqb y) seen = true).
      { apply existsb_exists. exists y. split; [exact H|apply String.eqb_refl]. }
      congruence. }
    simpl. rewrite IH. simpl. split.
    + intros [->|[H Hn]]; [tauto|]. split; [tauto|]. tauto.
    + intros [[->|H] Hn]; [tauto|].
      destruct (string_dec y x) as [->|Hne]; [tauto|]. right.
      split; [exact H|]. intros [E'|H']; [congruence|tauto].
Qed.

Lemma distinctFrom_NoDup (seen xs : list string) :
  NoDup (JS.distinctFrom seen xs).
Proof.
  revert seen. induction xs as [|y xs IH]; intro seen; simpl; [constructor|].
  destruct (existsb (String.eqb y) seen); [apply IH|].
  constructor; [|apply IH].
  rewrite distinctFrom_In. simpl. tauto.
Qed.

Lemma strictly_sorted_unique (l1 l2 : list string) :
  StronglySorted strictlyBefore l1 -> StronglySorted strictlyBefore l2 ->
  (forall x, In x l1 <-> In x l2) -> l1 = l2.
Proof.
  assert (irrefl : forall a, ~ strictlyBefore a a).
  { intros a H. unfold strictlyBefore in H.
    rewrite string_compare_refl in H. discriminate. }
  assert (asym : forall a b, strictlyBefore a b -> ~ strictlyBefore b a).
  { intros a b H1 H2. apply (irrefl a).
    unfold strictlyBefore in *. now apply string_compare_lt_trans with b. }
  intro H1. revert l2. induction H1 as [|a l1 Hs1 IH Ha]; intros l2 H2 Hin.
  - destruct l2 as [|b l2]; [reflexivity|].
    destruct (proj2 (Hin b) (or_introl eq_refl)).
  - destruct H2 as [|b l2 Hs2 Hb].
    + destruct (proj1 (Hin a) (or_introl eq_refl)).
    + rewrite Forall_forall in Ha, Hb.
      assert (E : a = b).
      { destruct (proj1 (Hin a) (or_introl eq_refl)) as [E|Hab];
          [now symmetry|].
        destruct (proj2 (Hin b) (or_introl eq_refl)) as [E|Hba];
          [exact E|].
        elim (asym a b (Ha b Hba) (Hb a Hab)). }
      subst b. f_equal. apply IH; [exact Hs2|].
      intro x. split; intro Hx.
      * destruct (proj1 (Hin x) (or_intror Hx)) as [E|H]; [|exact H].
        subst x. elim (irrefl a (Ha a Hx)).
      * destruct (proj2 (Hin x) (or_intror Hx)) as [E|H]; [|exact H].
        subst x. elim (irrefl a (Hb a Hx)).
Qed.

Lemma uniqueSymbols_spec (trades : list Trade) :
  StronglySorted strictlyBefore (App.uniqueSymbols trades)
  /\ NoDup (App.uniqueSymbols trades)
  /\ (forall s, In s (App.uniqueSymbols trades)
                <-> exists t, In t trades /\ symbol t = s).
Proof.
  unfold App.uniqueSymbols, JS.setToArray.
  pose proof (sort_perm String.compare
                (JS.distinctFrom [] (map symbol trades))) as Hp.
  pose proof (distinctFrom_NoDup [] (map symbol trades)) as Hnd.
  assert (Hnd' : NoDup (JS.sort String.compare
                          (JS.distinctFrom [] (map symbol trades)))).
  { apply (Permutation_NoDup (Permutation_sym Hp) Hnd). }
  split; [|split; [exact Hnd'|]].
  - apply strictly_sorted; [exact Hnd'|].
    apply sort_strongly_sorted;
      [exact string_compare_total|exact string_before_trans].
  - intro s. split.
    + intro H. apply (Permutation_in _ Hp) in H.
      apply distinctFrom_In in H. destruct H as [H _].
      apply in_map_iff in H. destruct H as (t & E & Ht). eauto.
    + intros (t & Ht & E).
      apply (Permutation_in _ (Permutation_sym Hp)).
      apply distinctFrom_In. split; [|simpl; tauto].
      apply in_map_iff. eauto.
Qed.

(** X6.  The symbols offered by the dropdown are exactly the symbols of the
    trades, each once and in strictly increasing order; they depend on
    nothing but the set of symbols that occur. *)
Theorem uniqueSymbols_sorted_distinct (trades : list Trade) :
  StronglySorted strictlyBefore (App.uniqueSymbols trades)
  /\ NoDup (App.uniqueSymbols trades)
  /\ (forall s, In s (App.uniqueSymbols trades)
                <-> exists t, In t trades /\ symbol t = s)
  /\ (forall others,
        (forall s, (exists t, In t trades /\ symbol t = s)
                   <-> (exists t, In t others /\ symbol t = s)) ->
        App.uniqueSymbols others = App.uniqueSymbols trades).
Proof.
  destruct (uniqueSymbols_spec trades) as (Hs & Hnd & Hin).
  split; [exact Hs|]. split; [exact Hnd|]. split; [exact Hin|].
  intros others H.
  destruct (uniqueSymbols_spec others) as (Hs' & _ & Hin').
  apply strictly_sorted_unique; [exact Hs'|exact Hs|].
  intro x. rewrite Hin, Hin'. symmetry. apply H.
Qed.

(** ** The generated test dataset *)

Section Generated.
Variable random : nat -> Q.
Variable base36 : Q -> string.
Variable now : Z.

Lemma generateLoop_Forall (P : Trade -> Prop) :
  (forall i k t k',
      App.generateOne random base36 now i k = (Some t, k') -> P t) ->
  forall n i k acc l,
    App.generateLoop random base36 now n i k acc = Some l ->
    Forall P acc -> Forall P l.
Proof.
  intros HP n. induction n as [|n IH]; intros i k acc l; simpl.
  - intros H Hacc. inversion H. now subst.
  - destruct (App.generateOne random base36 now i k) as [[t|] k'] eqn:E;
      [|discriminate].
    intros H Hacc. apply (IH _ _ _ _ H).
    apply Forall_app. split; [exact Hacc|].
    constructor; [|constructor]. eapply HP, E.
Qed.

Lemma generateLoop_length n i k acc l :
  App.generateLoop random base36 now n i k acc = Some l ->
  List.length l = (List.length acc + n)%nat.
Proof.
  revert i k acc. induction n as [|n IH]; intros i k acc; simpl.
  - intro H. inversion H. lia.
  - destruct (App.generateOne random base36 now i k) as [[t|] k'];
      [|discriminate].
    intro H. rewrite (IH _ _ _ H), length_app. simpl. lia.
Qed.

Lemma generateLargeDataset_Forall (P : Trade -> Prop) l :
  (forall i k t k',
      App.generateOne random base36 now i k = (Some t, k') -> P t) ->
  App.generateLargeDataset random base36 now = Some l -> Forall P l.
Proof.
  intro HP. unfold App.generateLargeDataset.
  destruct (App.generateLoop random base36 now 1000 0 0 []) as [l0|] eqn:E;
    [|discriminate].
  simpl. intro H. inversion H. subst.
  apply (@generateLoop_Forall P HP _ _ _ _ _) in E; [|constructor].
  rewrite Forall_forall in *. intros t Ht.
  apply E. apply (Permutation_in _ (sort_perm App.byTimestampDesc l0)).
  exact Ht.
Qed.

Lemma floor_of_draw (r : Q) (n : Z) :
  (0 < n)%Z -> (0 <= r)%Q -> (r < 1)%Q ->
  (0 <= Qfloor (r * inject_Z n) < n)%Z.
Proof.
  intros Hn H0 H1.
  assert (Hq : (0 < inject_Z n)%Q) by (unfold Qlt; simpl; lia).
  split.
  - change 0%Z with (Qfloor 0). apply Qfloor_resp_le.
    apply Qmult_le_0_compat; [exact H0|now apply Qlt_le_weak].
  - rewrite Zlt_Qlt.
    apply Qle_lt_trans with (r * inject_Z n)%Q; [apply Qfloor_le|].
    setoid_replace (inject_Z n) with (1 * inject_Z n)%Q at 2 by ring.
    now apply Qmult_lt_compat_r.
Qed.

Lemma basePriceOf_ge (s : string) : (100 <= App.basePriceOf s)%Q.
Proof.
  unfold App.basePriceOf. cbv zeta.
  repeat match goal with
         | |- context [if ?b then _ else _] => destruct b
         end; unfold Qle; simpl; lia.
Qed.

Lemma toFixed2_ge (x : Q) (n : Z) :
  (0 <= n)%Z -> (inject_Z n <= x)%Q -> (inject_Z n <= App.toFixed2 x)%Q.
Proof.
  intros Hn Hx. unfold App.toFixed2. cbv zeta.
  assert (H0 : (0 <= x)%Q).
  { apply Qle_trans with (inject_Z n); [|exact Hx]. unfold Qle. simpl. lia. }
  destruct (JS.Qltb x 0) eqn:E.
  { apply Qltb_lt in E. exfalso. exact (Qlt_not_le _ _ E H0). }
  apply Qle_shift_div_l; [reflexivity|].
  assert (Hf : (n * 100 <= Qfloor (x * 100 + (1 # 2)))%Z).
  { rewrite <- (Qfloor_Z (n * 100)). apply Qfloor_resp_le.
    rewrite inject_Z_mult. change (inject_Z 100) with 100%Q. lra. }
  rewrite Zle_Qle, inject_Z_mult in Hf.
  change (inject_Z 100) with 100%Q in Hf. exact Hf.
Qed.

Lemma generateOne_facts i k t k' :
  App.generateOne random base36 now i k = (Some t, k') ->
  remarks t = Some "Automated 10-Year Test Data"%string
  /\ datedByInstant t
  /\ (unitDraws random ->
      In (symbol t) App.symbols
      /\ (1 <= quantity t <= 50)%Z
      /\ (50 <= buyPrice t)%Q).
Proof.
  intro H. split; [|split; [exact (generateOne_dated _ _ _ _ _ H)|]];
    revert H; unfold App.generateOne; cbv zeta;
    destruct (JSDate.ofTime _) as [ms|]; try discriminate;
    intro H; injection H as Ht _; rewrite <- Ht; clear Ht;
    cbn [remarks symbol quantity buyPrice].
  - reflexivity.
  - intro Hu. split; [|split].
    + destruct (Hu (k + 1)%nat) as [H0 H1].
      pose proof (@floor_of_draw (random (k + 1)%nat) 5 eq_refl H0 H1) as Hf.
      change (inject_Z 5) with 5%Q in Hf.
      change (In (nth (Z.to_nat (Qfloor (random (k + 1)%nat * 5)))
                      App.symbols ""%string) App.symbols).
      apply nth_In. unfold App.symbols. simpl List.length. lia.
    + destruct (Hu (k + 3)%nat) as [H0 H1].
      pose proof (@floor_of_draw (random (k + 3)%nat) 50 eq_refl H0 H1) as Hf.
      change (inject_Z 50) with 50%Q in Hf.
      change (1 <= Qfloor (random (k + 3)%nat * 50) + 1 <= 50)%Z. lia.
    + change (50 <= App.toFixed2
                      (App.basePriceOf
                         (nth (Z.to_nat (Qfloor (random (k + 1)%nat * 5)))
                              App.symbols ""%string)
                       * ((1 # 2) + random (k + 2)%nat)))%Q.
      apply (@toFixed2_ge _ 50); [lia|].
      destruct (Hu (k + 2)%nat) as [H0 _].
      pose proof (basePriceOf_ge
                    (nth (Z.to_nat (Qfloor (random (k + 1)%nat * 5)))
                         App.symbols ""%string)) as Hb.
      set (b := App.basePriceOf _) in *.
      change (inject_Z 50) with 50%Q.
      assert (Hh : (b * (1 # 2) <= b * ((1 # 2) + random (k + 2)%nat))%Q).
      { apply Qmult_le_l; [lra|lra]. }
      lra.
Qed.

(** X7.  When the generator returns, it returns 1000 trades, newest first,
    each marked as test data and dated by the UTC date of its instant; with
    draws in [[0, 1)] every symbol is one of the five listed, every
    quantity lies in 1..50 and every buy price is at least 50.  It is the
    initial list when nothing is stored. *)
Theorem generateLargeDataset_thousand_newest_first (l : list Trade) :
  App.generateLargeDataset random base36 now = Some l ->
  List.length l = 1000%nat
  /\ Sorted notOlder l
  /\ Forall (fun t =>
               remarks t = Some "Automated 10-Year Test Data"%string
               /\ datedByInstant t) l
  /\ (unitDraws random ->
      Forall (fun t => In (symbol t) App.symbols
                       /\ (1 <= quantity t <= 50)%Z
                       /\ (50 <= buyPrice t)%Q) l)
  /\ App.initialTrades random base36 now None = Some l.
Proof.
  intro H. split; [|split; [|split; [|split]]].
  - revert H. unfold App.generateLargeDataset.
    destruct (App.generateLoop random base36 now 1000 0 0 []) as [l0|] eqn:E;
      [|discriminate].
    simpl. intro H. inversion H. subst.
    rewrite (Permutation_length (sort_perm App.byTimestampDesc l0)).
    now rewrite (generateLoop_length _ _ _ _ E).
  - revert H. unfold App.generateLargeDataset.
    destruct (App.generateLoop random base36 now 1000 0 0 []) as [l0|];
      [|discriminate].
    simpl. intro H. inversion H. subst.
    pose proof (@sort_sorted _ _ byTimestampDesc_total l0) as Hs. clear H.
    induction Hs as [|a l' Hs IH Hd]; constructor.
    + exact IH.
    + destruct Hd; constructor. now apply byTimestampDesc_before.
  - apply (@generateLargeDataset_Forall _ l); [|exact H].
    intros i k t k' E. destruct (generateOne_facts _ _ E) as (H1 & H2 & _).
    now split.
  - intro Hu. apply (@generateLargeDataset_Forall _ l); [|exact H].
    intros i k t k' E. destruct (generateOne_facts _ _ E) as (_ & _ & H3).
    now apply H3.
  - exact H.
Qed.

End Generated.

Lemma generated_from_thirds :
  match App.generateLargeDataset thirds abc 1707091200123 with
  | Some _ => true
  | None => false
  end = true.
Proof. vm_compute. reflexivity. Qed.

Lemma generateLargeDataset_thousand_newest_first_witness :
  exists l, App.generateLargeDataset thirds abc 1707091200123 = Some l
            /\ List.length l = 1000%nat.
Proof.
  destruct (App.generateLargeDataset thirds abc 1707091200123) as [l|] eqn:E.
  - exists l. split; [reflexivity|].
    exact (proj1 (@generateLargeDataset_thousand_newest_first
                    thirds abc 1707091200123 l E)).
  - exfalso. pose proof generated_from_thirds as X. rewrite E in X.
    discriminate X.
Defined.

(** ** The performance per symbol *)

Lemma perfAt_set_same (o : JSObject.t TradeCharts.Perf.t) k v :
  TradeCharts.perfAt (JSObject.set o k v) k = v.
Proof. unfold TradeCharts.perfAt. now rewrite get_set_same. Qed.

Lemma perfAt_set_other (o : JSObject.t TradeCharts.Perf.t) k k' v :
  k' <> k ->
  TradeCharts.perfAt (JSObject.set o k v) k' = TradeCharts.perfAt o k'.
Proof. intro H. unfold TradeCharts.perfAt. now rewrite get_set_other. Qed.

Lemma addPerf_open (o : JSObject.t TradeCharts.Perf.t) (t : Trade) :
  isClosed t = false -> TradeCharts.addPerf o t = o.
Proof.
  unfold isClosed, TradeCharts.addPerf. destruct (sellPrice t); congruence.
Qed.

(** What one closed trade does to the dictionary. *)
Lemma addPerf_closed (o : JSObject.t TradeCharts.Perf.t) (t : Trade) :
  isClosed t = true ->
  exists o1,
    (o1 = o /\ (exists v, JSObject.get o (symbol t) = Some v)
     \/ o1 = JSObject.set o (symbol t) (TradeCharts.Perf.mk 0 0 0)
        /\ JSObject.get o (symbol t) = None)
    /\ TradeCharts.addPerf o t
       = JSObject.set
           (JSObject.set o1 (symbol t)
              (TradeCharts.Perf.mk
                 (TradeCharts.Perf.totalProfit
                    (TradeCharts.perfAt o (symbol t)) + profitOf t)
                 (TradeCharts.Perf.count (TradeCharts.perfAt o (symbol t)))
                 (TradeCharts.Perf.avgProfit
                    (TradeCharts.perfAt o (symbol t)))))
           (symbol t)
           (TradeCharts.Perf.mk
              (TradeCharts.Perf.totalProfit
                 (TradeCharts.perfAt o (symbol t)) + profitOf t)
              (TradeCharts.Perf.count (TradeCharts.perfAt o (symbol t)) + 1)
              (TradeCharts.Perf.avgProfit (TradeCharts.perfAt o (symbol t)))).
Proof.
  unfold isClosed, TradeCharts.addPerf, profitOf.
  destruct (sellPrice t) as [sp|]; [intros _|discriminate]. cbv zeta.
  cbn [JS.asNumber].
  destruct (JSObject.get o (symbol t)) as [v|] eqn:Eg.
  - exists o. split; [left; split; [reflexivity|now exists v]|].
    rewrite perfAt_set_same. reflexivity.
  - exists (JSObject.set o (symbol t) (TradeCharts.Perf.mk 0 0 0)).
    split; [right; now split|].
    assert (Hat : TradeCharts.perfAt
                    (JSObject.set o (symbol t) (TradeCharts.Perf.mk 0 0 0))
                    (symbol t)
                  = TradeCharts.perfAt o (symbol t)).
    { rewrite perfAt_set_same. unfold TradeCharts.perfAt. now rewrite Eg. }
    rewrite Hat, perfAt_set_same. reflexivity.
Qed.

Lemma addPerf_at (o : JSObject.t TradeCharts.Perf.t) (t : Trade) (s : string) :
  TradeCharts.perfAt (TradeCharts.addPerf o t) s
  = if isClosed t && (symbol t =? s)%string
    then TradeCharts.Perf.mk
           (TradeCharts.Perf.totalProfit (TradeCharts.perfAt o s) + profitOf t)
           (TradeCharts.Perf.count (TradeCharts.perfAt o s) + 1)
           (TradeCharts.Perf.avgProfit (TradeCharts.perfAt o s))
    else TradeCharts.perfAt o s.
Proof.
  destruct (isClosed t) eqn:Ec; simpl.
  - destruct (addPerf_closed o t Ec) as (o1 & Ho1 & ->).
    destruct (symbol t =? s)%string eqn:E.
    + apply String.eqb_eq in E. subst s. now rewrite perfAt_set_same.
    + apply String.eqb_neq in E.
      rewrite !perfAt_set_other by congruence.
      destruct Ho1 as [[-> _]|[-> _]]; [reflexivity|].
      now rewrite perfAt_set_other by congruence.
  - now rewrite (addPerf_open o t Ec).
Qed.

Lemma addPerf_keys (o : JSObject.t TradeCharts.Perf.t) (t : Trade) (s : string) :
  In s (map fst (TradeCharts.addPerf o t))
  <-> In s (map fst o) \/ (isClosed t = true /\ symbol t = s).
Proof.
  destruct (isClosed t) eqn:Ec.
  - destruct (addPerf_closed o t Ec) as (o1 & Ho1 & ->).
    rewrite !set_In_keys.
    destruct Ho1 as [[-> _]|[-> _]]; [|rewrite set_In_keys];
      intuition congruence.
  - rewrite (addPerf_open o t Ec). intuition congruence.
Qed.

Lemma addPerf_NoDup (o : JSObject.t TradeCharts.Perf.t) (t : Trade) :
  NoDup (map fst o) -> NoDup (map fst (TradeCharts.addPerf o t)).
Proof.
  intro H. destruct (isClosed t) eqn:Ec.
  - destruct (addPerf_closed o t Ec) as (o1 & Ho1 & ->).
    do 2 apply set_NoDup.
    destruct Ho1 as [[-> _]|[-> _]]; [exact H|now apply set_NoDup].
  - now rewrite (addPerf_open o t Ec).
Qed.

Lemma addPerf_sum (o : JSObject.t TradeCharts.Perf.t) (t : Trade) :
  (Qsum (map TradeCharts.Perf.totalProfit (map snd (TradeCharts.addPerf o t)))
   == Qsum (map TradeCharts.Perf.totalProfit (map snd o))
      + (if isClosed t then profitOf t else 0))%Q.
Proof.
  destruct (isClosed t) eqn:Ec.
  - destruct (addPerf_closed o t Ec) as (o1 & Ho1 & ->).
    rewrite (set_fsum_old TradeCharts.Perf.totalProfit _ _ _
               (get_set_same _ _ _)).
    destruct Ho1 as [[-> [v Hv]]|[-> Hn]].
    + rewrite (set_fsum_old TradeCharts.Perf.totalProfit _ _ _ Hv). simpl.
      unfold TradeCharts.perfAt. rewrite Hv. ring.
    + rewrite (set_fsum_old TradeCharts.Perf.totalProfit _ _ _
                 (get_set_same _ _ _)).
      rewrite (set_fsum_new TradeCharts.Perf.totalProfit _ _ _ Hn). simpl.
      unfold TradeCharts.perfAt. rewrite Hn. simpl. ring.
  - rewrite (addPerf_open o t Ec). ring.
Qed.

(** The dictionary after all trades. *)
Lemma perf_spec (ts : list Trade) (o : JSObject.t TradeCharts.Perf.t) :
  NoDup (map fst o) ->
  let o' := fold_left TradeCharts.addPerf ts o in
  NoDup (map fst o')
  /\ (forall s, In s (map fst o')
                <-> In s (map fst o)
                    \/ exists t, In t ts /\ isClosed t = true /\ symbol t = s)
  /\ (forall s, (TradeCharts.Perf.totalProfit (TradeCharts.perfAt o' s)
                 == TradeCharts.Perf.totalProfit (TradeCharts.perfAt o s)
                    + Qsum (map profitOf (closedIn s ts)))%Q)
  /\ (forall s, TradeCharts.Perf.count (TradeCharts.perfAt o' s)
                = (TradeCharts.Perf.count (TradeCharts.perfAt o s)
                   + Z.of_nat (List.length (closedIn s ts)))%Z)
  /\ (Qsum (map TradeCharts.Perf.totalProfit (map snd o'))
      == Qsum (map TradeCharts.Perf.totalProfit (map snd o))
         + Qsum (profits ts))%Q.
Proof.
  revert o. induction ts as [|t ts IH]; intros o Hnd; cbv zeta.
  - simpl. split; [exact Hnd|]. split.
    + intro s. split; [tauto|]. intros [H|(t & [] & _)]. exact H.
    + split; [intro s; simpl; ring|].
      split; [intro s; simpl; lia|]. unfold profits. simpl. ring.
  - simpl fold_left.
    destruct (IH (TradeCharts.addPerf o t) (@addPerf_NoDup o t Hnd))
      as (H1 & H2 & H3 & H4 & H5).
    split; [exact H1|]. split; [|split; [|split]].
    + intro s. rewrite H2, addPerf_keys. simpl. split.
      * intros [[H|[Hc Hd]]|(t' & Hin & Hc & Hd)]; eauto 7.
      * intros [H|(t' & [<-|Hin] & Hc & Hd)]; eauto 7.
    + intro s. rewrite H3, addPerf_at. unfold closedIn. simpl.
      destruct (isClosed t && (symbol t =? s)%string); simpl; ring.
    + intro s. rewrite H4, addPerf_at. unfold closedIn. simpl.
      destruct (isClosed t && (symbol t =? s)%string); simpl List.length;
        cbn [TradeCharts.Perf.count]; lia.
    + rewrite H5, addPerf_sum. unfold profits. simpl.
      destruct (isClosed t); simpl; ring.
Qed.

Lemma byTotalProfitDesc_before (a b : TradeCharts.Ticker) :
  before TradeCharts.byTotalProfitDesc a b
  <-> (TradeCharts.totalProfit b <= TradeCharts.totalProfit a)%Q.
Proof.
  unfold before, TradeCharts.byTotalProfitDesc, JS.signQ.
  rewrite <- Qle_alt. split; intro H; lra.
Qed.

Lemma byTotalProfitDesc_total (a b : TradeCharts.Ticker) :
  TradeCharts.byTotalProfitDesc a b = Gt ->
  TradeCharts.byTotalProfitDesc b a <> Gt.
Proof.
  intro H. apply byTotalProfitDesc_before.
  assert (Hab : ~ before TradeCharts.byTotalProfitDesc a b)
    by (unfold before; congruence).
  rewrite byTotalProfitDesc_before in Hab. lra.
Qed.

Lemma byTotalProfitDesc_trans :
  Relations_1.Transitive (before TradeCharts.byTotalProfitDesc).
Proof.
  intros a b c. rewrite !byTotalProfitDesc_before. intros; lra.
Qed.

Lemma perfAt_keys (o : JSObject.t TradeCharts.Perf.t) :
  NoDup (map fst o) -> map (TradeCharts.perfAt o) (map fst o) = map snd o.
Proof.
  induction o as [|[k v] o IH]; simpl; [reflexivity|].
  intro Hnd. inversion Hnd as [|? ? Hnotin Hnd']. subst.
  unfold TradeCharts.perfAt at 1. simpl. rewrite String.eqb_refl. f_equal.
  rewrite <- (IH Hnd'). apply map_ext_in. intros d Hd.
  unfold TradeCharts.perfAt. simpl.
  destruct (k =? d)%string eqn:E; [|reflexivity].
  apply String.eqb_eq in E. subst. contradiction.
Qed.

Lemma perfOf_closed (ts : list Trade) :
  TradeCharts.perfOf (filter isClosed ts) = TradeCharts.perfOf ts.
Proof.
  unfold TradeCharts.perfOf. generalize (@JSObject.empty TradeCharts.Perf.t).
  induction ts as [|t ts IH]; intro o; simpl; [reflexivity|].
  destruct (isClosed t) eqn:E; simpl.
  - apply IH.
  - rewrite (addPerf_open o t E). apply IH.
Qed.

(** X9.  The performance chart has one row per symbol that has a closed
    trade, best total first; the [totalProfit] of a row is the sum of the
    profits of the closed trades of its symbol and its [avgProfit] the
    mean of these profits, a finite number since a row never has a count
    of zero.  The totals of the rows add up to the [totalProfit] of the
    statistics on the same list, and open trades contribute nothing. *)
Theorem tickerPerformance_rows_by_symbol (ts : list Trade) :
  let rows := TradeCharts.tickerPerformance ts in
  NoDup (map TradeCharts.symbol rows)
  /\ (forall s, In s (map TradeCharts.symbol rows)
                <-> exists t, In t ts /\ isClosed t = true /\ symbol t = s)
  /\ (forall r, In r rows ->
        let closed := closedIn (TradeCharts.symbol r) ts in
        closed <> []
        /\ (TradeCharts.totalProfit r == Qsum (map profitOf closed))%Q
        /\ hasValue (TradeCharts.avgProfit r)
             (Qsum (map profitOf closed) / cnt closed))
  /\ StronglySorted
       (fun a b => (TradeCharts.totalProfit b <= TradeCharts.totalProfit a)%Q)
       rows
  /\ (Qsum (map TradeCharts.totalProfit rows)
      == totalProfit (App.stats ts))%Q
  /\ rows = TradeCharts.tickerPerformance (filter isClosed ts).
Proof.
  intro rows. subst rows. unfold TradeCharts.tickerPerformance. cbv zeta.
  set (o := TradeCharts.perfOf ts).
  destruct (@perf_spec ts JSObject.empty (NoDup_nil _))
    as (Hnd & Hkeys & Htot & Hcnt & Hsum).
  fold (TradeCharts.perfOf ts) in Hnd, Hkeys, Htot, Hcnt, Hsum.
  fold o in Hnd, Hkeys, Htot, Hcnt, Hsum.
  pose proof (keys_perm o) as Hk.
  set (raw := map (TradeCharts.tickerOf o) (JSObject.keys o)).
  pose proof (sort_perm TradeCharts.byTotalProfitDesc raw) as Hperm.
  assert (Hsym : map TradeCharts.symbol raw = JSObject.keys o).
  { subst raw. rewrite map_map. simpl. apply map_id. }
  assert (Hin : forall s, In s (JSObject.keys o)
                 <-> exists t, In t ts /\ isClosed t = true /\ symbol t = s).
  { intro s. split.
    - intro H. apply (Permutation_in _ Hk) in H. apply Hkeys in H.
      destruct H as [[]|H]. exact H.
    - intro H. apply (Permutation_in _ (Permutation_sym Hk)).
      apply Hkeys. now right. }
  split; [|split; [|split; [|split; [|split]]]].
  - apply (Permutation_NoDup
             (Permutation_sym (Permutation_map TradeCharts.symbol Hperm))).
    rewrite Hsym. apply (Permutation_NoDup (Permutation_sym Hk) Hnd).
  - intro s. rewrite <- Hin, <- Hsym. split; intro H.
    + exact (Permutation_in _ (Permutation_map TradeCharts.symbol Hperm) H).
    + exact (Permutation_in _
               (Permutation_sym (Permutation_map TradeCharts.symbol Hperm)) H).
  - intros r Hr.
    apply (Permutation_in _ Hperm) in Hr.
    subst raw. apply in_map_iff in Hr. destruct Hr as (s & <- & Hs).
    cbn [TradeCharts.tickerOf TradeCharts.symbol TradeCharts.totalProfit
         TradeCharts.avgProfit].
    assert (Hne : closedIn s ts <> []).
    { apply Hin in Hs. destruct Hs as (t & Ht & Hc & Hsy).
      assert (X : In t (closedIn s ts)).
      { unfold closedIn. apply filter_In. split; [exact Ht|].
        rewrite Hc. simpl. now apply String.eqb_eq. }
      intro E. rewrite E in X. destruct X. }
    assert (Et : (TradeCharts.Perf.totalProfit (TradeCharts.perfAt o s)
                  == Qsum (map profitOf (closedIn s ts)))%Q).
    { rewrite Htot. unfold TradeCharts.perfAt. simpl. ring. }
    assert (Ec : TradeCharts.Perf.count (TradeCharts.perfAt o s)
                 = Z.of_nat (List.length (closedIn s ts))).
    { rewrite Hcnt. unfold TradeCharts.perfAt. simpl. lia. }
    split; [exact Hne|]. split; [exact Et|].
    pose proof (@cnt_nonzero _ (closedIn s ts) Hne) as Hn.
    rewrite Ec. fold (cnt (closedIn s ts)).
    rewrite (div_Num _ Hn). eexists. split; [reflexivity|].
    now rewrite Et.
  - pose proof (sort_strongly_sorted byTotalProfitDesc_total raw
                  byTotalProfitDesc_trans) as Hs.
    clear - Hs. induction Hs as [|a l Hs IH Hall]; constructor; [exact IH|].
    eapply Forall_impl; [|exact Hall]. intros b Hb.
    now apply byTotalProfitDesc_before.
  - rewrite (Qsum_perm (Permutation_map TradeCharts.totalProfit Hperm)).
    subst raw. rewrite map_map. cbn [TradeCharts.tickerOf TradeCharts.totalProfit].
    rewrite <- (map_map (TradeCharts.perfAt o) TradeCharts.Perf.totalProfit).
    rewrite (Qsum_perm (Permutation_map TradeCharts.Perf.totalProfit
                          (Permutation_map (TradeCharts.perfAt o) Hk))).
    rewrite (perfAt_keys _ Hnd), Hsum, totalProfit_sum. simpl. ring.
  - subst raw o. now rewrite perfOf_closed.
Qed.

